(** * PTX tokens (ptx-jesuit-go): a shallow embedding and its properties

    The development follows the layout of the Go repository:

    - [gobytes], [sha256], [bigint], [hexenc]: the pieces of the Go standard
      library the code calls (byte strings, crypto/sha256, math/big,
      encoding/hex);
    - [fr]: the BN254 scalar field of gnark-crypto;
    - [crypto], [poseidon], [signals], [utils], [nonce], [prover],
      [verifier]: the packages of the repository. *)

From Stdlib Require Import ZArith Lia Ascii String List Bool.
From stdpp Require Import base list strings gmap.

Local Open Scope string_scope.
Local Open Scope list_scope.
Local Open Scope Z_scope.

(** ** Byte strings *)

(** A Go [[]byte] is a list of integers in [0, 256); a Go [string] is its
    bytes, which is what a Rocq [string] is. *)
Module gobytes.

Fixpoint of_string (s : string) : list Z :=
  match s with
  | EmptyString => []
  | String c r => Z.of_nat (nat_of_ascii c) :: of_string r
  end.

Definition is_byte (b : Z) : Prop := 0 <= b < 256.

(** [new(big.Int).SetBytes(buf)]: big-endian unsigned value. *)
Definition SetBytes (buf : list Z) : Z :=
  fold_left (fun acc b => acc * 256 + b) buf 0.

(** The [n] low bytes of [v], most significant first. *)
Definition be_bytes (n : nat) (v : Z) : list Z :=
  map (fun i => Z.land (Z.shiftr v (8 * Z.of_nat i)) 0xFF) (rev (seq 0 n)).

(** Go's fixed-width signed integers wrap around. *)
Definition wrap (bits : Z) (v : Z) : Z :=
  (v + 2 ^ (bits - 1)) mod 2 ^ bits - 2 ^ (bits - 1).
Definition int64 (v : Z) : Z := wrap 64 v.

End gobytes.

(** ** crypto/sha256 (FIPS 180-4) *)
Module sha256.

Definition mask32 : Z := 0xFFFFFFFF.
Definition add32 (x y : Z) : Z := Z.land (x + y) mask32.
Definition rotr (n x : Z) : Z :=
  Z.lor (Z.shiftr x n) (Z.land (Z.shiftl x (32 - n)) mask32).
Definition not32 (x : Z) : Z := Z.lxor x mask32.

Definition Ch (x y z : Z) : Z := Z.lxor (Z.land x y) (Z.land (not32 x) z).
Definition Maj (x y z : Z) : Z :=
  Z.lxor (Z.lxor (Z.land x y) (Z.land x z)) (Z.land y z).
Definition bsig0 (x : Z) : Z := Z.lxor (Z.lxor (rotr 2 x) (rotr 13 x)) (rotr 22 x).
Definition bsig1 (x : Z) : Z := Z.lxor (Z.lxor (rotr 6 x) (rotr 11 x)) (rotr 25 x).
Definition ssig0 (x : Z) : Z := Z.lxor (Z.lxor (rotr 7 x) (rotr 18 x)) (Z.shiftr x 3).
Definition ssig1 (x : Z) : Z := Z.lxor (Z.lxor (rotr 17 x) (rotr 19 x)) (Z.shiftr x 10).

(** The round constants are the first 32 bits of the fractional parts of
    the cube roots of the first 64 primes; the initial hash value, of the
    square roots of the first 8. *)
Definition is_prime (n : nat) : bool :=
  forallb (fun d => negb (Nat.eqb (n mod d) 0)) (seq 2 (n - 2)).

Definition primes : list Z := map Z.of_nat (List.filter is_prime (seq 2 310)).

(** The largest [r + m], [m < 2 ^ bits], whose [k]-th power is at most [n]. *)
Fixpoint root_search (k : Z) (bits : nat) (n r : Z) : Z :=
  match bits with
  | O => r
  | S b =>
      let c := r + 2 ^ Z.of_nat b in
      root_search k b n (if c ^ k <=? n then c else r)
  end.

Definition root_fraction (k : Z) (q : Z) : Z :=
  root_search k 40 (q * 2 ^ (32 * k)) 0 mod 2 ^ 32.

Definition K : list Z := Eval vm_compute in map (root_fraction 3) primes.

Definition H0 : list Z := Eval vm_compute in map (root_fraction 2) (firstn 8 primes).

(** Message padding: a 1 bit, zeros, the bit length on 64 bits. *)
Definition pad (msg : list Z) : list Z :=
  let l := Z.of_nat (length msg) in
  msg ++ [0x80] ++ repeat 0 (Z.to_nat ((55 - l) mod 64)) ++ gobytes.be_bytes 8 (8 * l).

Fixpoint words (n : nat) (bs : list Z) : list Z :=
  match n with
  | O => []
  | S n' => gobytes.SetBytes (firstn 4 bs) :: words n' (skipn 4 bs)
  end.

(** The message schedule, most recent word first. *)
Fixpoint schedule (n : nat) (w : list Z) : list Z :=
  match n with
  | O => w
  | S n' =>
      let x := add32 (add32 (ssig1 (nth 1 w 0)) (nth 6 w 0))
                     (add32 (ssig0 (nth 14 w 0)) (nth 15 w 0)) in
      schedule n' (x :: w)
  end.

Record regs := Regs { ra : Z; rb : Z; rc : Z; rd : Z; re : Z; rf : Z; rg : Z; rh : Z }.

Definition round (s : regs) (kw : Z * Z) : regs :=
  let t1 := add32 (add32 (add32 (rh s) (bsig1 (re s)))
                         (add32 (Ch (re s) (rf s) (rg s)) (fst kw))) (snd kw) in
  let t2 := add32 (bsig0 (ra s)) (Maj (ra s) (rb s) (rc s)) in
  Regs (add32 t1 t2) (ra s) (rb s) (rc s) (add32 (rd s) t1) (re s) (rf s) (rg s).

Definition regs_of (h : list Z) : regs :=
  Regs (nth 0 h 0) (nth 1 h 0) (nth 2 h 0) (nth 3 h 0)
       (nth 4 h 0) (nth 5 h 0) (nth 6 h 0) (nth 7 h 0).

Definition list_of (s : regs) : list Z :=
  [ra s; rb s; rc s; rd s; re s; rf s; rg s; rh s].

Definition compress (h : list Z) (block : list Z) : list Z :=
  let w := rev (schedule 48 (rev (words 16 block))) in
  let s := fold_left round (combine K w) (regs_of h) in
  map (fun p => add32 (fst p) (snd p)) (combine h (list_of s)).

Fixpoint blocks (n : nat) (h : list Z) (bs : list Z) : list Z :=
  match n with
  | O => h
  | S n' => blocks n' (compress h (firstn 64 bs)) (skipn 64 bs)
  end.

(** [sha256.Sum256(data)]: the 32-byte digest. *)
Definition Sum256 (data : list Z) : list Z :=
  let p := pad data in
  concat (map (gobytes.be_bytes 4) (blocks (length p / 64)%nat H0 p)).

End sha256.

(** The digest read as an unsigned big-endian integer. *)
Definition digest (msg : string) : Z :=
  gobytes.SetBytes (sha256.Sum256 (gobytes.of_string msg)).

(** ** encoding/hex *)
Module hexenc.

Definition hexdigit (d : Z) : ascii :=
  if d <? 10 then ascii_of_nat (Z.to_nat (48 + d))
  else ascii_of_nat (Z.to_nat (87 + d)).

(** [hex.EncodeToString(src)]: two lower-case digits per byte. *)
Fixpoint EncodeToString (src : list Z) : string :=
  match src with
  | [] => EmptyString
  | b :: r => String (hexdigit (b / 16)) (String (hexdigit (b mod 16)) (EncodeToString r))
  end.


(** [hex.DecodeString]: fails on an odd length or a byte that is no hex
    digit. *)
Definition fromHexChar (c : ascii) : option Z :=
  let n := Z.of_nat (nat_of_ascii c) in
  if (48 <=? n) && (n <=? 57) then Some (n - 48)
  else if (97 <=? n) && (n <=? 102) then Some (n - 97 + 10)
  else if (65 <=? n) && (n <=? 70) then Some (n - 65 + 10)
  else None.

Fixpoint DecodeString (s : string) : option (list Z) :=
  match s with
  | EmptyString => Some []
  | String a (String b r) =>
      match fromHexChar a, fromHexChar b, DecodeString r with
      | Some x, Some y, Some l => Some (x * 16 + y :: l)
      | _, _, _ => None
      end
  | String _ EmptyString => None
  end.

End hexenc.

(** ** math/big *)
Module bigint.

Definition MaxBase : Z := 62.

(** The digit value [nat.scan] gives a byte (bases up to 36). *)
Definition digit (ch : Z) : Z :=
  if (48 <=? ch) && (ch <=? 57) then ch - 48
  else if (97 <=? ch) && (ch <=? 122) then ch - 97 + 10
  else if (65 <=? ch) && (ch <=? 90) then ch - 65 + 10
  else MaxBase + 1.

(** Reads the longest prefix of digits of [base]: its value, the number of
    digits, and what is left. *)
Fixpoint scan (base : Z) (bs : list Z) (acc : Z) (count : nat) : Z * nat * list Z :=
  match bs with
  | [] => (acc, count, [])
  | ch :: r =>
      if digit ch <? base then scan base r (acc * base + digit ch) (S count)
      else (acc, count, bs)
  end.

(** [z.SetString(s, base)] on a fresh [big.Int], for an explicit base in
    [2, 36]: the value the receiver holds afterwards and the [ok] flag.
    The flag is false when there is no digit or something follows the
    digits; the callers in this repository ignore it and read the receiver,
    which then holds the signed value of the digits that were read. *)
Definition SetString (s : string) (base : Z) : Z * bool :=
  match gobytes.of_string s with
  | [] => (0, false)
  | ch :: r =>
      let neg := ch =? 45 in
      let body := if (ch =? 45) || (ch =? 43) then r else ch :: r in
      match scan base body 0 0 with
      | (v, count, rest) =>
          (if neg then - v else v,
           negb (Nat.eqb count 0) && match rest with [] => true | _ => false end)
      end
  end.

(** [z.Bytes()]: the absolute value, big-endian, without leading zeros. *)
Definition Bytes (z : Z) : list Z :=
  let a := Z.abs z in
  if a =? 0 then [] else gobytes.be_bytes (Z.to_nat (Z.log2 a / 8 + 1)) a.

(** Decimal rendering ([%d], [String()]). *)
Fixpoint digits (fuel : nat) (n : Z) (acc : string) : string :=
  match fuel with
  | O => acc
  | S f =>
      let acc' := String (ascii_of_nat (Z.to_nat (48 + n mod 10))) acc in
      if n <? 10 then acc' else digits f (n / 10) acc'
  end.

Definition itoa (n : Z) : string :=
  let a := Z.abs n in
  let d := digits (S (Z.to_nat (Z.log2 a))) a EmptyString in
  if n <? 0 then String "-" d else d.

End bigint.

(** ** Results of Go functions

    [Ok] is a normal return, [Err] a returned [error] (with its message),
    [Panic] a run-time panic (index out of range, failed type assertion). *)
Inductive result (A : Type) : Type :=
| Ok (a : A)
| Err (msg : string)
| Panic.
Arguments Ok {A} a.
Arguments Err {A} msg.
Arguments Panic {A}.

#[global] Instance result_bind : MBind result :=
  fun A B f m => match m with Ok a => f a | Err e => Err e | Panic => Panic end.
#[global] Instance result_ret : MRet result := fun A a => Ok a.

(** A Go pair [(value, error)] returned by code that does not panic. *)
Inductive outcome (A : Type) : Type :=
| Done (a : A)
| Failed (err : string).
Arguments Done {A} a.
Arguments Failed {A} err.

#[global] Instance outcome_bind : MBind outcome :=
  fun A B f m => match m with Done a => f a | Failed e => Failed e end.
#[global] Instance outcome_ret : MRet outcome := fun A a => Done a.

Definition result_map {A B} (f : A -> B) (r : result A) : result B :=
  match r with Ok a => Ok (f a) | Err e => Err e | Panic => Panic end.

(** [l[i]] with Go's bounds check. *)
Definition index {A} (l : list A) (i : nat) : result A :=
  match l !! i with Some x => Ok x | None => Panic end.

(** [for i := from; i < from + n; i++ { s = body(i, s) }] *)
Fixpoint for_loop {St : Type} (n from : nat) (body : nat -> St -> result St) (s : St)
  : result St :=
  match n with
  | O => Ok s
  | S n' => s' ← body from s; for_loop n' (S from) body s'
  end.

(** ** gnark-crypto: the scalar field of BN254 ([fr.Element]) *)
Module fr.

Definition Modulus : Z :=
  21888242871839275222246405745257275088548364400416034343698204186575808495617.

Definition SetBigInt (v : Z) : Z := v mod Modulus.
Definition SetInt64 (v : Z) : Z := v mod Modulus.
Definition SetZero : Z := 0.
Definition Add (a b : Z) : Z := (a + b) mod Modulus.
Definition Mul (a b : Z) : Z := (a * b) mod Modulus.
(** [z.String()], that is [z.Text(10)]: an element whose negation is
    between 1 and 65535 is written as that negation with a minus sign,
    every other element in plain decimal. *)
Definition String (a : Z) : string :=
  let neg := (- a) mod Modulus in
  if (0 <? neg) && (neg <=? 65535) then String "-" (bigint.itoa neg)
  else bigint.itoa a.

End fr.

(** ** Poseidon constants

    The constant tables ([poseidonC2], [poseidonM2], ... of package crypto;
    [C_T2], [M_T2], ... of package poseidon) are generated files that are
    not part of the sources at hand: they are parameters.  Every entry is a
    hexadecimal literal with its [0x] prefix. *)
Record Tables := MkTables {
  tab_C : list string;          (* round constants *)
  tab_M : list (list string);   (* MDS matrix *)
  tab_P : list (list string);   (* pre-sparse matrix *)
  tab_S : list string           (* sparse matrices, flattened *)
}.

Record Constants := MkConstants {
  width2 : Tables;
  width4 : Tables;
  width5 : Tables
}.

(** The [switch t] of [PoseidonHash] and of [GetParams]. *)
Definition select (k : Constants) (t : nat) : option Tables :=
  match t with
  | 2%nat => Some (width2 k)
  | 4%nat => Some (width4 k)
  | 5%nat => Some (width5 k)
  | _ => None
  end.

(** [s[2:]] *)
Definition skip_prefix (s : string) : result string :=
  match s with
  | String _ (String _ r) => Ok r
  | _ => Panic
  end.

(** ** Package crypto (pkg/crypto) *)
Module crypto.

Definition nRoundsP : list nat :=
  [56; 57; 56; 60; 60; 63; 64; 63; 60; 66; 60; 65; 70; 60; 64; 68]%nat.

Definition getFr (hexStr : string) : result Z :=
  d ← skip_prefix hexStr;
  Ok (fr.SetBigInt (fst (bigint.SetString d 16))).

Definition sBox (x : Z) : Z :=
  let x2 := fr.Mul x x in
  let x4 := fr.Mul x2 x2 in
  fr.Mul x4 x.

Definition ark (c : list string) (t : nat) (state : list Z) (r : nat)
  : result (list Z) :=
  for_loop t 0 (fun i state =>
    x ← index state i;
    e ← index c (i + r);
    k ← getFr e;
    Ok (<[i := fr.Add x k]> state)) state.

Definition mix (t : nat) (state : list Z) (matrix : list (list string))
  : result (list Z) :=
  for_loop t 0 (fun i res =>
    acc ← for_loop t 0 (fun j acc =>
             x ← index state j;
             row ← index matrix j;
             e ← index row i;
             k ← getFr e;
             Ok (fr.Add acc (fr.Mul x k))) fr.SetZero;
    Ok (<[i := acc]> res)) (replicate t 0).

Definition mixS (s : list string) (t : nat) (state : list Z) (r : nat)
  : result (list Z) :=
  let sOffset := ((t * 2 - 1) * r)%nat in
  r0 ← for_loop t 0 (fun i acc =>
          x ← index state i;
          e ← index s (sOffset + i);
          k ← getFr e;
          Ok (fr.Add acc (fr.Mul x k))) fr.SetZero;
  for_loop (t - 1) 1 (fun i res =>
    x ← index state i;
    x0 ← index state 0;
    e ← index s (sOffset + t + i - 1);
    k ← getFr e;
    Ok (<[i := fr.Add x (fr.Mul x0 k)]> res)) (<[0%nat := r0]> (replicate t 0)).

(** [for i := 0; i < t; i++ { state[i] = sBox(state[i]) }] *)
Definition sBoxes (t : nat) (state : list Z) : result (list Z) :=
  for_loop t 0 (fun i state =>
    x ← index state i;
    Ok (<[i := sBox x]> state)) state.

Definition PoseidonHash (k : Constants) (inputs : list Z) : result Z :=
  let nInputs := length inputs in
  let t := (nInputs + 1)%nat in
  match select k t with
  | None =>
      Err ("unsupported number of inputs: " +:+ bigint.itoa (Z.of_nat nInputs)
           +:+ " (t=" +:+ bigint.itoa (Z.of_nat t) +:+ ")")
  | Some tb =>
      let c := tab_C tb in
      let m := tab_M tb in
      let p := tab_P tb in
      let s := tab_S tb in
      let nRoundsF := 8%nat in
      nRoundsP ← index nRoundsP (t - 2);
      state ← for_loop nInputs 0 (fun i state =>
                 x ← index inputs i;
                 Ok (<[(i + 1)%nat := x]> state))
               (<[0%nat := fr.SetZero]> (replicate t 0));
      state ← ark c t state 0;
      state ← for_loop (nRoundsF / 2 - 1) 0 (fun r state =>
                 state ← sBoxes t state;
                 state ← ark c t state ((r + 1) * t);
                 mix t state m) state;
      state ← sBoxes t state;
      state ← ark c t state ((nRoundsF / 2) * t);
      state ← mix t state p;
      state ← for_loop nRoundsP 0 (fun r state =>
                 x ← index state 0;
                 let state := <[0%nat := sBox x]> state in
                 x ← index state 0;
                 e ← index c ((nRoundsF / 2 + 1) * t + r);
                 k ← getFr e;
                 let state := <[0%nat := fr.Add x k]> state in
                 mixS s t state r) state;
      state ← for_loop (nRoundsF / 2 - 1) 0 (fun r state =>
                 state ← sBoxes t state;
                 state ← ark c t state ((nRoundsF / 2 + 1) * t + nRoundsP + r * t);
                 mix t state m) state;
      state ← sBoxes t state;
      state ← mix t state m;
      index state 0
  end.

Definition CircuitHash (k : Constants) (inputs : list Z) : result Z :=
  PoseidonHash k inputs.

Definition Sha256 (data : list Z) : list Z := sha256.Sum256 data.

Definition Sha256Hex (data : list Z) : string :=
  hexenc.EncodeToString (Sha256 data).

Definition mask128 : Z := Z.shiftl 1 128 - 1.

(** Splits a 256-bit hash, given as a hex string, into two 128-bit chunks. *)
Definition SplitHashToFieldElements (hexString : string) : Z * Z :=
  let fullValue := fst (bigint.SetString hexString 16) in
  let p1Int := Z.land fullValue mask128 in
  let p2Int := Z.land (Z.shiftr fullValue 128) mask128 in
  (fr.SetBigInt p1Int, fr.SetBigInt p2Int).

(** SHA-256 of the string, reduced into the field (no Poseidon is
    applied, whatever the name says). *)
Definition PoseidonHashString (s : string) : Z :=
  let hashBytes := sha256.Sum256 (gobytes.of_string s) in
  let hashInt := gobytes.SetBytes hashBytes in
  fr.SetBigInt hashInt.

Definition SplitMetadataHash (metaRaw : string) : Z * Z :=
  let hashBytes := sha256.Sum256 (gobytes.of_string metaRaw) in
  let hashHex := hexenc.EncodeToString hashBytes in
  SplitHashToFieldElements hashHex.

End crypto.

(** ** Package poseidon (pkg/circuit/poseidon): the in-circuit hash *)
Module poseidon.

(** What the hasher uses of gnark's [frontend.API].  A
    [frontend.Variable] is a value of [V]; a [*big.Int] or an [int]
    handed to a gate is a constant, injected by [api_Const]. *)
Class API (V : Type) := {
  api_Add : V -> V -> V;
  api_Mul : V -> V -> V;
  api_Const : Z -> V
}.

Record Parameters := MkParameters {
  T : nat;
  NRoundsF : nat;
  NRoundsP : nat;
  C : list string;
  M : list (list string);
  P : list (list string);
  S : list string
}.

Definition GetParams (k : Constants) (t : nat) : result Parameters :=
  let nRoundsP := [56; 57; 56; 60; 60; 63; 64; 63; 60; 66; 60; 65; 70; 60; 64; 68]%nat in
  match select k t with
  | None => Err ("unsupported t value: " +:+ bigint.itoa (Z.of_nat t))
  | Some tb =>
      rp ← index nRoundsP (t - 2);
      Ok (MkParameters t 8 rp (tab_C tb) (tab_M tb) (tab_P tb) (tab_S tb))
  end.

Record Hasher := MkHasher { params : Parameters }.

Definition NewHasher (k : Constants) (nInputs : nat) : result Hasher :=
  let t := (nInputs + 1)%nat in
  params ← GetParams k t;
  Ok (MkHasher params).

(** [c := new(big.Int); c.SetString(s[2:], 16)] *)
Definition hexInt (s : string) : result Z :=
  d ← skip_prefix s;
  Ok (fst (bigint.SetString d 16)).

Section gates.
Context {V : Type} `{API V}.

Definition sBox (x : V) : V :=
  let x2 := api_Mul x x in
  let x4 := api_Mul x2 x2 in
  api_Mul x4 x.

Definition arkAtOffset (h : Hasher) (state : list V) (offset : nat)
  : result (list V) :=
  let t := T (params h) in
  for_loop t 0 (fun i state =>
    e ← index (C (params h)) (offset + i);
    c ← hexInt e;
    x ← index state i;
    Ok (<[i := api_Add x (api_Const c)]> state)) state.

Definition mix (h : Hasher) (state : list V) (matrix : list (list string))
  : result (list V) :=
  let t := T (params h) in
  for_loop t 0 (fun i res =>
    acc ← for_loop t 0 (fun j acc =>
             row ← index matrix j;
             e ← index row i;
             m ← hexInt e;
             x ← index state j;
             let term := api_Mul x (api_Const m) in
             Ok (api_Add acc term)) (api_Const 0);
    Ok (<[i := acc]> res)) (replicate t (api_Const 0)).

Definition mixS (h : Hasher) (state : list V) (round : nat) : result (list V) :=
  let t := T (params h) in
  let sOffset := ((t * 2 - 1) * round)%nat in
  acc ← for_loop t 0 (fun i acc =>
           e ← index (S (params h)) (sOffset + i);
           s ← hexInt e;
           x ← index state i;
           let term := api_Mul x (api_Const s) in
           Ok (api_Add acc term)) (api_Const 0);
  for_loop (t - 1) 1 (fun i res =>
    e ← index (S (params h)) (sOffset + t + i - 1);
    s ← hexInt e;
    x0 ← index state 0;
    let term := api_Mul x0 (api_Const s) in
    x ← index state i;
    Ok (<[i := api_Add x term]> res)) (<[0%nat := acc]> (replicate t (api_Const 0))).

(** [for i := 0; i < t; i++ { state[i] = h.sBox(state[i]) }] *)
Definition sBoxes (h : Hasher) (state : list V) : result (list V) :=
  for_loop (T (params h)) 0 (fun i state =>
    x ← index state i;
    Ok (<[i := sBox x]> state)) state.

Definition Hash (h : Hasher) (inputs : list V) : result V :=
  if negb (Nat.eqb (length inputs) (T (params h) - 1)) then
    Err ("expected " +:+ bigint.itoa (Z.of_nat (T (params h) - 1))
         +:+ " inputs, got " +:+ bigint.itoa (Z.of_nat (length inputs)))
  else
    let t := T (params h) in
    let rf := NRoundsF (params h) in
    let rp := NRoundsP (params h) in
    state ← for_loop (length inputs) 0 (fun i state =>
               inp ← index inputs i;
               Ok (<[(i + 1)%nat := inp]> state))
             (<[0%nat := api_Const 0]> (replicate t (api_Const 0)));
    state ← arkAtOffset h state 0;
    state ← for_loop (rf / 2 - 1) 0 (fun r state =>
               state ← sBoxes h state;
               state ← arkAtOffset h state ((r + 1) * t);
               mix h state (M (params h))) state;
    state ← sBoxes h state;
    state ← arkAtOffset h state ((rf / 2) * t);
    state ← mix h state (P (params h));
    state ← for_loop rp 0 (fun r state =>
               x ← index state 0;
               let state := <[0%nat := sBox x]> state in
               let cIdx := ((rf / 2 + 1) * t + r)%nat in
               e ← index (C (params h)) cIdx;
               c ← hexInt e;
               x ← index state 0;
               let state := <[0%nat := api_Add x (api_Const c)]> state in
               mixS h state r) state;
    state ← for_loop (rf / 2 - 1) 0 (fun r state =>
               state ← sBoxes h state;
               state ← arkAtOffset h state ((rf / 2 + 1) * t + rp + r * t);
               mix h state (M (params h))) state;
    state ← sBoxes h state;
    state ← mix h state (M (params h));
    index state 0.

Definition Hash1 (k : Constants) (a : V) : result V :=
  h ← NewHasher k 1; Hash h [a].

Definition Hash3 (k : Constants) (a b c : V) : result V :=
  h ← NewHasher k 3; Hash h [a; b; c].

Definition Hash4 (k : Constants) (a b c d : V) : result V :=
  h ← NewHasher k 4; Hash h [a; b; c; d].

End gates.

(** The gates evaluated in the field: what the solver computes for each
    gate from the values of its inputs. *)
#[global] Instance field_gates : API Z := {
  api_Add a b := (a + b) mod fr.Modulus;
  api_Mul a b := (a * b) mod fr.Modulus;
  api_Const c := c mod fr.Modulus
}.

(** The gates emitted as a circuit: compiling the hasher against this
    interface yields a term over the input wires (the sharing of
    sub-circuits is not represented), which [eval] evaluates on an
    assignment of the inputs. *)
Inductive wire :=
| Input (i : nat)
| Constant (c : Z)
| AddGate (a b : wire)
| MulGate (a b : wire).

#[global] Instance circuit_gates : API wire := {
  api_Add := AddGate;
  api_Mul := MulGate;
  api_Const := Constant
}.

Fixpoint eval (assignment : list Z) (w : wire) : Z :=
  match w with
  | Input i => nth i assignment 0
  | Constant c => c mod fr.Modulus
  | AddGate a b => (eval assignment a + eval assignment b) mod fr.Modulus
  | MulGate a b => (eval assignment a * eval assignment b) mod fr.Modulus
  end.

(** The input wires of a hasher for [n] inputs. *)
Definition inputs_of (n : nat) : list wire := map Input (seq 0 n).

End poseidon.

(** ** Package signals (pkg/signals): semantic check of public signals *)
Module signals.

Record VerificationResult := MkVerificationResult {
  FqdnHash : bool;
  MetadataPart1 : bool;
  MetadataPart2 : bool;
  TrustMethod : bool;
  AllValid : bool
}.

Record PTXSignals := NewPTXSignals {
  sig_Domain : string;
  sig_MetadataRaw : string;
  sig_TrustMethod : Z           (* ptx.TrustMethod, an int32 enum *)
}.

(** Splits a 32-byte hash into the integers of its first and of its last
    16 bytes.  (The only caller passes a SHA-256 digest, so the slice
    bounds always hold.) *)
Definition hashToBigInts (data : list Z) : Z * Z :=
  let part1 := gobytes.SetBytes (take 16 data) in
  let part2 := gobytes.SetBytes (drop 16 data) in
  (part1, part2).

(** The body of the loop over the parsed signals. *)
Definition scan_signal (trustMethodBig metaP1 metaP2 : Z) (domainHashBytes : list Z)
    (res : VerificationResult) (sig : Z) : VerificationResult :=
  let res :=
    if sig =? trustMethodBig
    then MkVerificationResult (FqdnHash res) (MetadataPart1 res) (MetadataPart2 res) true (AllValid res)
    else res in
  let res :=
    if sig =? metaP1
    then MkVerificationResult (FqdnHash res) true (MetadataPart2 res) (TrustMethod res) (AllValid res)
    else res in
  let res :=
    if sig =? metaP2
    then MkVerificationResult (FqdnHash res) (MetadataPart1 res) true (TrustMethod res) (AllValid res)
    else res in
  let fqdnBig := gobytes.SetBytes domainHashBytes in
  if sig =? fqdnBig
  then MkVerificationResult true (MetadataPart1 res) (MetadataPart2 res) (TrustMethod res) (AllValid res)
  else res.

Definition VerifyAgainstProof (s : PTXSignals) (publicSignals : list string)
  : VerificationResult :=
  let signals := map (fun ps => fst (bigint.SetString ps 10)) publicSignals in
  let metaHash := sha256.Sum256 (gobytes.of_string (sig_MetadataRaw s)) in
  let '(metaP1, metaP2) := hashToBigInts metaHash in
  let domainHashBytes := sha256.Sum256 (gobytes.of_string (sig_Domain s)) in
  let trustMethodBig := sig_TrustMethod s in
  let res :=
    fold_left (scan_signal trustMethodBig metaP1 metaP2 domainHashBytes) signals
              (MkVerificationResult false false false false false) in
  MkVerificationResult (FqdnHash res) (MetadataPart1 res) (MetadataPart2 res)
    (TrustMethod res)
    (TrustMethod res && MetadataPart1 res && MetadataPart2 res).

Definition DeriveSignals (publicSignals : list string) : list Z :=
  map (fun ps => fst (bigint.SetString ps 10)) publicSignals.

End signals.

(** ** Package utils (pkg/utils): hostname derivation *)
Module utils.

Definition Sha256 (str : string) : string :=
  hexenc.EncodeToString (sha256.Sum256 (gobytes.of_string str)).

Definition alphabet : string := "abcdefghijklmnopqrstuvwxyz-".

Definition alphabet_at (i : Z) : ascii :=
  match String.get (Z.to_nat i) alphabet with
  | Some c => c
  | None => "a"%char
  end.

(** [for n.Cmp(zero) > 0 { n.DivMod(n, base, mod); result = append(...) }]
    The loop ends because [n] shrinks; [fuel] bounds its iterations. *)
Fixpoint base27_digits (fuel : nat) (n : Z) (result : list ascii) : list ascii :=
  match fuel with
  | O => result
  | S f =>
      if 0 <? n
      then base27_digits f (n / 27) (result ++ [alphabet_at (n mod 27)])
      else result
  end.

Definition Base27 (hexStr : string) : string :=
  let n := fst (bigint.SetString hexStr 16) in
  if n =? 0 then String (alphabet_at 0) EmptyString
  else
    let result := base27_digits (Z.to_nat (Z.log2 n) + 1) n [] in
    string_of_list_ascii (rev result).

Definition DeriveHostnameFromCommitment (commitmentStr domain : string)
  : outcome string :=
  let n := fst (bigint.SetString commitmentStr 10) in
  if (n =? 0) && negb (String.eqb commitmentStr "0") then
    Failed ("failed to parse commitment: " +:+ commitmentStr)
  else
    let beBytes := bigint.Bytes n in
    let bytes :=
      fold_left (fun bytes i =>
                   if (i <? 32)%nat
                   then <[i := nth (length beBytes - 1 - i) beBytes 0]> bytes
                   else bytes)
                (seq 0 (length beBytes)) (replicate 32 0) in
    let hashBytes := sha256.Sum256 bytes in
    let hashHex := hexenc.EncodeToString hashBytes in
    let encoded := Base27 hashHex in
    Done ("x" +:+ encoded +:+ "x." +:+ domain).

End utils.

(** ** Package nonce (pkg/nonce): the replay store *)
Module nonce.

(** The key-value server, as the client sees it: the keys it holds at the
    time of a call, each with the value and the time-to-live it was
    created with, and the commands issued so far.  The server ages its
    keys between calls: a theorem about a later call says which keys the
    store of the later world still holds. *)
Record Entry := MkEntry { value : string; ttl : Z }.

Inductive Command :=
| CmdSetNX (key value : string) (ttl : Z).

Record World := MkWorld {
  clock : Z;                      (* time.Now().Unix() *)
  reachable : bool;               (* does the server answer? *)
  store : gmap string Entry;
  issued : list Command
}.

Definition Second : Z := 1000000000.   (* time.Second, in nanoseconds *)

Definition KeepTTL : Z := -1.          (* redis.KeepTTL *)

(** [client.SetNX(ctx, key, value, ttl).Result()].  The client sends
    SETNX for a zero time-to-live, SET with KEEPTTL NX for [KeepTTL] and SET
    with PX or EX and NX otherwise; the server refuses a negative expiry
    with an error and sets nothing.  Otherwise the key is set only if it
    is absent, and the reply is true if it was set. *)
Definition SetNX (w : World) (key value : string) (ttl : Z)
  : World * (bool * option string) :=
  let log := issued w ++ [CmdSetNX key value ttl] in
  if reachable w then
    if (ttl <? 0) && negb (ttl =? KeepTTL) then
      (MkWorld (clock w) (reachable w) (store w) log,
       (false, Some "ERR invalid expire time in 'set' command"))
    else
      match store w !! key with
      | Some _ => (MkWorld (clock w) (reachable w) (store w) log, (false, None))
      | None =>
          (MkWorld (clock w) (reachable w) (<[key := MkEntry value ttl]> (store w)) log,
           (true, None))
      end
  else (MkWorld (clock w) (reachable w) (store w) log, (false, Some "redis: connection refused")).

Definition CheckAndSetNonce (w : World) (nonce : string) (expirationTimestamp : Z)
  : World * (bool * option string) :=
  let now := clock w in
  if expirationTimestamp <? now then (w, (false, None))
  else
    let ttl := gobytes.int64 (gobytes.int64 (expirationTimestamp - now) * Second) in
    match SetNX w nonce "1" ttl with
    | (w', (_, Some err)) => (w', (false, Some err))
    | (w', (isNew, None)) => (w', (isNew, None))
    end.

End nonce.

(** ** Package circuit (pkg/circuit): the SDV circuit's variables *)
Module circuit.

Record DoHCircuit := MkDoHCircuit {
  (* public inputs *)
  NullifierHash : Z;
  Commitment : Z;
  Fqdn : Z;
  MetadataHashP1 : Z;
  MetadataHashP2 : Z;
  TrustMethod : Z;
  (* private inputs *)
  Nullifier : Z;
  Secret : Z
}.

(** [frontend.NewWitness(&assignment, ecc.BN254.ScalarField())]: every
    assigned value becomes a field element, public ones first, in the
    order of the struct. *)
Definition NewWitness (a : DoHCircuit) : list Z :=
  map fr.SetBigInt
    [NullifierHash a; Commitment a; Fqdn a; MetadataHashP1 a; MetadataHashP2 a;
     TrustMethod a; Nullifier a; Secret a].

(** [witness.Public()] *)
Definition Public (witness : list Z) : list Z := take 6 witness.

End circuit.

(** ** Groth16 (gnark) and the legacy adapter (circom2gnark)

    The proof system, the key files and the legacy toolchain are external
    collaborators: a record of the operations the code calls. *)
Record Groth16 := MkGroth16 {
  g_ccs : Type;
  g_pk : Type;
  g_vk : Type;
  g_proof : Type;
  g_Compile : outcome g_ccs;                              (* frontend.Compile *)
  g_loadOrSetupKeys : g_ccs -> outcome (g_pk * g_vk);     (* prover's key cache *)
  g_loadCachedVK : g_ccs -> outcome g_vk;                 (* verifier's key cache *)
  g_Prove : g_ccs -> g_pk -> list Z -> outcome g_proof;   (* groth16.Prove *)
  g_WriteRawTo : g_proof -> list Z;
  g_ReadFrom : list Z -> outcome g_proof;
  g_Verify : g_proof -> g_vk -> list Z -> option string  (* groth16.Verify: the error *)
}.

Record Circom := MkCircom {
  c_proof : Type;
  c_vk : Type;
  c_gnark : Type;
  c_UnmarshalCircomProofJSON : list Z -> outcome c_proof;
  c_LoadCircomKey : string -> outcome c_vk;
  c_ConvertCircomToGnark : c_proof -> c_vk -> list string -> outcome c_gnark;
  c_VerifyProof : c_gnark -> outcome bool
}.

(** ** Package prover (pkg/prover) *)
Module prover.

Record CircuitInputs := MkCircuitInputs {
  NullifierHash : string;
  Commitment : string;
  Fqdn : string;
  MetadataHashP1 : string;
  MetadataHashP2 : string;
  TrustMethod : string;
  Nullifier : string;
  Secret : string
}.

(** The JSON object the native prover marshals as the proof envelope. *)
Record Envelope := MkEnvelope {
  Source : string;
  PublicSignals : list string;
  ProofHex : string
}.

Definition fromString (s : string) : Z := fst (bigint.SetString s 10).

(** The outcome and the lines printed on standard output. *)
Definition GenerateProofNative (g : Groth16) (inputs : CircuitInputs)
  : outcome Envelope * list string :=
  match g_Compile g with
  | Failed e => (Failed ("circuit compilation failed: " +:+ e), [])
  | Done ccs =>
  match g_loadOrSetupKeys g ccs with
  | Failed e => (Failed ("key setup failed: " +:+ e), [])
  | Done (pk, vk) =>
      let assignment :=
        circuit.MkDoHCircuit
          (fromString (NullifierHash inputs)) (fromString (Commitment inputs))
          (fromString (Fqdn inputs)) (fromString (MetadataHashP1 inputs))
          (fromString (MetadataHashP2 inputs)) (fromString (TrustMethod inputs))
          (fromString (Nullifier inputs)) (fromString (Secret inputs)) in
      let witness := circuit.NewWitness assignment in
      let publicWitness := circuit.Public witness in
      match g_Prove g ccs pk witness with
      | Failed e => (Failed ("proving failed: " +:+ e), [])
      | Done proof =>
          let proofBytes := g_WriteRawTo g proof in
          let publicSigs :=
            [NullifierHash inputs; Commitment inputs; Fqdn inputs;
             MetadataHashP1 inputs; MetadataHashP2 inputs; TrustMethod inputs] in
          let wrapper :=
            MkEnvelope "gnark_native" publicSigs (hexenc.EncodeToString proofBytes) in
          let out :=
            match g_Verify g proof vk publicWitness with
            | Some err =>
                ["WARNING: Generated proof failed self-verification! " +:+ err]
            | None => []
            end in
          (Done wrapper, out)
      end
  end
  end.

End prover.

(** ** Package dns (pkg/dns): TXT lookup over DoH *)
Module dns.

Record Answer := MkAnswer { Name : string; Type_ : Z; Data : string }.
Record DoHResponse := MkDoHResponse { Status : Z; Answers : list Answer }.

(** What came back from the HTTPS GET: the status code and the decoded
    JSON body (or the decoder's error). *)
Record HttpReply := MkHttpReply { StatusCode : Z; Body : outcome DoHResponse }.

Definition quote : ascii := ascii_of_nat 34.

Fixpoint drop_quotes (l : list ascii) : list ascii :=
  match l with
  | c :: r => if Ascii.eqb c quote then drop_quotes r else l
  | [] => []
  end.

(** [strings.Trim] with the double quote as its cutset. *)
Definition trim_quotes (s : string) : string :=
  string_of_list_ascii
    (rev (drop_quotes (rev (drop_quotes (list_ascii_of_string s))))).

Definition GetTXT (http_get : string -> outcome HttpReply) (hostname : string)
  : outcome (list string) :=
  resp ← http_get hostname;
  if negb (StatusCode resp =? 200) then
    Failed ("DoH request failed with status code: " +:+ bigint.itoa (StatusCode resp))
  else
    dohResp ← Body resp;
    if negb (Status dohResp =? 0) then Done []
    else
      Done (map (fun ans => trim_quotes (Data ans))
              (filter (fun ans => Type_ ans = 16) (Answers dohResp))).

End dns.

(** [strings.Contains] *)
Fixpoint Contains (s substr : string) : bool :=
  if String.prefix substr s then true
  else match s with
       | EmptyString => false
       | String _ r => Contains r substr
       end.

(** ** The PTX record (package ptx, generated from the protobuf schema) *)
Module ptx.

Inductive ProofSystem :=
| ProofSystem_GROTH16
| ProofSystem_other (n : Z).

Record ZkProof := MkZkProof {
  ProofSystem_of : ProofSystem;
  VerificationKeyId : string;
  ProofData : list Z
}.

Record PtxFile := MkPtxFile {
  TrustMethod : Z;
  SignedMetadata : string;
  Proof : option ZkProof;
  DohDetails : option string      (* the DoH anchor's domain_name *)
}.

End ptx.

(** ** Package ptxloader *)
Module ptxloader.

Definition MagicHeader : list Z := [0x50; 0x54; 0x58; 0x01].

Definition LoadPTX (ReadFile : string -> outcome (list Z))
    (Unmarshal : list Z -> outcome ptx.PtxFile) (filePath : string)
  : result ptx.PtxFile :=
  match ReadFile filePath with
  | Failed e => Err e
  | Done data =>
  if (length data <? 4)%nat || negb (bool_decide (take 4 data = MagicHeader)) then
    Err "invalid PTX magic header"
  else if (length data <? 5)%nat then Panic      (* data[5:] *)
  else
    match Unmarshal (drop 5 data) with
    | Done ptxFile => Ok ptxFile
    | Failed e => Err ("failed to parse PTX protobuf: " +:+ e)
    end
  end.

End ptxloader.

(** ** Decoded JSON ([interface{}] values of encoding/json) *)
#[local] Unset Elimination Schemes.
Inductive JSON :=
| JNull
| JBool (b : bool)
| JNumber (truncated : Z)   (* a float64; the code only reads [int64(x)], kept here *)
| JString (s : string)
| JArray (items : list JSON)
| JObject (fields : list (string * JSON)).
#[local] Set Elimination Schemes.

(** ** Package verifier (pkg/verifier): the verification engine *)
Module verifier.

Record VerificationOptions := MkVerificationOptions {
  FilePath : string;
  IntendedScope : list string;
  IntendedAudience : list string;
  StrictMode : bool;
  RedisURL : string;
  Verbose : bool
}.

(** The wall-clock fields ([FetchTimeMs], [ProofTimeMs]) are left out. *)
Record DnsResult := MkDnsResult {
  dns_Valid : bool;
  dns_Error : string;
  DerivedHostname : string
}.

Record ZkResult := MkZkResult {
  zk_Valid : bool;
  zk_Skipped : bool;
  zk_Semantic : bool;
  zk_Error : string
}.

Record VerificationDetails := MkVerificationDetails {
  d_Fqdn : string;
  d_FqdnHash : string;
  d_MetadataJSON : string;
  d_MetadataHashP1 : string;
  d_MetadataHashP2 : string;
  d_TrustMethod : string;
  d_NullifierHash : string;
  d_Commitment : string
}.

Record VerificationResult := MkVerificationResult {
  Success : bool;
  Errors : list string;
  Dns : DnsResult;
  Zk : ZkResult;
  Details : VerificationDetails
}.

(** The proof envelope, as [json.Unmarshal] fills the wrapper struct. *)
Record Wrapper := MkWrapper {
  Source : string;
  PublicSignals : list string;
  Proof : list Z;
  ProofHex : string
}.

(** What the engine reaches outside the process. *)
Record Env := MkEnv {
  ReadFile : string -> outcome (list Z);
  proto_Unmarshal : list Z -> outcome ptx.PtxFile;
  json_object : string -> option (gmap string JSON);
  json_signals : list Z -> option (list string);
  json_wrapper : list Z -> option Wrapper;
  redis_ParseURL : string -> option string;          (* the error, if any *)
  http_get : string -> outcome dns.HttpReply;
  groth16 : Groth16;
  circom : Circom
}.

Definition no_dns : DnsResult := MkDnsResult false "" "".
Definition no_zk : ZkResult := MkZkResult false false false "".
Definition no_details : VerificationDetails :=
  MkVerificationDetails "" "" "" "" "" "" "" "".
Definition zk_error (msg : string) : ZkResult := MkZkResult false false false msg.

Definition fromStringV (s : string) : Z := fst (bigint.SetString s 10).

Definition verifyDNS (env : Env) (ptxFile : ptx.PtxFile) : DnsResult :=
  match ptx.DohDetails ptxFile with
  | None => MkDnsResult false "No DoH details found" ""
  | Some domainName =>
  match ptx.Proof ptxFile with
  | None => MkDnsResult false "No proof found for commitment extraction" ""
  | Some com =>
  match json_signals env (ptx.ProofData com) with
  | None => MkDnsResult false "Failed to parse proof public signals" ""
  | Some pd =>
  match pd with
  | _ :: commitment :: _ =>
      match utils.DeriveHostnameFromCommitment commitment domainName with
      | Failed e => MkDnsResult false ("Hostname derivation failed: " +:+ e) ""
      | Done hostname =>
          let expected := utils.Sha256 (ptx.SignedMetadata ptxFile) in
          match dns.GetTXT (http_get env) hostname with
          | Failed e => MkDnsResult false ("DNS Lookup failed: " +:+ e) hostname
          | Done txt =>
              if existsb (fun record => Contains record expected) txt
              then MkDnsResult true "" hostname
              else MkDnsResult false
                     ("No matching TXT record found (Expected: " +:+ expected +:+ ")")
                     hostname
          end
      end
  | _ => MkDnsResult false "Insufficient public signals for commitment extraction" ""
  end end end end.

Definition verifyCircomProof (c : Circom) (proofJSON : list Z)
    (publicSignals : list string) : ZkResult :=
  match c_UnmarshalCircomProofJSON c proofJSON with
  | Failed e => zk_error ("Invalid inner proof JSON: " +:+ e)
  | Done circomProof =>
  match c_LoadCircomKey c "verification_key.json" with
  | Failed e => zk_error ("Failed to load VK: " +:+ e)
  | Done circomVk =>
  match c_ConvertCircomToGnark c circomProof circomVk publicSignals with
  | Failed e => zk_error ("Circom to Gnark conversion failed: " +:+ e)
  | Done gnarkProof =>
  match c_VerifyProof c gnarkProof with
  | Failed e => zk_error ("Verification failed: " +:+ e)
  | Done false => zk_error "Verification returned false"
  | Done true => MkZkResult true false true ""
  end end end end.

Definition verifyNativeGnarkProof (g : Groth16) (proofHex : string)
    (proofSignals : list string) (domain metaRaw : string) (trustMethod : Z)
  : ZkResult :=
  match hexenc.DecodeString proofHex with
  | None => zk_error "Failed to decode proof hex: encoding/hex: invalid input"
  | Some proofBytes =>
  match g_Compile g with
  | Failed e => zk_error ("Circuit compilation failed: " +:+ e)
  | Done ccs =>
  match g_loadCachedVK g ccs with
  | Failed e => zk_error ("Failed to load VK: " +:+ e)
  | Done gnarkVK =>
  match g_ReadFrom g proofBytes with
  | Failed e => zk_error ("Failed to deserialize proof: " +:+ e)
  | Done proof =>
  match proofSignals with
  | nullifierHash :: commitment :: _ =>
      let fqdnHash := crypto.PoseidonHashString domain in
      let '(metaP1, metaP2) := crypto.SplitMetadataHash metaRaw in
      let assignment :=
        circuit.MkDoHCircuit (fromStringV nullifierHash) (fromStringV commitment)
          fqdnHash metaP1 metaP2 trustMethod 0 0 in
      let witness := circuit.NewWitness assignment in
      let publicWitness := circuit.Public witness in
      match g_Verify g proof gnarkVK publicWitness with
      | Some e => zk_error ("Native Gnark verification failed: " +:+ e)
      | None => MkZkResult true false true ""
      end
  | _ =>
      zk_error "Insufficient public signals in proof (need nullifierHash and commitment)"
  end end end end end.

Definition verifyProof (env : Env) (ptxFile : ptx.PtxFile) (metaRaw : string)
  : ZkResult :=
  match ptx.Proof ptxFile with
  | None => zk_error "No proof present"
  | Some proof =>
      match ptx.ProofSystem_of proof with
      | ptx.ProofSystem_other _ =>
          MkZkResult false true false "Unsupported Proof System (only Groth16 supported)"
      | ptx.ProofSystem_GROTH16 =>
          match json_wrapper env (ptx.ProofData proof) with
          | None => zk_error "Invalid proof wrapper JSON"
          | Some wrapper =>
              let domain := default "" (ptx.DohDetails ptxFile) in
              let sig := signals.NewPTXSignals domain metaRaw (ptx.TrustMethod ptxFile) in
              let semVerify := signals.VerifyAgainstProof sig (PublicSignals wrapper) in
              if negb (signals.AllValid semVerify) then
                zk_error "Semantic verification failed"
              else if String.eqb (Source wrapper) "gnark_native" then
                verifyNativeGnarkProof (groth16 env) (ProofHex wrapper)
                  (PublicSignals wrapper) domain metaRaw (ptx.TrustMethod ptxFile)
              else
                verifyCircomProof (circom env) (Proof wrapper) (PublicSignals wrapper)
          end
      end
  end.

(** The scope loop: [s.(string)] panics on an entry that is no string. *)
Fixpoint scope_scan (scopes : list JSON) (intended : list string) (found : bool)
  : result bool :=
  match scopes with
  | [] => Ok found
  | JString s :: r => scope_scan r intended (found || existsb (String.eqb s) intended)
  | _ :: _ => Panic
  end.

Definition is_Some_b {A} (o : option A) : bool :=
  match o with Some _ => true | None => false end.

Definition fail (msg : string) (res : bool * list string) : bool * list string :=
  (false, snd res ++ [msg]).

Definition check_expiration (now : Z) (meta : gmap string JSON)
    (res : bool * list string) : bool * list string :=
  match meta !! "expiration_timestamp" with
  | Some (JNumber exp) => if now >? exp then fail "PTX token expired" res else res
  | _ => res
  end.

Definition check_scope (opts : VerificationOptions) (meta : gmap string JSON)
    (res : bool * list string) : result (bool * list string) :=
  match IntendedScope opts with
  | [] => Ok res
  | _ :: _ =>
      match meta !! "scopes" with
      | Some (JArray scopes) =>
          match scope_scan scopes (IntendedScope opts) false with
          | Ok true => Ok res
          | Ok false => Ok (fail "Scope mismatch" res)
          | Err e => Err e
          | Panic => Panic
          end
      | _ => Ok res
      end
  end.

Definition check_audience (opts : VerificationOptions) (meta : gmap string JSON)
    (res : bool * list string) : bool * list string :=
  match IntendedAudience opts with
  | [] => res
  | _ :: _ =>
      match meta !! "audience" with
      | Some (JString aud) =>
          if existsb (String.eqb aud) (IntendedAudience opts) then res
          else fail "Audience mismatch" res
      | _ => res
      end
  end.

(** The nonce check; [inl] is the early return on a store that cannot be
    set up. *)
Definition check_nonce (env : Env) (opts : VerificationOptions)
    (meta : gmap string JSON) (w : nonce.World) (res : bool * list string)
  : nonce.World * ((bool * list string) + (bool * list string)) :=
  if negb (String.eqb (RedisURL opts) "") then
    match meta !! "nonce" with
    | Some (JString nonceVal) =>
        match redis_ParseURL env (RedisURL opts) with
        | Some err => (w, inl (fail ("Failed to connect to nonce store: " +:+ err) res))
        | None =>
            let exp :=
              match meta !! "expiration_timestamp" with
              | Some (JNumber e) => e
              | _ => 300
              end in
            match nonce.CheckAndSetNonce w nonceVal exp with
            | (w', (valid, err)) =>
                if is_Some_b err || negb valid
                then (w', inr (fail "Nonce invalid or replayed" res))
                else (w', inr res)
            end
        end
    | _ => (w, inr res)
    end
  else (w, inr res).

Definition details (env : Env) (ptxFile : ptx.PtxFile) (metaRaw : string)
  : VerificationDetails :=
  let '(nullifierHash, commitment) :=
    match ptx.Proof ptxFile with
    | Some proof =>
        match json_signals env (ptx.ProofData proof) with
        | Some (n :: c :: _) => (n, c)
        | _ => ("", "")
        end
    | None => ("", "")
    end in
  let domain := default "" (ptx.DohDetails ptxFile) in
  let fqdnHash := crypto.PoseidonHashString domain in
  let '(metaP1, metaP2) := crypto.SplitMetadataHash metaRaw in
  MkVerificationDetails domain (fr.String fqdnHash) metaRaw (fr.String metaP1)
    (fr.String metaP2) (bigint.itoa (ptx.TrustMethod ptxFile)) nullifierHash commitment.

Definition Verify (env : Env) (opts : VerificationOptions) (w : nonce.World)
  : nonce.World * result VerificationResult :=
  match ptxloader.LoadPTX (ReadFile env) (proto_Unmarshal env) (FilePath opts) with
  | Err e => (w, Err ("failed to load PTX file: " +:+ e))
  | Panic => (w, Panic)
  | Ok ptxFile =>
      let metaRaw := ptx.SignedMetadata ptxFile in
      match json_object env metaRaw with
      | None =>
          (w, Ok (MkVerificationResult false ["Invalid metadata JSON"]
                    no_dns no_zk no_details))
      | Some meta =>
          let res := check_expiration (nonce.clock w) meta (true, []) in
          match check_scope opts meta res with
          | Panic => (w, Panic)
          | Err e => (w, Err e)
          | Ok res =>
              let res := check_audience opts meta res in
              match check_nonce env opts meta w res with
              | (w, inl res) =>
                  (w, Ok (MkVerificationResult (fst res) (snd res) no_dns no_zk no_details))
              | (w, inr res) =>
                  let dnsRes := verifyDNS env ptxFile in
                  let res := if dns_Valid dnsRes then res else (false, snd res) in
                  let zkRes := verifyProof env ptxFile metaRaw in
                  let res :=
                    if negb (zk_Valid zkRes) && negb (zk_Skipped zkRes)
                    then fail ("ZK proof invalid: " +:+ zk_Error zkRes) res
                    else res in
                  (w, Ok (MkVerificationResult (fst res) (snd res) dnsRes zkRes
                            (details env ptxFile metaRaw)))
              end
          end
      end
  end.

(** The same options with no replay store configured. *)
Definition without_store (opts : VerificationOptions) : VerificationOptions :=
  MkVerificationOptions (FilePath opts) (IntendedScope opts) (IntendedAudience opts)
    (StrictMode opts) "" (Verbose opts).

(** [n] verifications in a row, each starting in the world the previous
    one left. *)
Fixpoint Verify_times (env : Env) (opts : VerificationOptions) (n : nat)
    (w : nonce.World) : nonce.World * list (result VerificationResult) :=
  match n with
  | O => (w, [])
  | S n' =>
      let '(w1, r) := Verify env opts w in
      let '(w2, rs) := Verify_times env opts n' w1 in
      (w2, r :: rs)
  end.

End verifier.

(** ** The Poseidon permutation as the specification words it

    Written from the specification's algorithm (section 4.2), on field
    elements and total table functions; it is compared with
    [crypto.PoseidonHash] below. *)
Module PoseidonSpec.

Record Params := MkParams {
  t : nat;                 (* state width *)
  R_F : nat;               (* full rounds *)
  R_P : nat;               (* partial rounds *)
  Cc : nat -> Z;           (* round constants C[i] *)
  Mm : nat -> nat -> Z;    (* MDS matrix M[j][i] *)
  Pm : nat -> nat -> Z;    (* pre-sparse matrix P[j][i] *)
  Ss : nat -> Z            (* flattened sparse matrices S[i] *)
}.

Definition p : Z := fr.Modulus.

(** [Σ_{i < n} f i] *)
Definition sum (n : nat) (f : nat -> Z) : Z :=
  fold_right Z.add 0 (map f (seq 0 n)).

Definition at_ (state : list Z) (i : nat) : Z := nth i state 0.

(** state[i] ← state[i]⁵ for each i *)
Definition sbox (state : list Z) : list Z := map (fun x => x ^ 5 mod p) state.

(** add C[off .. off + t] to state *)
Definition add_constants (pp : Params) (off : nat) (state : list Z) : list Z :=
  imap (fun i x => (x + Cc pp (off + i)) mod p) state.

(** state ← A · state, column-major: result[i] = Σⱼ state[j]·A[j][i] *)
Definition mat_mul (pp : Params) (A : nat -> nat -> Z) (state : list Z) : list Z :=
  map (fun i => sum (t pp) (fun j => at_ state j * A j i) mod p) (seq 0 (t pp)).

(** SparseMix(r), with offset o = (2t−1)·r *)
Definition sparse_mix (pp : Params) (r : nat) (state : list Z) : list Z :=
  let o := ((2 * t pp - 1) * r)%nat in
  sum (t pp) (fun i => at_ state i * Ss pp (o + i)) mod p
  :: map (fun i => (at_ state i + at_ state 0 * Ss pp (o + t pp + i - 1)) mod p)
         (seq 1 (t pp - 1)).

(** for r = 0 .. n − 1: state ← step r state *)
Definition rounds (n : nat) (step : nat -> list Z -> list Z) (state : list Z)
  : list Z :=
  fold_left (fun st r => step r st) (seq 0 n) state.

Definition Hash (pp : Params) (inputs : list Z) : Z :=
  let half := (R_F pp / 2)%nat in
  let state := 0 :: inputs in
  (* 1. Ark₀ *)
  let state := add_constants pp 0 state in
  (* 2. first half-full rounds *)
  let state :=
    rounds (half - 1) (fun r st =>
      mat_mul pp (Mm pp) (add_constants pp ((r + 1) * t pp) (sbox st))) state in
  (* 3. middle full round *)
  let state := mat_mul pp (Pm pp) (add_constants pp (half * t pp) (sbox state)) in
  (* 4. partial rounds *)
  let state :=
    rounds (R_P pp) (fun r st =>
      let s0 := (at_ st 0 ^ 5 mod p + Cc pp ((half + 1) * t pp + r)) mod p in
      sparse_mix pp r (<[0%nat := s0]> st)) state in
  (* 5. second half-full rounds *)
  let state :=
    rounds (half - 1) (fun r st =>
      mat_mul pp (Mm pp)
        (add_constants pp ((half + 1) * t pp + R_P pp + r * t pp) (sbox st))) state in
  (* 6. final full round *)
  let state := mat_mul pp (Mm pp) (sbox state) in
  (* 7. *)
  at_ state 0.

(** PoseidonParams(t): R_F = 8, and R_P is entry t − 2 of the table of
    partial-round counts. *)
Definition full_rounds : nat := 8.

Definition partial_rounds : list nat :=
  [56; 57; 56; 60; 60; 63; 64; 63; 60; 66; 60; 65; 70; 60; 64; 68]%nat.

Definition R_P_of (width : nat) : nat := nth (width - 2) partial_rounds 0%nat.

(** The place of a character in a string of digits, counted from [i]. *)
Fixpoint place (c : ascii) (digits : string) (i : Z) : option Z :=
  match digits with
  | EmptyString => None
  | String d r => if Ascii.eqb c d then Some i else place c r (i + 1)
  end.

(** A hexadecimal digit is worth its place among 0 .. 9, a .. f, the
    letters in either case. *)
Definition hex_digit (c : ascii) : option Z :=
  match place c "0123456789abcdef" 0 with
  | Some d => Some d
  | None => place c "ABCDEF" 10
  end.

Fixpoint hex_digits (s : string) (acc : Z) : option Z :=
  match s with
  | EmptyString => Some acc
  | String c r =>
      match hex_digit c with
      | Some d => hex_digits r (acc * 16 + d)
      | None => None
      end
  end.

(** The constants are hex strings: [0x] and at least one hexadecimal
    digit, denoting a non-negative integer, reduced modulo p. *)
Definition constant (s : string) : option Z :=
  match s with
  | String a (String b (String c r)) =>
      if Ascii.eqb a "0" && Ascii.eqb b "x" then
        match hex_digits (String c r) 0 with
        | Some v => Some (v mod p)
        | None => None
        end
      else None
  | _ => None
  end.

(** C[i], and M[j][i], of a table of hex strings (0 where there is none). *)
Definition vector (l : list string) (i : nat) : Z :=
  match l !! i with
  | Some e => default 0 (constant e)
  | None => 0
  end.

Definition matrix (m : list (list string)) (j i : nat) : Z :=
  match m !! j with
  | Some row => vector row i
  | None => 0
  end.

Definition PoseidonParams (width : nat) (tb : Tables) : Params :=
  MkParams width full_rounds (R_P_of width)
    (vector (tab_C tb)) (matrix (tab_M tb)) (matrix (tab_P tb)) (vector (tab_S tb)).

(** The tables have the sizes PoseidonParams(t) gives them: C of length
    R_F·t + R_P, M and P of t rows of t entries, S of length (2t−1)·R_P,
    every entry a hex string. *)
Definition is_constant (e : string) : bool :=
  match constant e with Some _ => true | None => false end.

Definition square (width : nat) (m : list (list string)) : bool :=
  (length m =? width)%nat
  && forallb (fun row => (length row =? width)%nat && forallb is_constant row) m.

Definition well_formed (width : nat) (tb : Tables) : bool :=
  (length (tab_C tb) =? full_rounds * width + R_P_of width)%nat
  && forallb is_constant (tab_C tb)
  && square width (tab_M tb)
  && square width (tab_P tb)
  && (length (tab_S tb) =? (2 * width - 1) * R_P_of width)%nat
  && forallb is_constant (tab_S tb).

Definition tables_ok (k : Constants) : bool :=
  well_formed 2 (width2 k) && well_formed 4 (width4 k) && well_formed 5 (width5 k).

End PoseidonSpec.

(** ** The tables as the code reads them *)

(** The field element [getFr] makes of a table entry (0 where there is
    none). *)
Definition table_entry (l : list string) (i : nat) : Z :=
  match l !! i with
  | Some e => match crypto.getFr e with Ok v => v | _ => 0 end
  | None => 0
  end.

Definition table_entry2 (m : list (list string)) (j i : nat) : Z :=
  match m !! j with
  | Some row => table_entry row i
  | None => 0
  end.

(** The round counts and constants [PoseidonHash] works with. *)
Definition code_params (width : nat) (tb : Tables) : PoseidonSpec.Params :=
  PoseidonSpec.MkParams width 8 (nth (width - 2) crypto.nRoundsP 0%nat)
    (table_entry (tab_C tb)) (table_entry2 (tab_M tb)) (table_entry2 (tab_P tb))
    (table_entry (tab_S tb)).

(** ** Well-formed constant tables

    Section 3 of the specification: C has R_F·t + R_P entries, M and P
    are t×t, S has (2t−1)·R_P entries; every entry is a [0x] literal. *)
Definition prefixed (s : string) : bool :=
  match s with
  | String _ (String _ _) => true
  | _ => false
  end.

Definition wf_tables (t : nat) (tb : Tables) : bool :=
  let rp := nth (t - 2) crypto.nRoundsP 0%nat in
  (8 * t + rp <=? length (tab_C tb))%nat
  && forallb prefixed (tab_C tb)
  && (t <=? length (tab_M tb))%nat
  && forallb (fun row => (t <=? length row)%nat && forallb prefixed row) (tab_M tb)
  && (t <=? length (tab_P tb))%nat
  && forallb (fun row => (t <=? length row)%nat && forallb prefixed row) (tab_P tb)
  && ((2 * t - 1) * rp <=? length (tab_S tb))%nat
  && forallb prefixed (tab_S tb).

Definition wf_constants (k : Constants) : bool :=
  wf_tables 2 (width2 k) && wf_tables 4 (width4 k) && wf_tables 5 (width5 k).

(** ** Sample data for the examples *)
Module sample.

(** Small tables of the right shape (not the circomlib constants). *)
Definition lit (i : nat) : string :=
  "0x" +:+ hexenc.EncodeToString [Z.of_nat (i * 37 + 11) mod 256; Z.of_nat (i * 101 + 7) mod 256].

Definition tables (t : nat) : Tables :=
  let rp := nth (t - 2) crypto.nRoundsP 0%nat in
  MkTables (map lit (seq 0 (8 * t + rp)))
           (map (fun j => map (fun i => lit (3 * j + 5 * i + 1)) (seq 0 t)) (seq 0 t))
           (map (fun j => map (fun i => lit (7 * j + 2 * i + 4)) (seq 0 t)) (seq 0 t))
           (map (fun i => lit (i + 9)) (seq 0 ((2 * t - 1) * rp))).

Definition constants : Constants := MkConstants (tables 2) (tables 4) (tables 5).

(** A stand-in proof system: a key is a number, a proof remembers the
    proving key that made it, and verification compares that with the
    verifying key (whatever the public witness).  [toy_groth16 k k] has a
    matching key pair; different numbers model a corrupted pair of key
    files. *)
Definition toy_groth16 (pk vk : Z) : Groth16 :=
  MkGroth16 unit Z Z Z
    (Done tt)
    (fun _ => Done (pk, vk))
    (fun _ => Done vk)
    (fun _ k _ => Done k)
    (fun proof => [proof mod 256])
    (fun bytes => Done (gobytes.SetBytes bytes))
    (fun proof v _ => if proof =? v then None else Some "pairing check failed").

Definition toy_circom : Circom :=
  MkCircom unit unit unit
    (fun _ => Failed "unexpected end of JSON input")
    (fun _ => Failed "open verification_key.json: no such file or directory")
    (fun _ _ _ => Done tt)
    (fun _ => Done false).

(** The payload (example.com, [{}], trust method 1) and its signals. *)
Definition publicSignals : list string :=
  ["7"; "12345";
   "8277206545569842057707884633509656177369667059718086191927155364480322246980";
   "198030627578155901778469647491871211402";
   "90488421641866048750073685292303803550";
   "1"].

Definition inputs : prover.CircuitInputs :=
  prover.MkCircuitInputs "7" "12345"
    "8277206545569842057707884633509656177369667059718086191927155364480322246980"
    "198030627578155901778469647491871211402"
    "90488421641866048750073685292303803550"
    "1" "1" "2".

Definition assignment : circuit.DoHCircuit :=
  circuit.MkDoHCircuit
    (prover.fromString (prover.NullifierHash inputs))
    (prover.fromString (prover.Commitment inputs))
    (prover.fromString (prover.Fqdn inputs))
    (prover.fromString (prover.MetadataHashP1 inputs))
    (prover.fromString (prover.MetadataHashP2 inputs))
    (prover.fromString (prover.TrustMethod inputs))
    (prover.fromString (prover.Nullifier inputs))
    (prover.fromString (prover.Secret inputs)).

Definition ptxFile : ptx.PtxFile :=
  ptx.MkPtxFile 1 "{}"
    (Some (ptx.MkZkProof ptx.ProofSystem_GROTH16 "sdv_poseidon_v1" [123; 125]))
    (Some "example.com").

(** A world in which the token above verifies: the file decodes to it,
    the TXT record of the derived hostname carries the digest of the
    metadata, and the key pair matches. *)
Definition env : verifier.Env :=
  verifier.MkEnv
    (fun _ => Done (ptxloader.MagicHeader ++ [0; 8; 1]))
    (fun _ => Done ptxFile)
    (fun s => if String.eqb s "{}" then Some ∅ else None)
    (fun _ => Some publicSignals)
    (fun _ => Some (verifier.MkWrapper "gnark_native" publicSignals [] "01"))
    (fun _ => None)
    (fun hostname =>
       Done (dns.MkHttpReply 200
               (Done (dns.MkDoHResponse 0
                        [dns.MkAnswer hostname 16
                           (String dns.quote (utils.Sha256 "{}" +:+ String dns.quote ""))]))))
    (toy_groth16 1 1)
    toy_circom.

Definition options : verifier.VerificationOptions :=
  verifier.MkVerificationOptions "token.ptx" [] [] false "redis://localhost:6379/0" false.

Definition world : nonce.World := nonce.MkWorld 1700000000 true ∅ [].

End sample.

(** ** Package crypto, the rest: random scalars, hostnames of field elements *)
Module crypto_rest.

(** [rand_Read n] stands for [rand.Read] on a buffer of [n] bytes. *)
Definition GenerateSecureRandomBigInt (rand_Read : nat -> outcome (list Z)) : outcome Z :=
  match rand_Read 31%nat with
  | Failed e => Failed e
  | Done b => Done (gobytes.SetBytes b)
  end.

(** [commitment.Bytes()]: the 32 bytes of a field element, big-endian. *)
Definition fr_Bytes (v : Z) : list Z := gobytes.be_bytes 32 v.

(** The same loop as in package utils, on the integer itself. *)
Definition Base27 (n : Z) : string :=
  if n =? 0 then String (utils.alphabet_at 0) EmptyString
  else
    let result := utils.base27_digits (Z.to_nat (Z.log2 n) + 1) n [] in
    string_of_list_ascii (rev result).

Definition DeriveHostnameFromCommitment (commitment : Z) (domain : string)
  : outcome string :=
  let bytes := fr_Bytes commitment in
  let leBytes :=
    fold_left (fun le i => <[i := nth (31 - i) bytes 0]> le) (seq 0 32) (replicate 32 0) in
  let hashBytes := sha256.Sum256 leBytes in
  let n := gobytes.SetBytes hashBytes in
  let encoded := Base27 n in
  Done ("x" +:+ encoded +:+ "x").

End crypto_rest.

(** ** Package circuit, the rest: the constraints of the SDV circuit *)
Module sdv.

Record DoHCircuit (V : Type) := MkDoHCircuit {
  NullifierHash : V;
  Commitment : V;
  Fqdn : V;
  MetadataHashP1 : V;
  MetadataHashP2 : V;
  TrustMethod : V;
  Nullifier : V;
  Secret : V
}.
Arguments MkDoHCircuit {V}.
Arguments NullifierHash {V}.
Arguments Commitment {V}.
Arguments Fqdn {V}.
Arguments MetadataHashP1 {V}.
Arguments MetadataHashP2 {V}.
Arguments TrustMethod {V}.
Arguments Nullifier {V}.
Arguments Secret {V}.

(** [Define]: the error it returns, or the pairs it hands to
    [api.AssertIsEqual], in order. *)
Definition Define {V : Type} `{poseidon.API V} (k : Constants) (c : DoHCircuit V)
  : result (list (V * V)) :=
  contextHash ← poseidon.Hash4 k (Fqdn c) (MetadataHashP1 c) (MetadataHashP2 c)
                  (TrustMethod c);
  calcNullifierHash ← poseidon.Hash1 k (Nullifier c);
  calcCommitment ← poseidon.Hash3 k (Nullifier c) (Secret c) contextHash;
  Ok [(NullifierHash c, calcNullifierHash); (Commitment c, calcCommitment)].

(** The variables of the compiled circuit, numbered as
    [circuit.NewWitness] lays the witness out. *)
Definition variables : DoHCircuit poseidon.wire :=
  MkDoHCircuit (poseidon.Input 0) (poseidon.Input 1) (poseidon.Input 2)
    (poseidon.Input 3) (poseidon.Input 4) (poseidon.Input 5) (poseidon.Input 6)
    (poseidon.Input 7).

(** The two sides of an asserted pair on a witness. *)
Definition eval_pair (w : list Z) (ab : poseidon.wire * poseidon.wire) : Z * Z :=
  (poseidon.eval w (fst ab), poseidon.eval w (snd ab)).

(** A witness satisfies the circuit: [Define] compiles and both sides of
    every asserted pair evaluate to the same field element. *)
Definition satisfied (k : Constants) (w : list Z) : Prop :=
  exists pairs,
    Define k variables = Ok pairs
    /\ Forall (fun ab => poseidon.eval w (fst ab) = poseidon.eval w (snd ab)) pairs.

End sdv.

(** ** Package prover, the rest: circuit inputs and the PTX container *)
Module prover_rest.

(** [json_Marshal] stands for [json.Marshal] on the metadata map (its
    bytes as a string); [fr_SetString] for [fr.Element.SetString], whose
    result the code drops: the value the receiver holds afterwards, or
    [None] where the library panics. *)
Definition GenerateCircuitInputs (k : Constants)
    (json_Marshal : gmap string JSON -> outcome string)
    (fr_SetString : string -> option Z)
    (domain : string) (metadata : gmap string JSON) (nullifier secret : string)
    (trustMethod : Z) : result prover.CircuitInputs :=
  match json_Marshal metadata with
  | Failed e => Err ("failed to marshal metadata: " +:+ e)
  | Done metaBytes =>
      let metaHex := crypto.Sha256Hex (gobytes.of_string metaBytes) in
      let '(p1, p2) := crypto.SplitHashToFieldElements metaHex in
      let domainHashBytes := crypto.Sha256 (gobytes.of_string domain) in
      let fqdnFr := fr.SetBigInt (gobytes.SetBytes domainHashBytes) in
      let tmFr := fr.SetInt64 trustMethod in
      match crypto.CircuitHash k [fqdnFr; p1; p2; tmFr] with
      | Err e => Err ("failed to compute context hash: " +:+ e)
      | Panic => Panic
      | Ok contextHash =>
          match fr_SetString nullifier, fr_SetString secret with
          | Some nullifierFr, Some secretFr =>
              match crypto.CircuitHash k [nullifierFr; secretFr; contextHash] with
              | Err e => Err ("failed to compute commitment: " +:+ e)
              | Panic => Panic
              | Ok commitment =>
                  match crypto.CircuitHash k [nullifierFr] with
                  | Err e => Err ("failed to compute nullifier hash: " +:+ e)
                  | Panic => Panic
                  | Ok nullifierHash =>
                      Ok (prover.MkCircuitInputs
                            (fr.String nullifierHash) (fr.String commitment)
                            (fr.String fqdnFr) (fr.String p1) (fr.String p2)
                            (bigint.itoa trustMethod) nullifier secret)
                  end
              end
          | _, _ => Panic
          end
      end
  end.

(** The assignment [GenerateProofNative] builds from the inputs. *)
Definition assignment_of (inputs : prover.CircuitInputs) : circuit.DoHCircuit :=
  circuit.MkDoHCircuit
    (prover.fromString (prover.NullifierHash inputs))
    (prover.fromString (prover.Commitment inputs))
    (prover.fromString (prover.Fqdn inputs))
    (prover.fromString (prover.MetadataHashP1 inputs))
    (prover.fromString (prover.MetadataHashP2 inputs))
    (prover.fromString (prover.TrustMethod inputs))
    (prover.fromString (prover.Nullifier inputs))
    (prover.fromString (prover.Secret inputs)).

(** The public signals [GenerateProofNative] puts into the envelope. *)
Definition public_signals (inputs : prover.CircuitInputs) : list string :=
  [prover.NullifierHash inputs; prover.Commitment inputs; prover.Fqdn inputs;
   prover.MetadataHashP1 inputs; prover.MetadataHashP2 inputs;
   prover.TrustMethod inputs].

(** [proto_Marshal] stands for [proto.Marshal]; the trust method is
    converted from [int] to the int32 enum. *)
Definition CreatePtxFile (json_Marshal : gmap string JSON -> outcome string)
    (proto_Marshal : ptx.PtxFile -> outcome (list Z))
    (proofJSON : list Z) (metadata : gmap string JSON) (domain : string)
    (trustMethod : Z) : outcome (list Z) :=
  match json_Marshal metadata with
  | Failed e => Failed ("failed to marshal metadata: " +:+ e)
  | Done metaBytes =>
      let proof := ptx.MkZkProof ptx.ProofSystem_GROTH16 "sdv_poseidon_v1" proofJSON in
      let ptxFile :=
        ptx.MkPtxFile (gobytes.wrap 32 trustMethod) metaBytes (Some proof) (Some domain) in
      match proto_Marshal ptxFile with
      | Failed e => Failed ("failed to marshal PTX proto: " +:+ e)
      | Done serialized => Done ([0x50; 0x54; 0x58; 0x01; 0x00] ++ serialized)
      end
  end.

End prover_rest.

(** ** The key cache (loadOrSetupKeys of the prover, loadCachedVK of the verifier) *)
Module keys.

Definition nativeVKPath : string := "native.vk".
Definition nativePKPath : string := "native.pk".

(** The working directory: the files, and the paths on which opening,
    creating or writing fails. *)
Record Disk := MkDisk {
  files : gmap string (list Z);
  unreadable : gset string;
  uncreatable : gset string;
  unwritable : gset string
}.

(** The disk and the number of trusted setups run so far (each setup
    draws fresh randomness). *)
Record World := MkWorld { disk : Disk; setups : nat }.

Record Toolchain := MkToolchain {
  t_ccs : Type;
  t_pk : Type;
  t_vk : Type;
  Setup : t_ccs -> nat -> outcome (t_pk * t_vk);     (* groth16.Setup, n-th run *)
  pk_WriteTo : t_pk -> list Z;
  vk_WriteTo : t_vk -> list Z;
  pk_ReadFrom : list Z -> outcome t_pk;
  vk_ReadFrom : list Z -> outcome t_vk
}.

(** [os.Stat(path)] returned no error. *)
Definition Stat (d : Disk) (path : string) : bool :=
  match files d !! path with Some _ => true | None => false end.

Definition Open (d : Disk) (path : string) : outcome (list Z) :=
  match files d !! path with
  | None => Failed ("open " +:+ path +:+ ": no such file or directory")
  | Some content =>
      if bool_decide (path ∈ unreadable d)
      then Failed ("open " +:+ path +:+ ": permission denied")
      else Done content
  end.

(** [os.Create(path)] truncates the file. *)
Definition Create (d : Disk) (path : string) : Disk * option string :=
  if bool_decide (path ∈ uncreatable d)
  then (d, Some ("open " +:+ path +:+ ": permission denied"))
  else (MkDisk (<[path := []]> (files d)) (unreadable d) (uncreatable d) (unwritable d),
        None).

Definition Write (d : Disk) (path : string) (content : list Z) : Disk * option string :=
  if bool_decide (path ∈ unwritable d)
  then (d, Some ("write " +:+ path +:+ ": no space left on device"))
  else (MkDisk (<[path := content]> (files d)) (unreadable d) (uncreatable d) (unwritable d),
        None).

(** The prover's [loadOrSetupKeys]. *)
Definition loadOrSetupKeys (tc : Toolchain) (ccs : t_ccs tc) (w : World)
  : World * outcome (t_pk tc * t_vk tc) :=
  let d := disk w in
  if Stat d nativeVKPath && Stat d nativePKPath then
    match Open d nativePKPath with
    | Failed e => (w, Failed ("failed to open pk file: " +:+ e))
    | Done pkFile =>
    match Open d nativeVKPath with
    | Failed e => (w, Failed ("failed to open vk file: " +:+ e))
    | Done vkFile =>
    match pk_ReadFrom tc pkFile with
    | Failed e => (w, Failed ("failed to read pk: " +:+ e))
    | Done pk =>
    match vk_ReadFrom tc vkFile with
    | Failed e => (w, Failed ("failed to read vk: " +:+ e))
    | Done vk => (w, Done (pk, vk))
    end end end end
  else
    match Setup tc ccs (setups w) with
    | Failed e => (MkWorld d (S (setups w)), Failed ("setup failed: " +:+ e))
    | Done (pk, vk) =>
    match Create d nativePKPath with
    | (d, Some e) => (MkWorld d (S (setups w)), Failed ("failed to create pk file: " +:+ e))
    | (d, None) =>
    match Create d nativeVKPath with
    | (d, Some e) => (MkWorld d (S (setups w)), Failed ("failed to create vk file: " +:+ e))
    | (d, None) =>
    match Write d nativePKPath (pk_WriteTo tc pk) with
    | (d, Some e) => (MkWorld d (S (setups w)), Failed ("failed to write pk: " +:+ e))
    | (d, None) =>
    match Write d nativeVKPath (vk_WriteTo tc vk) with
    | (d, Some e) => (MkWorld d (S (setups w)), Failed ("failed to write vk: " +:+ e))
    | (d, None) => (MkWorld d (S (setups w)), Done (pk, vk))
    end end end end end.

(** The verifier's [loadCachedVK]. *)
Definition loadCachedVK (tc : Toolchain) (ccs : t_ccs tc) (w : World)
  : World * outcome (t_vk tc) :=
  let d := disk w in
  if Stat d nativeVKPath then
    match Open d nativeVKPath with
    | Failed e => (w, Failed ("failed to open vk file: " +:+ e))
    | Done vkFile =>
    match vk_ReadFrom tc vkFile with
    | Failed e => (w, Failed ("failed to read vk: " +:+ e))
    | Done vk => (w, Done vk)
    end end
  else
    match Setup tc ccs (setups w) with
    | Failed e => (MkWorld d (S (setups w)), Failed ("setup failed: " +:+ e))
    | Done (_, vk) =>
    match Create d nativeVKPath with
    | (d, Some e) => (MkWorld d (S (setups w)), Failed ("failed to create vk file: " +:+ e))
    | (d, None) =>
    match Write d nativeVKPath (vk_WriteTo tc vk) with
    | (d, Some e) => (MkWorld d (S (setups w)), Failed ("failed to write vk: " +:+ e))
    | (d, None) => (MkWorld d (S (setups w)), Done vk)
    end end end.

End keys.

(** ** Package dns, the rest *)
Module dns_rest.

(** [VerifyTXT]: the same request as [GetTXT]; the answer data are
    searched as they come, quotes included. *)
Definition VerifyTXT (http_get : string -> outcome dns.HttpReply)
    (hostname expectedContent : string) : outcome bool :=
  resp ← http_get hostname;
  if negb (dns.StatusCode resp =? 200) then
    Failed ("DoH request failed with status code: "
            +:+ bigint.itoa (dns.StatusCode resp))
  else
    dohResp ← dns.Body resp;
    if negb (dns.Status dohResp =? 0) then Done false
    else
      Done (existsb (fun ans =>
                       (dns.Type_ ans =? 16) && Contains (dns.Data ans) expectedContent)
              (dns.Answers dohResp)).

(** A non-empty string that neither starts nor ends with a double quote. *)
Definition unquoted (e : string) : bool :=
  match list_ascii_of_string e with
  | [] => false
  | c :: r => negb (Ascii.eqb c dns.quote) && negb (Ascii.eqb (List.last r c) dns.quote)
  end.

End dns_rest.

(** ** Decoding what the encoders wrote *)

(** The position of a character in the base-27 alphabet (27 if it has none). *)
Fixpoint position (c : ascii) (alphabet : string) (i : Z) : Z :=
  match alphabet with
  | EmptyString => 27
  | String a r => if Ascii.eqb a c then i else position c r (i + 1)
  end.

(** The number a base-27 string denotes, most significant digit first. *)
Fixpoint decode27 (s : string) (acc : Z) : Z :=
  match s with
  | EmptyString => acc
  | String c r => decode27 r (acc * 27 + position c utils.alphabet 0)
  end.

(** The 32 low bytes of a number, least significant first. *)
Definition le_bytes32 (a : Z) : list Z :=
  map (fun i => Z.land (Z.shiftr a (8 * Z.of_nat i)) 0xFF) (seq 0 32).

Definition is_digit_char (c : ascii) : Prop :=
  48 <= Z.of_nat (nat_of_ascii c) <= 57.

(** ** More sample data *)
Module sample_rest.

(** Marshals the empty object only. *)
Definition json_Marshal (m : gmap string JSON) : outcome string :=
  match map_to_list m with
  | [] => Done "{}"
  | _ => Failed "json: unsupported type"
  end.

(** Decimal strings, read as [fromString] reads them. *)
Definition fr_SetString (s : string) : option Z :=
  Some (fr.SetBigInt (prover.fromString s)).

(** What [GenerateCircuitInputs] computes with the sample tables for
    example.com, the empty metadata, nullifier 1, secret 2 and trust
    method 1. *)
Definition inputs : prover.CircuitInputs :=
  match
    prover_rest.GenerateCircuitInputs sample.constants json_Marshal fr_SetString
      "example.com" ∅ "1" "2" 1
  with
  | Ok generated => generated
  | _ => prover.MkCircuitInputs "0" "0" "0" "0" "0" "0" "0" "0"
  end.

Definition proto_Marshal (f : ptx.PtxFile) : outcome (list Z) :=
  Done (gobytes.of_string (ptx.SignedMetadata f)).

(** A key is a number; the n-th setup makes the pair (n, n). *)
Definition toolchain : keys.Toolchain :=
  keys.MkToolchain unit Z Z
    (fun _ n => Done (Z.of_nat n, Z.of_nat n))
    (fun pk => [pk mod 256])
    (fun vk => [vk mod 256])
    (fun bytes => Done (gobytes.SetBytes bytes))
    (fun bytes => Done (gobytes.SetBytes bytes)).

Definition empty_disk : keys.Disk := keys.MkDisk ∅ ∅ ∅ ∅.

(** A world around a token for example.com with the given metadata (its
    text and the object it parses to) and proof system: the file decodes
    to the token, the TXT record of the derived hostname carries the
    digest of the metadata, the signals are those of the payload, and the
    key pair matches. *)
Definition signals_for (metaRaw : string) : list string :=
  ["7"; "12345";
   "8277206545569842057707884633509656177369667059718086191927155364480322246980";
   bigint.itoa (digest metaRaw mod 2 ^ 128);
   bigint.itoa (digest metaRaw / 2 ^ 128);
   "1"].

Definition token_for (metaRaw : string) (system : ptx.ProofSystem) : ptx.PtxFile :=
  ptx.MkPtxFile 1 metaRaw
    (Some (ptx.MkZkProof system "sdv_poseidon_v1" [123; 125]))
    (Some "example.com").

Definition env_for (metaRaw : string) (meta : gmap string JSON)
    (system : ptx.ProofSystem) : verifier.Env :=
  verifier.MkEnv
    (fun _ => Done (ptxloader.MagicHeader ++ [0; 8; 1]))
    (fun _ => Done (token_for metaRaw system))
    (fun s => if String.eqb s metaRaw then Some meta else None)
    (fun _ => Some (signals_for metaRaw))
    (fun _ => Some (verifier.MkWrapper "gnark_native" (signals_for metaRaw) [] "01"))
    (fun _ => None)
    (fun hostname =>
       Done (dns.MkHttpReply 200
               (Done (dns.MkDoHResponse 0
                        [dns.MkAnswer hostname 16
                           (String dns.quote
                              (utils.Sha256 metaRaw +:+ String dns.quote EmptyString))]))))
    (sample.toy_groth16 1 1)
    sample.toy_circom.

(** The world around the token the prover makes from [inputs]. *)
Definition env_generated : verifier.Env :=
  let e := env_for "{}" ∅ ptx.ProofSystem_GROTH16 in
  verifier.MkEnv (verifier.ReadFile e) (verifier.proto_Unmarshal e)
    (verifier.json_object e)
    (fun _ => Some (prover_rest.public_signals inputs))
    (fun _ => Some (verifier.MkWrapper "gnark_native"
                      (prover_rest.public_signals inputs) [] "01"))
    (verifier.redis_ParseURL e) (verifier.http_get e) (verifier.groth16 e)
    (verifier.circom e).

Definition options_plain : verifier.VerificationOptions :=
  verifier.MkVerificationOptions "token.ptx" [] [] false "" false.

Definition quoted (s : string) : string :=
  String dns.quote (s +:+ String dns.quote EmptyString).

(** Metadata with a nonce and an expiry 100 seconds after the clock of
    the sample world. *)
Definition metaRaw_nonce : string :=
  "{" +:+ quoted "expiration_timestamp" +:+ ":1700000100,"
      +:+ quoted "nonce" +:+ ":" +:+ quoted "n1" +:+ "}".

Definition meta_nonce : gmap string JSON :=
  {[ "expiration_timestamp" := JNumber 1700000100; "nonce" := JString "n1" ]}.

(** Metadata with a nonce and no expiry. *)
Definition metaRaw_nonce_only : string :=
  "{" +:+ quoted "nonce" +:+ ":" +:+ quoted "n1" +:+ "}".

Definition meta_nonce_only : gmap string JSON := {[ "nonce" := JString "n1" ]}.

(** The options with no scope and no audience asked for. *)
Definition unrestricted (opts : verifier.VerificationOptions)
  : verifier.VerificationOptions :=
  verifier.MkVerificationOptions (verifier.FilePath opts) [] []
    (verifier.StrictMode opts) (verifier.RedisURL opts) (verifier.Verbose opts).

(** Metadata whose scopes hold a number. *)
Definition metaRaw_scopes : string := "{" +:+ quoted "scopes" +:+ ":[1]}".

Definition meta_scopes : gmap string JSON := {[ "scopes" := JArray [JNumber 1] ]}.

Definition options_scoped : verifier.VerificationOptions :=
  verifier.MkVerificationOptions "token.ptx" ["read"] ["api"] false
    "redis://localhost:6379/0" false.

End sample_rest.

(** * Properties *)

(** ** Test vectors for the library models *)

Example sha256_abc :
  hexenc.EncodeToString (sha256.Sum256 (gobytes.of_string "abc"))
  = "ba7816bf8f01cfea414140de5dae2223b00361a396177a9cb410ff61f20015ad".
Proof. vm_compute. reflexivity. Qed.

Example sha256_empty_object :
  hexenc.EncodeToString (sha256.Sum256 (gobytes.of_string "{}"))
  = "44136fa355b3678a1146ad16f7e8649e94fb4fc21fe77e8310c060f61caaff8a".
Proof. vm_compute. reflexivity. Qed.

Example sha256_two_blocks :
  hexenc.EncodeToString
    (sha256.Sum256
       (gobytes.of_string "abcdbcdecdefdefgefghfghighijhijkijkljklmklmnlmnomnopnopq"))
  = "248d6a61d20638b8e5c026930c3e6039a33ce45964ff2167f6ecedd419db06c1".
Proof. vm_compute. reflexivity. Qed.

Example SetString_examples :
  bigint.SetString "12345" 10 = (12345, true)
  /\ bigint.SetString "-5" 10 = (-5, true)
  /\ bigint.SetString "12x" 10 = (12, false)
  /\ bigint.SetString "" 10 = (0, false)
  /\ bigint.SetString "fF" 16 = (255, true).
Proof. vm_compute. repeat split. Qed.

(** ** Bytes, digests and hexadecimal *)

Lemma SetBytes_fold (bs : list Z) (acc : Z) :
  fold_left (fun a b => a * 256 + b) bs acc
  = acc * 256 ^ Z.of_nat (length bs) + gobytes.SetBytes bs.
Proof.
  unfold gobytes.SetBytes. revert acc.
  induction bs as [|b bs IH]; intros acc; cbn [fold_left length].
  - rewrite Z.pow_0_r. lia.
  - rewrite IH, (IH (0 * 256 + b)), Nat2Z.inj_succ, Z.pow_succ_r by lia. lia.
Qed.

Lemma SetBytes_app (a b : list Z) :
  gobytes.SetBytes (a ++ b)
  = gobytes.SetBytes a * 256 ^ Z.of_nat (length b) + gobytes.SetBytes b.
Proof.
  unfold gobytes.SetBytes at 1. rewrite fold_left_app, SetBytes_fold. reflexivity.
Qed.

Lemma SetBytes_bound (bs : list Z) :
  Forall gobytes.is_byte bs -> 0 <= gobytes.SetBytes bs < 256 ^ Z.of_nat (length bs).
Proof.
  induction 1 as [|b bs Hb Hbs IH].
  - cbn. lia.
  - change (b :: bs) with ([b] ++ bs). rewrite SetBytes_app.
    cbn [length app]. rewrite Nat2Z.inj_succ, Z.pow_succ_r by lia.
    unfold gobytes.is_byte in Hb.
    replace (gobytes.SetBytes [b]) with b by (cbn; lia). nia.
Qed.

Lemma be_bytes_length (n : nat) (v : Z) : length (gobytes.be_bytes n v) = n.
Proof. unfold gobytes.be_bytes. rewrite length_map, length_rev, length_seq. reflexivity. Qed.

Lemma be_bytes_is_byte (n : nat) (v : Z) : Forall gobytes.is_byte (gobytes.be_bytes n v).
Proof.
  unfold gobytes.be_bytes. apply Forall_map, Forall_forall. intros i _.
  unfold gobytes.is_byte. change 0xFF with (Z.ones 8).
  rewrite Z.land_ones by lia. apply Z.mod_pos_bound. lia.
Qed.

Lemma compress_length (h block : list Z) :
  length h = 8%nat -> length (sha256.compress h block) = 8%nat.
Proof.
  intros Hh. unfold sha256.compress.
  rewrite length_map, length_combine, Hh. reflexivity.
Qed.

Lemma blocks_length (n : nat) (h bs : list Z) :
  length h = 8%nat -> length (sha256.blocks n h bs) = 8%nat.
Proof.
  revert h bs. induction n as [|n IH]; intros h bs Hh; cbn [sha256.blocks]; [exact Hh|].
  apply IH, compress_length, Hh.
Qed.

Lemma concat_be_bytes_length (l : list Z) :
  length (concat (map (gobytes.be_bytes 4) l)) = (4 * length l)%nat.
Proof.
  induction l as [|x l IH]; [reflexivity|].
  cbn [map concat length]. rewrite length_app, be_bytes_length, IH. lia.
Qed.

Lemma Sum256_length (data : list Z) : length (sha256.Sum256 data) = 32%nat.
Proof.
  unfold sha256.Sum256. rewrite concat_be_bytes_length, blocks_length; reflexivity.
Qed.

Lemma Sum256_is_byte (data : list Z) : Forall gobytes.is_byte (sha256.Sum256 data).
Proof.
  unfold sha256.Sum256. apply Forall_concat, Forall_map, Forall_forall.
  intros w _. apply be_bytes_is_byte.
Qed.

Lemma digest_bound (msg : string) : 0 <= digest msg < 2 ^ 256.
Proof.
  unfold digest.
  pose proof (SetBytes_bound _ (Sum256_is_byte (gobytes.of_string msg))) as H.
  rewrite Sum256_length in H. exact H.
Qed.

Lemma small_cases (d : Z) :
  0 <= d < 16 ->
  d = 0 \/ d = 1 \/ d = 2 \/ d = 3 \/ d = 4 \/ d = 5 \/ d = 6 \/ d = 7 \/
  d = 8 \/ d = 9 \/ d = 10 \/ d = 11 \/ d = 12 \/ d = 13 \/ d = 14 \/ d = 15.
Proof. lia. Qed.

Ltac each_nibble H :=
  apply small_cases in H;
  repeat (destruct H as [H|H]; [subst; vm_compute; auto|]); subst; vm_compute; auto.

Lemma digit_hexdigit (d : Z) :
  0 <= d < 16 -> bigint.digit (Z.of_nat (nat_of_ascii (hexenc.hexdigit d))) = d.
Proof. intros H. each_nibble H. Qed.

Lemma hexdigit_no_sign (d : Z) :
  0 <= d < 16 ->
  let c := Z.of_nat (nat_of_ascii (hexenc.hexdigit d)) in
  (c =? 45) = false /\ (c =? 43) = false.
Proof. intros H. each_nibble H. Qed.

Lemma scan_hex_encode (bs : list Z) (acc : Z) (count : nat) :
  Forall gobytes.is_byte bs ->
  bigint.scan 16 (gobytes.of_string (hexenc.EncodeToString bs)) acc count
  = (fold_left (fun a b => a * 256 + b) bs acc, (count + 2 * length bs)%nat, []).
Proof.
  intros Hbs. revert acc count.
  induction Hbs as [|b bs Hb Hbs IH]; intros acc count.
  - cbn. rewrite Nat.add_0_r. reflexivity.
  - unfold gobytes.is_byte in Hb.
    assert (Hhi : 0 <= b / 16 < 16)
      by (split; [apply Z.div_pos; lia | apply Z.div_lt_upper_bound; lia]).
    assert (Hlo : 0 <= b mod 16 < 16) by (apply Z.mod_pos_bound; lia).
    cbn [hexenc.EncodeToString gobytes.of_string bigint.scan].
    rewrite !digit_hexdigit by assumption.
    destruct (Z.ltb_spec (b / 16) 16) as [_|?]; [|lia].
    destruct (Z.ltb_spec (b mod 16) 16) as [_|?]; [|lia].
    rewrite IH. cbn [fold_left length].
    replace ((acc * 16 + b / 16) * 16 + b mod 16) with (acc * 256 + b)
      by (pose proof (Z.div_mod b 16); lia).
    replace (S (S count) + 2 * length bs)%nat with (count + 2 * S (length bs))%nat by lia.
    reflexivity.
Qed.

(** Reading back in base 16 what [hex.EncodeToString] wrote gives the
    big-endian value of the bytes. *)
Lemma SetString_hex (bs : list Z) :
  bs <> [] -> Forall gobytes.is_byte bs ->
  bigint.SetString (hexenc.EncodeToString bs) 16 = (gobytes.SetBytes bs, true).
Proof.
  intros Hne Hbs. pose proof (scan_hex_encode bs 0 0 Hbs) as Hscan.
  destruct bs as [|b bs]; [congruence|].
  inversion Hbs as [|? ? Hb _]; subst. unfold gobytes.is_byte in Hb.
  assert (Hhi : 0 <= b / 16 < 16)
    by (split; [apply Z.div_pos; lia | apply Z.div_lt_upper_bound; lia]).
  destruct (hexdigit_no_sign _ Hhi) as [Hm Hp].
  unfold bigint.SetString.
  cbn [hexenc.EncodeToString gobytes.of_string] in Hscan |- *.
  cbv zeta in Hm, Hp. rewrite Hm, Hp. cbn [orb].
  rewrite Hscan. reflexivity.
Qed.

Lemma SetString_hex_digest (msg : string) :
  bigint.SetString (hexenc.EncodeToString (sha256.Sum256 (gobytes.of_string msg))) 16
  = (digest msg, true).
Proof.
  apply SetString_hex; [|apply Sum256_is_byte].
  intros E. pose proof (Sum256_length (gobytes.of_string msg)) as L.
  rewrite E in L. discriminate.
Qed.

Lemma digest_lt_modulus_half (msg : string) :
  0 <= digest msg mod 2 ^ 128 < fr.Modulus /\ 0 <= digest msg / 2 ^ 128 < fr.Modulus.
Proof.
  pose proof (digest_bound msg) as [H0 H1].
  assert (2 ^ 128 < fr.Modulus) by (vm_compute; reflexivity).
  split.
  - pose proof (Z.mod_pos_bound (digest msg) (2 ^ 128)). lia.
  - split; [apply Z.div_pos; lia|].
    apply Z.lt_trans with (2 ^ 128); [|assumption].
    apply Z.div_lt_upper_bound; [lia|].
    change (2 ^ 128 * 2 ^ 128) with (2 ^ 256). assumption.
Qed.

(** The prover-side split: low 128 bits first, high 128 bits second. *)
Lemma SplitMetadataHash_low_high (metaRaw : string) :
  crypto.SplitMetadataHash metaRaw
  = (digest metaRaw mod 2 ^ 128, digest metaRaw / 2 ^ 128).
Proof.
  unfold crypto.SplitMetadataHash, crypto.SplitHashToFieldElements.
  rewrite SetString_hex_digest. cbn [fst].
  destruct (digest_lt_modulus_half metaRaw) as [Hlo Hhi].
  pose proof (digest_bound metaRaw) as Hd.
  unfold crypto.mask128.
  change (Z.shiftl 1 128 - 1) with (Z.ones 128).
  rewrite !Z.land_ones, Z.shiftr_div_pow2 by lia.
  unfold fr.SetBigInt.
  rewrite (Z.mod_small (digest metaRaw / 2 ^ 128) (2 ^ 128)).
  2:{ split; [apply Z.div_pos; lia|].
      apply Z.div_lt_upper_bound; [lia|]. change (2 ^ 128 * 2 ^ 128) with (2 ^ 256). lia. }
  rewrite (Z.mod_small _ fr.Modulus Hlo), (Z.mod_small _ fr.Modulus Hhi).
  reflexivity.
Qed.

(** The verifier-side split of the semantic check: first 16 bytes (the
    high 128 bits) first, last 16 bytes (the low 128 bits) second. *)
Lemma hashToBigInts_high_low (metaRaw : string) :
  signals.hashToBigInts (sha256.Sum256 (gobytes.of_string metaRaw))
  = (digest metaRaw / 2 ^ 128, digest metaRaw mod 2 ^ 128).
Proof.
  unfold signals.hashToBigInts, digest.
  set (d := sha256.Sum256 (gobytes.of_string metaRaw)).
  assert (Hlen : length d = 32%nat) by apply Sum256_length.
  assert (Hb : Forall gobytes.is_byte d) by apply Sum256_is_byte.
  rewrite <- (take_drop 16 d) at 3 4. rewrite SetBytes_app.
  assert (Hl : length (drop 16 d) = 16%nat) by (rewrite length_drop; lia).
  rewrite Hl.
  pose proof (SetBytes_bound (drop 16 d) (Forall_drop _ _ _ Hb)) as Hlo.
  rewrite Hl in Hlo. change (256 ^ Z.of_nat 16) with (2 ^ 128) in *.
  rewrite Z.div_add_l, Z.div_small, Z.add_0_r by lia.
  rewrite Z.add_comm, Z.mod_add, Z.mod_small by lia. reflexivity.
Qed.

(** The two splits of one digest are each other's mirror image. *)
Lemma split_sides_swapped (metaRaw : string) :
  signals.hashToBigInts (sha256.Sum256 (gobytes.of_string metaRaw))
  = (snd (crypto.SplitMetadataHash metaRaw), fst (crypto.SplitMetadataHash metaRaw)).
Proof. rewrite hashToBigInts_high_low, SplitMetadataHash_low_high. reflexivity. Qed.

(** C7 (evaluated on the metadata [{}]).  The prover-side split
    [crypto.SplitMetadataHash] puts the low 128 bits of SHA-256(M) first and
    the high 128 bits second; the split of the semantic check,
    [signals.hashToBigInts], puts the high 128 bits first and the low 128
    bits second: the two sides do not compute the same (p1, p2) pair. *)
Theorem C7_split_sides_disagree :
  crypto.SplitMetadataHash "{}"
  = (198030627578155901778469647491871211402, 90488421641866048750073685292303803550)
  /\ signals.hashToBigInts (sha256.Sum256 (gobytes.of_string "{}"))
     = (90488421641866048750073685292303803550, 198030627578155901778469647491871211402)
  /\ digest "{}" mod 2 ^ 128 = 198030627578155901778469647491871211402
  /\ digest "{}" / 2 ^ 128 = 90488421641866048750073685292303803550.
Proof. vm_compute. repeat split. Qed.

(** ** Semantic check of the public signals *)

Lemma scan_signals_flags (tm p1 p2 : Z) (dh : list Z) (l : list Z)
    (r : signals.VerificationResult) :
  fold_left (signals.scan_signal tm p1 p2 dh) l r
  = signals.MkVerificationResult
      (signals.FqdnHash r || existsb (fun x => x =? gobytes.SetBytes dh) l)
      (signals.MetadataPart1 r || existsb (fun x => x =? p1) l)
      (signals.MetadataPart2 r || existsb (fun x => x =? p2) l)
      (signals.TrustMethod r || existsb (fun x => x =? tm) l)
      (signals.AllValid r).
Proof.
  revert r. induction l as [|x l IH]; intros r.
  - destruct r; cbn. rewrite !orb_false_r. reflexivity.
  - cbn [fold_left existsb]. rewrite IH. unfold signals.scan_signal.
    destruct r as [f a b c d]; cbn.
    destruct (x =? tm), (x =? p1), (x =? p2), (x =? gobytes.SetBytes dh); cbn;
      rewrite ?orb_true_r, ?orb_false_r; reflexivity.
Qed.

Lemma existsb_eqb_In (v : Z) (l : list Z) :
  existsb (fun x => x =? v) l = true <-> In v l.
Proof.
  rewrite existsb_exists. split.
  - intros (x & Hx & E). apply Z.eqb_eq in E. subst. assumption.
  - intros H. exists v. split; [assumption | apply Z.eqb_refl].
Qed.

(** C1 (as the code has it).  The semantic check parses every entry of
    publicSignals as a decimal integer and accepts if and only if the
    trust-method integer and the two 128-bit halves of SHA-256(metadata)
    each occur somewhere in the list, whatever the position; the fqdn flag
    plays no part in the verdict. *)
Theorem C1_semantic_check_scans_values (s : signals.PTXSignals)
    (publicSignals : list string) :
  let values := map (fun ps => fst (bigint.SetString ps 10)) publicSignals in
  signals.AllValid (signals.VerifyAgainstProof s publicSignals) = true
  <-> In (signals.sig_TrustMethod s) values
      /\ In (digest (signals.sig_MetadataRaw s) / 2 ^ 128) values
      /\ In (digest (signals.sig_MetadataRaw s) mod 2 ^ 128) values.
Proof.
  cbv zeta. unfold signals.VerifyAgainstProof.
  rewrite hashToBigInts_high_low, scan_signals_flags. cbn.
  rewrite !andb_true_iff, !existsb_eqb_In. tauto.
Qed.

(** C1 (counterexample).  For the payload (example.com, [{}], 1), a list
    of six decimal field elements that carries the expected values at
    positions 0, 1 and 2, and whose positions 2..5 all differ from the
    re-derived fqdn, p1, p2 and trust method, passes the semantic check. *)
Lemma C1_value_scan_accepts :
  let s := signals.NewPTXSignals "example.com" "{}" 1 in
  let publicSignals :=
    ["198030627578155901778469647491871211402";
     "90488421641866048750073685292303803550"; "1"; "0"; "0"; "0"] in
  let derived :=
    [crypto.PoseidonHashString "example.com"; fst (crypto.SplitMetadataHash "{}");
     snd (crypto.SplitMetadataHash "{}"); 1] in
  length publicSignals = 6%nat
  /\ Forall2 (fun got want => got <> want)
       (map verifier.fromStringV (drop 2 publicSignals)) derived
  /\ signals.AllValid (signals.VerifyAgainstProof s publicSignals) = true.
Proof.
  vm_compute. split; [reflexivity|]. split; [|reflexivity].
  repeat constructor; discriminate.
Qed.

(** What the engine does with a failed semantic check. *)
Lemma verifyProof_semantic_rejection (env : verifier.Env) (ptxFile : ptx.PtxFile)
    (metaRaw : string) (proof : ptx.ZkProof) (wrapper : verifier.Wrapper) :
  ptx.Proof ptxFile = Some proof ->
  ptx.ProofSystem_of proof = ptx.ProofSystem_GROTH16 ->
  verifier.json_wrapper env (ptx.ProofData proof) = Some wrapper ->
  signals.AllValid
    (signals.VerifyAgainstProof
       (signals.NewPTXSignals (default "" (ptx.DohDetails ptxFile)) metaRaw
          (ptx.TrustMethod ptxFile))
       (verifier.PublicSignals wrapper)) = false ->
  verifier.verifyProof env ptxFile metaRaw
  = verifier.zk_error "Semantic verification failed".
Proof.
  intros Hp Hs Hw Hv. unfold verifier.verifyProof.
  rewrite Hp, Hs, Hw, Hv. reflexivity.
Qed.

(** ** Hostname derivation *)

(** C8 (as the code has it).  The integer zero encodes in base 27 as
    [a]; the hostname of the zero commitment is [x], the base-27 encoding
    of the SHA-256 digest of thirty-two zero bytes, [x.] and the parent
    domain. *)
Theorem C8_zero_commitment_hostname :
  utils.Base27 "0" = "a"
  /\ utils.Base27 (hexenc.EncodeToString (sha256.Sum256 (replicate 32 0)))
     = "gjtwmmwvhljgccsfweutawym-owsnswmtydlqpwxkrijelvkkkrmlf"
  /\ forall D : string,
       utils.DeriveHostnameFromCommitment "0" D
       = Done ("x" +:+ utils.Base27 (hexenc.EncodeToString (sha256.Sum256 (replicate 32 0)))
               +:+ "x." +:+ D).
Proof.
  split; [vm_compute; reflexivity|]. split; [vm_compute; reflexivity|].
  intros D. reflexivity.
Qed.

(** C8 (counterexample).  For the parent domain [ex.io] the hostname of
    the zero commitment is not [xax.ex.io]. *)
Lemma C8_zero_hostname_is_not_xax :
  utils.DeriveHostnameFromCommitment "0" "ex.io"
  = Done "xgjtwmmwvhljgccsfweutawym-owsnswmtydlqpwxkrijelvkkkrmlfx.ex.io"
  /\ utils.DeriveHostnameFromCommitment "0" "ex.io" <> Done ("xax." +:+ "ex.io").
Proof. vm_compute. split; [reflexivity | discriminate]. Qed.

(** ** The replay store *)


(** An expired nonce: not fresh, and the store is not touched. *)
Lemma CheckAndSetNonce_expired (w : nonce.World) (n : string) (exp : Z) :
  exp < nonce.clock w ->
  nonce.CheckAndSetNonce w n exp = (w, (false, None)).
Proof.
  intros H. unfold nonce.CheckAndSetNonce.
  destruct (Z.ltb_spec exp (nonce.clock w)); [reflexivity | lia].
Qed.


(** C9 (evaluated at now = 1700000000, expiration = now + 9223372037).
    The expiration is not in the past, and the store is asked for a
    time-to-live that is not (expiration − now) seconds: the product with
    [time.Second] wraps around in int64 and comes out negative. *)
Theorem C9_ttl_wraps_around :
  let w := sample.world in
  let exp := 1700000000 + 9223372037 in
  nonce.clock w <= exp
  /\ nonce.issued (fst (nonce.CheckAndSetNonce w "abc" exp))
     = [nonce.CmdSetNX "abc" "1" (-9223372036709551616)]
  /\ -9223372036709551616 <> (exp - nonce.clock w) * nonce.Second.
Proof. vm_compute. repeat split; discriminate. Qed.

(** ** The prover's self-verification *)

(** C5 (as the code has it).  Once the circuit compiled, the keys loaded
    and the proof was produced, the native prover runs the self-verification
    and returns the envelope with the proof bytes whatever its outcome: a
    failure only prints a warning. *)
Theorem C5_self_verification_only_warns (g : Groth16) (inputs : prover.CircuitInputs)
    (ccs : g_ccs g) (pk : g_pk g) (vk : g_vk g) (proof : g_proof g) :
  let witness :=
    circuit.NewWitness
      (circuit.MkDoHCircuit
         (prover.fromString (prover.NullifierHash inputs))
         (prover.fromString (prover.Commitment inputs))
         (prover.fromString (prover.Fqdn inputs))
         (prover.fromString (prover.MetadataHashP1 inputs))
         (prover.fromString (prover.MetadataHashP2 inputs))
         (prover.fromString (prover.TrustMethod inputs))
         (prover.fromString (prover.Nullifier inputs))
         (prover.fromString (prover.Secret inputs))) in
  g_Compile g = Done ccs ->
  g_loadOrSetupKeys g ccs = Done (pk, vk) ->
  g_Prove g ccs pk witness = Done proof ->
  exists out,
    prover.GenerateProofNative g inputs
    = (Done (prover.MkEnvelope "gnark_native"
               [prover.NullifierHash inputs; prover.Commitment inputs;
                prover.Fqdn inputs; prover.MetadataHashP1 inputs;
                prover.MetadataHashP2 inputs; prover.TrustMethod inputs]
               (hexenc.EncodeToString (g_WriteRawTo g proof))),
       out)
    /\ (out = [] <-> g_Verify g proof vk (circuit.Public witness) = None).
Proof.
  cbv zeta. intros Hc Hk Hp. unfold prover.GenerateProofNative.
  rewrite Hc, Hk, Hp.
  destruct (g_Verify g proof vk _) as [err|] eqn:Hv.
  - eexists. split; [reflexivity|]. split; discriminate.
  - eexists. split; [reflexivity|]. split; reflexivity.
Qed.

Lemma C5_self_verification_only_warns_witness :
  let g := sample.toy_groth16 1 1 in
  g_Compile g = Done tt
  /\ g_loadOrSetupKeys g tt = Done (1, 1)
  /\ g_Prove g tt 1 (circuit.NewWitness sample.assignment) = Done 1
  /\ exists out,
       prover.GenerateProofNative g sample.inputs
       = (Done (prover.MkEnvelope "gnark_native" sample.publicSignals "01"), out)
       /\ (out = [] <->
           g_Verify g 1 1 (circuit.Public (circuit.NewWitness sample.assignment)) = None).
Proof.
  cbv zeta. split; [reflexivity|]. split; [reflexivity|]. split; [reflexivity|].
  exact (C5_self_verification_only_warns (sample.toy_groth16 1 1) sample.inputs
           tt 1 1 1 eq_refl eq_refl eq_refl).
Defined.

(** C5 (counterexample).  With a key pair that does not match, the
    self-verification fails, and the prover still returns the envelope
    with the proof bytes instead of an error. *)
Lemma C5_failed_self_verification_returns_proof :
  let g := sample.toy_groth16 1 2 in
  g_Verify g 1 2 (circuit.Public (circuit.NewWitness sample.assignment))
  = Some "pairing check failed"
  /\ prover.GenerateProofNative g sample.inputs
     = (Done (prover.MkEnvelope "gnark_native" sample.publicSignals "01"),
        ["WARNING: Generated proof failed self-verification! pairing check failed"]).
Proof. vm_compute. split; reflexivity. Qed.

(** ** The public witness of the native path *)

(** C2.  Whenever the native path reaches Groth16 verification (the proof
    hex decodes, the circuit compiles, the key loads, the proof
    deserialises and the envelope has at least two signals), the public
    witness it hands over has the envelope's first two signals at
    positions 0 and 1 and, at positions 2 to 5, SHA-256(domain) reduced
    mod p, the low and the high 128 bits of SHA-256(signed_metadata) and
    the trust method: nothing of the envelope beyond its first two
    signals enters the witness. *)
Theorem C2_native_witness_is_rederived (g : Groth16) (proofHex : string)
    (proofSignals : list string) (domain metaRaw : string) (trustMethod : Z)
    (proofBytes : list Z) (ccs : g_ccs g) (vk : g_vk g) (proof : g_proof g)
    (nullifierHash commitment : string) (rest : list string) :
  hexenc.DecodeString proofHex = Some proofBytes ->
  g_Compile g = Done ccs ->
  g_loadCachedVK g ccs = Done vk ->
  g_ReadFrom g proofBytes = Done proof ->
  proofSignals = nullifierHash :: commitment :: rest ->
  verifier.verifyNativeGnarkProof g proofHex proofSignals domain metaRaw trustMethod
  = match
      g_Verify g proof vk
        [ fst (bigint.SetString nullifierHash 10) mod fr.Modulus;
          fst (bigint.SetString commitment 10) mod fr.Modulus;
          digest domain mod fr.Modulus;
          digest metaRaw mod 2 ^ 128;
          digest metaRaw / 2 ^ 128;
          trustMethod mod fr.Modulus ]
    with
    | Some e => verifier.zk_error ("Native Gnark verification failed: " +:+ e)
    | None => verifier.MkZkResult true false true ""
    end.
Proof.
  intros Hhex Hc Hvk Hrd ->. unfold verifier.verifyNativeGnarkProof.
  rewrite Hhex, Hc, Hvk, Hrd, SplitMetadataHash_low_high.
  destruct (digest_lt_modulus_half metaRaw) as [Hlo Hhi].
  unfold circuit.NewWitness, circuit.Public, crypto.PoseidonHashString,
    verifier.fromStringV, fr.SetBigInt.
  cbn [circuit.NullifierHash circuit.Commitment circuit.Fqdn circuit.MetadataHashP1
       circuit.MetadataHashP2 circuit.TrustMethod circuit.Nullifier circuit.Secret
       map take].
  fold (digest domain).
  rewrite Z.mod_mod by (vm_compute; discriminate).
  rewrite (Z.mod_small _ fr.Modulus Hlo), (Z.mod_small _ fr.Modulus Hhi).
  reflexivity.
Qed.

Lemma C2_native_witness_is_rederived_witness :
  let g := sample.toy_groth16 1 1 in
  hexenc.DecodeString "01" = Some [1]
  /\ g_Compile g = Done tt
  /\ g_loadCachedVK g tt = Done 1
  /\ g_ReadFrom g [1] = Done 1
  /\ verifier.verifyNativeGnarkProof g "01" sample.publicSignals "example.com" "{}" 1
     = match
         g_Verify g 1 1
           [ fst (bigint.SetString "7" 10) mod fr.Modulus;
             fst (bigint.SetString "12345" 10) mod fr.Modulus;
             digest "example.com" mod fr.Modulus;
             digest "{}" mod 2 ^ 128;
             digest "{}" / 2 ^ 128;
             1 mod fr.Modulus ]
       with
       | Some e => verifier.zk_error ("Native Gnark verification failed: " +:+ e)
       | None => verifier.MkZkResult true false true ""
       end.
Proof.
  cbv zeta. split; [reflexivity|]. split; [reflexivity|]. split; [reflexivity|].
  split; [reflexivity|].
  exact (C2_native_witness_is_rederived (sample.toy_groth16 1 1) "01"
           sample.publicSignals "example.com" "{}" 1 [1] tt 1 1 "7" "12345" _
           eq_refl eq_refl eq_refl eq_refl eq_refl).
Defined.

(** The verdict of the native path does not depend on what the envelope
    carries from position 2 on. *)
Corollary native_path_ignores_envelope_tail (g : Groth16) (proofHex : string)
    (nullifierHash commitment : string) (rest rest' : list string)
    (domain metaRaw : string) (trustMethod : Z) :
  verifier.verifyNativeGnarkProof g proofHex (nullifierHash :: commitment :: rest)
    domain metaRaw trustMethod
  = verifier.verifyNativeGnarkProof g proofHex (nullifierHash :: commitment :: rest')
      domain metaRaw trustMethod.
Proof. reflexivity. Qed.

(** ** Tokens without a nonce *)

Lemma check_nonce_without_nonce (env : verifier.Env) (opts : verifier.VerificationOptions)
    (meta : gmap string JSON) (w : nonce.World) (res : bool * list string) :
  (forall s, meta !! "nonce" <> Some (JString s)) ->
  verifier.check_nonce env opts meta w res = (w, inr res).
Proof.
  intros Hn. unfold verifier.check_nonce.
  destruct (negb (String.eqb (verifier.RedisURL opts) "")); [|reflexivity].
  destruct (meta !! "nonce") as [[| | |s| |]|] eqn:E; try reflexivity.
  exfalso. exact (Hn s eq_refl).
Qed.

Lemma Verify_without_nonce (env : verifier.Env) (opts : verifier.VerificationOptions)
    (w : nonce.World) (ptxFile : ptx.PtxFile) (meta : gmap string JSON) :
  ptxloader.LoadPTX (verifier.ReadFile env) (verifier.proto_Unmarshal env)
    (verifier.FilePath opts) = Ok ptxFile ->
  verifier.json_object env (ptx.SignedMetadata ptxFile) = Some meta ->
  (forall s, meta !! "nonce" <> Some (JString s)) ->
  verifier.Verify env opts w
  = (w, snd (verifier.Verify env (verifier.without_store opts) w)).
Proof.
  intros Hl Hj Hn. unfold verifier.Verify.
  cbn [verifier.without_store verifier.FilePath].
  rewrite Hl, Hj.
  change (verifier.check_scope (verifier.without_store opts))
    with (verifier.check_scope opts).
  destruct (verifier.check_scope opts meta _) as [res| |]; try reflexivity.
  change (verifier.check_audience (verifier.without_store opts))
    with (verifier.check_audience opts).
  rewrite !check_nonce_without_nonce by assumption. reflexivity.
Qed.

(** C10.  When the parsed signed_metadata has no string-valued [nonce],
    a verification leaves the world as it found it (no key is created, no
    command is issued to the store) and returns what it returns with no
    store configured; run any number of times in a row, it returns that
    same verdict every time. *)
Theorem C10_no_nonce_no_replay_check (env : verifier.Env)
    (opts : verifier.VerificationOptions) (w : nonce.World)
    (ptxFile : ptx.PtxFile) (meta : gmap string JSON) :
  ptxloader.LoadPTX (verifier.ReadFile env) (verifier.proto_Unmarshal env)
    (verifier.FilePath opts) = Ok ptxFile ->
  verifier.json_object env (ptx.SignedMetadata ptxFile) = Some meta ->
  (forall s, meta !! "nonce" <> Some (JString s)) ->
  fst (verifier.Verify env opts w) = w
  /\ snd (verifier.Verify env opts w)
     = snd (verifier.Verify env (verifier.without_store opts) w)
  /\ forall n,
       verifier.Verify_times env opts n w
       = (w, replicate n (snd (verifier.Verify env opts w))).
Proof.
  intros Hl Hj Hn.
  pose proof (Verify_without_nonce env opts w ptxFile meta Hl Hj Hn) as HV.
  split; [rewrite HV; reflexivity|]. split; [rewrite HV; reflexivity|].
  induction n as [|n IH]; [reflexivity|].
  cbn [verifier.Verify_times replicate]. rewrite HV at 1. rewrite IH.
  rewrite HV at 2. reflexivity.
Qed.

Lemma C10_no_nonce_no_replay_check_witness :
  ptxloader.LoadPTX (verifier.ReadFile sample.env) (verifier.proto_Unmarshal sample.env)
    (verifier.FilePath sample.options) = Ok sample.ptxFile
  /\ verifier.json_object sample.env (ptx.SignedMetadata sample.ptxFile) = Some ∅
  /\ fst (verifier.Verify sample.env sample.options sample.world) = sample.world
  /\ snd (verifier.Verify sample.env sample.options sample.world)
     = snd (verifier.Verify sample.env (verifier.without_store sample.options) sample.world)
  /\ forall n,
       verifier.Verify_times sample.env sample.options n sample.world
       = (sample.world,
          replicate n (snd (verifier.Verify sample.env sample.options sample.world))).
Proof.
  split; [reflexivity|]. split; [reflexivity|].
  apply (C10_no_nonce_no_replay_check sample.env sample.options sample.world
           sample.ptxFile ∅); [reflexivity | reflexivity |].
  intros s. vm_compute. discriminate.
Defined.

(** The sample token has no nonce, a replay store is configured, and the
    token passes every check. *)
Example sample_token_passes :
  verifier.RedisURL sample.options <> ""
  /\ exists r,
       snd (verifier.Verify sample.env sample.options sample.world) = Ok r
       /\ verifier.Success r = true /\ verifier.Errors r = [].
Proof.
  split; [discriminate|]. eexists. split; [vm_compute; reflexivity|].
  split; reflexivity.
Qed.

(** ** Loops *)

Lemma index_ok {A} (l : list A) (i : nat) (x : A) : l !! i = Some x -> index l i = Ok x.
Proof. intros H. unfold index. rewrite H. reflexivity. Qed.

Lemma for_loop_ext {St} (n a : nat) (f g : nat -> St -> result St) (s : St) :
  (forall i s, f i s = g i s) -> for_loop n a f s = for_loop n a g s.
Proof.
  intros E. revert a s. induction n as [|n IH]; intros a s; [reflexivity|].
  cbn [for_loop]. rewrite E. destruct (g a s); cbn; auto.
Qed.

(** A loop that overwrites [s[i]] with a function of [i] and of the old
    [s[i]], for [i] from [a] to [a + n − 1]. *)
Ltac nat_tests :=
  repeat match goal with
         | |- context [(?x <=? ?y)%nat] => destruct (Nat.leb_spec x y)
         | |- context [(?x <? ?y)%nat] => destruct (Nat.ltb_spec x y)
         end;
  try lia; try reflexivity.

Lemma for_loop_update {A} (L lo : nat) (body : nat -> list A -> result (list A))
    (g : nat -> A -> A) :
  (forall i s x, (lo <= i)%nat -> length s = L -> s !! i = Some x ->
                 body i s = Ok (<[i := g i x]> s)) ->
  forall n a s,
    (lo <= a)%nat -> (a + n <= L)%nat -> length s = L ->
    for_loop n a body s
    = Ok (imap (fun i x => if (a <=? i)%nat && (i <? a + n)%nat then g i x else x) s).
Proof.
  intros Hbody. induction n as [|n IH]; intros a s Hlo Hn Hs.
  - cbn [for_loop]. f_equal. apply list_eq. intros j.
    rewrite list_lookup_imap.
    destruct (s !! j); [|reflexivity]. unfold fmap, option_fmap, option_map.
    nat_tests.
  - cbn [for_loop].
    destruct (lookup_lt_is_Some_2 s a ltac:(lia)) as [x Hx].
    rewrite (Hbody a s x Hlo Hs Hx). unfold mbind, result_bind.
    rewrite IH by (rewrite ?length_insert; lia).
    f_equal. apply list_eq. intros j. rewrite !list_lookup_imap.
    destruct (Nat.eq_dec j a) as [->|Hne].
    + rewrite list_lookup_insert_eq, Hx by lia.
      unfold fmap, option_fmap, option_map. nat_tests.
    + rewrite list_lookup_insert_ne by congruence.
      destruct (s !! j); [|reflexivity].
      unfold fmap, option_fmap, option_map. nat_tests.
Qed.

Lemma for_loop_update_all {A} (L : nat) (body : nat -> list A -> result (list A))
    (g : nat -> A -> A) (s : list A) :
  (forall i s x, length s = L -> s !! i = Some x -> body i s = Ok (<[i := g i x]> s)) ->
  length s = L ->
  for_loop L 0 body s = Ok (imap g s).
Proof.
  intros Hbody Hs.
  rewrite (for_loop_update L 0 body g) by (auto; lia).
  f_equal. apply list_eq. intros j. rewrite !list_lookup_imap.
  destruct (s !! j) eqn:E; [|reflexivity].
  apply lookup_lt_Some in E.
  unfold fmap, option_fmap, option_map. nat_tests.
Qed.

(** A loop that runs a round function [n] times. *)
Lemma for_loop_rounds (I : list Z -> Prop) (body : nat -> list Z -> result (list Z))
    (step : nat -> list Z -> list Z) (n : nat) :
  (forall r s, (r < n)%nat -> I s -> body r s = Ok (step r s) /\ I (step r s)) ->
  forall s, I s ->
    for_loop n 0 body s = Ok (PoseidonSpec.rounds n step s)
    /\ I (PoseidonSpec.rounds n step s).
Proof.
  intros Hbody. unfold PoseidonSpec.rounds.
  assert (G : forall k a s, (a + k <= n)%nat -> I s ->
            for_loop k a body s = Ok (fold_left (fun st r => step r st) (seq a k) s)
            /\ I (fold_left (fun st r => step r st) (seq a k) s)).
  { induction k as [|k IH]; intros a s Hk Hs; [split; [reflexivity | assumption]|].
    cbn [for_loop seq fold_left].
    destruct (Hbody a s ltac:(lia) Hs) as [-> Hs']. cbn.
    apply IH; [lia | assumption]. }
  intros s Hs. apply G; [lia | assumption].
Qed.

Lemma fold_right_add_init (l : list Z) (c : Z) :
  fold_right Z.add c l = fold_right Z.add 0 l + c.
Proof. induction l as [|x l IH]; cbn; [reflexivity | rewrite IH; lia]. Qed.

Lemma sum_S (n : nat) (f : nat -> Z) :
  PoseidonSpec.sum (S n) f = PoseidonSpec.sum n f + f n.
Proof.
  unfold PoseidonSpec.sum. rewrite seq_S, map_app, fold_right_app. cbn.
  rewrite fold_right_add_init. lia.
Qed.

(** A loop that accumulates a sum of products in the field. *)
Lemma for_loop_sum (body : nat -> Z -> result Z) (f : nat -> Z) (n : nat) :
  (forall j acc, (j < n)%nat -> body j acc = Ok ((acc + f j mod fr.Modulus) mod fr.Modulus)) ->
  for_loop n 0 body 0 = Ok (PoseidonSpec.sum n f mod fr.Modulus).
Proof.
  intros Hbody.
  assert (G : forall k a, (a + k <= n)%nat ->
            for_loop k a body (PoseidonSpec.sum a f mod fr.Modulus)
            = Ok (PoseidonSpec.sum (a + k) f mod fr.Modulus)).
  { induction k as [|k IH]; intros a Hk.
    - rewrite Nat.add_0_r. reflexivity.
    - cbn [for_loop]. rewrite Hbody by lia. cbn.
      rewrite <- Z.add_mod by (vm_compute; discriminate).
      rewrite <- sum_S, IH by lia.
      replace (S a + k)%nat with (a + S k)%nat by lia. reflexivity. }
  apply (G n 0%nat). lia.
Qed.

(** The S-box computes the fifth power. *)
Lemma sBox_pow5 (x : Z) : crypto.sBox x = x ^ 5 mod fr.Modulus.
Proof.
  unfold crypto.sBox, fr.Mul.
  assert (Hp : fr.Modulus <> 0) by (vm_compute; discriminate).
  rewrite <- Z.mul_mod by exact Hp.
  rewrite Z.mul_mod_idemp_l by exact Hp.
  f_equal. ring.
Qed.

(** ** The scalar hash against the specification's algorithm *)

Lemma getFr_prefixed (e : string) :
  prefixed e = true -> exists v, crypto.getFr e = Ok v.
Proof.
  destruct e as [|a [|b r]]; try discriminate.
  intros _. eexists. reflexivity.
Qed.

Lemma entry_lookup (l : list string) (i : nat) :
  (i < length l)%nat -> forallb prefixed l = true ->
  exists e, l !! i = Some e /\ crypto.getFr e = Ok (table_entry l i).
Proof.
  intros Hi Hl.
  destruct (lookup_lt_is_Some_2 l i Hi) as [e He].
  exists e. split; [assumption|].
  assert (Hp : prefixed e = true).
  { rewrite forallb_forall in Hl. apply Hl, list_elem_of_In.
    eapply list_elem_of_lookup_2, He. }
  destruct (getFr_prefixed e Hp) as [v Hv].
  unfold table_entry. rewrite He, Hv. reflexivity.
Qed.

Lemma entry2_lookup (t : nat) (m : list (list string)) (j i : nat) :
  (j < t)%nat -> (i < t)%nat -> (t <= length m)%nat ->
  forallb (fun row => (t <=? length row)%nat && forallb prefixed row) m = true ->
  exists row e,
    m !! j = Some row /\ row !! i = Some e
    /\ crypto.getFr e = Ok (table_entry2 m j i).
Proof.
  intros Hj Hi Hm Hrows.
  destruct (lookup_lt_is_Some_2 m j ltac:(lia)) as [row Hrow].
  rewrite forallb_forall in Hrows.
  specialize (Hrows row). rewrite <- list_elem_of_In in Hrows.
  specialize (Hrows (list_elem_of_lookup_2 _ _ _ Hrow)).
  apply andb_prop in Hrows as [Hlen Hpre]. apply Nat.leb_le in Hlen.
  destruct (entry_lookup row i ltac:(lia) Hpre) as (e & He & Hg).
  exists row, e. repeat split; try assumption.
  unfold table_entry2. rewrite Hrow. assumption.
Qed.

Lemma imap_replicate_seq {A B} (v : nat -> B) (n : nat) (x : A) :
  imap (fun i _ => v i) (replicate n x) = map v (seq 0 n).
Proof.
  apply list_eq. intros j. rewrite list_lookup_imap.
  change (map v (seq 0 n)) with (v <$> seq 0 n). rewrite list_lookup_fmap.
  destruct (Nat.lt_ge_cases j n) as [Hj|Hj].
  - rewrite lookup_replicate_2, lookup_seq_lt by assumption. reflexivity.
  - rewrite (proj1 (lookup_replicate_None n x j) Hj).
    rewrite (lookup_ge_None_2 (seq 0 n) j) by (rewrite length_seq; lia).
    reflexivity.
Qed.

(** The loop that copies the inputs behind the initial zero. *)
Lemma init_state_loop {A} (z0 z : A) (inputs : list A) :
  for_loop (length inputs) 0
    (fun i state => x ← index inputs i; Ok (<[(i + 1)%nat := x]> state))
    (<[0%nat := z0]> (replicate (length inputs + 1) z))
  = Ok (z0 :: inputs).
Proof.
  assert (G : forall n a s,
            length s = length inputs -> (a + n = length inputs)%nat ->
            for_loop n a
              (fun i state => x ← index inputs i; Ok (<[(i + 1)%nat := x]> state))
              (z0 :: s)
            = Ok (z0 :: take a s ++ drop a inputs)).
  { induction n as [|n IH]; intros a s Hs Ha.
    - cbn [for_loop]. rewrite take_ge, drop_ge, app_nil_r by lia. reflexivity.
    - cbn [for_loop].
      destruct (lookup_lt_is_Some_2 inputs a ltac:(lia)) as [x Hx].
      rewrite (index_ok _ _ _ Hx). cbn [mbind result_bind].
      replace (a + 1)%nat with (S a) by lia.
      change (<[S a := x]> (z0 :: s)) with (z0 :: <[a := x]> s).
      rewrite IH by (rewrite ?length_insert; lia).
      do 2 f_equal.
      rewrite (take_S_r (<[a := x]> s) a x) by (apply list_lookup_insert_eq; lia).
      rewrite take_insert_ge by lia.
      rewrite <- app_assoc. cbn [app]. rewrite <- (drop_S inputs x a Hx). reflexivity. }
  replace (length inputs + 1)%nat with (S (length inputs)) by lia.
  cbn [replicate].
  change (<[0%nat := z0]> (z :: replicate (length inputs) z))
    with (z0 :: replicate (length inputs) z).
  rewrite (G (length inputs) 0%nat) by (rewrite ?length_replicate; lia).
  rewrite take_0, drop_0. reflexivity.
Qed.

Lemma index_first (l : list Z) :
  (0 < length l)%nat -> index l 0 = Ok (PoseidonSpec.at_ l 0).
Proof.
  intros H. destruct (lookup_lt_is_Some_2 l 0 H) as [x Hx].
  rewrite (index_ok _ _ _ Hx). unfold PoseidonSpec.at_.
  rewrite (nth_lookup_Some _ _ _ _ Hx). reflexivity.
Qed.

Section scalar_against_spec.

Variables (tb : Tables) (t rp : nat).
Hypothesis Ht : (1 <= t)%nat.
Hypothesis Hrp : nth (t - 2) crypto.nRoundsP 0%nat = rp.
Hypothesis Hwf : wf_tables t tb = true.

Let pp : PoseidonSpec.Params := code_params t tb.
Let rowok : list string -> bool :=
  fun row => (t <=? length row)%nat && forallb prefixed row.

Lemma wf_facts :
  ((8 * t + rp <= length (tab_C tb))%nat /\ forallb prefixed (tab_C tb) = true)
  /\ ((t <= length (tab_M tb))%nat /\ forallb rowok (tab_M tb) = true)
  /\ ((t <= length (tab_P tb))%nat /\ forallb rowok (tab_P tb) = true)
  /\ (((2 * t - 1) * rp <= length (tab_S tb))%nat /\ forallb prefixed (tab_S tb) = true).
Proof.
  pose proof Hwf as H. unfold wf_tables in H. rewrite Hrp in H.
  repeat (apply andb_prop in H as [H ?]).
  rewrite ?Nat.leb_le in *. repeat split; assumption.
Qed.

Lemma sBoxes_spec (st : list Z) :
  length st = t -> crypto.sBoxes t st = Ok (PoseidonSpec.sbox st).
Proof.
  intros Hs. unfold crypto.sBoxes.
  rewrite (for_loop_update_all t _ (fun _ x => x ^ 5 mod PoseidonSpec.p)).
  - f_equal. apply list_eq. intros j. rewrite list_lookup_imap.
    unfold PoseidonSpec.sbox.
    change (map ?f st) with (f <$> st). rewrite list_lookup_fmap. reflexivity.
  - intros i s x _ Hx. rewrite (index_ok _ _ _ Hx). cbn.
    rewrite sBox_pow5. reflexivity.
  - assumption.
Qed.

Lemma ark_spec (st : list Z) (off : nat) :
  length st = t -> (off + t <= 8 * t + rp)%nat ->
  crypto.ark (tab_C tb) t st off = Ok (PoseidonSpec.add_constants pp off st).
Proof.
  intros Hs Hoff. destruct wf_facts as ((HC & HCp) & _).
  unfold crypto.ark, PoseidonSpec.add_constants.
  apply for_loop_update_all; [|assumption].
  intros i s x Hl Hx. pose proof (lookup_lt_Some _ _ _ Hx) as Hi.
  destruct (entry_lookup (tab_C tb) (i + off) ltac:(lia) HCp) as (e & He & Hg).
  rewrite (index_ok _ _ _ Hx). cbn. rewrite (index_ok _ _ _ He). cbn.
  rewrite Hg. cbn. unfold fr.Add. rewrite (Nat.add_comm off i). reflexivity.
Qed.

Lemma mix_spec (st : list Z) (m : list (list string)) :
  length st = t -> (t <= length m)%nat -> forallb rowok m = true ->
  crypto.mix t st m = Ok (PoseidonSpec.mat_mul pp (table_entry2 m) st).
Proof.
  intros Hs Hm Hrows. unfold crypto.mix, PoseidonSpec.mat_mul.
  change (PoseidonSpec.t pp) with t.
  rewrite <- (imap_replicate_seq _ t 0).
  apply for_loop_update_all; [|apply length_replicate].
  intros i s x Hl Hx. pose proof (lookup_lt_Some _ _ _ Hx) as Hi.
  rewrite (for_loop_sum _ (fun j => PoseidonSpec.at_ st j * table_entry2 m j i)).
  - reflexivity.
  - intros j acc Hj.
    destruct (lookup_lt_is_Some_2 st j ltac:(lia)) as [xj Hxj].
    destruct (entry2_lookup t m j i ltac:(lia) ltac:(lia) Hm Hrows)
      as (row & e & Hrow & He & Hg).
    rewrite (index_ok _ _ _ Hxj). cbn. rewrite (index_ok _ _ _ Hrow). cbn.
    rewrite (index_ok _ _ _ He). cbn. rewrite Hg. cbn.
    unfold fr.Add, fr.Mul, PoseidonSpec.at_.
    rewrite (nth_lookup_Some _ _ _ _ Hxj). reflexivity.
Qed.

Lemma mat_mul_length (A : nat -> nat -> Z) (st : list Z) :
  length (PoseidonSpec.mat_mul pp A st) = t.
Proof. unfold PoseidonSpec.mat_mul. rewrite length_map, length_seq. reflexivity. Qed.

Lemma add_constants_length (off : nat) (st : list Z) :
  length (PoseidonSpec.add_constants pp off st) = length st.
Proof. apply length_imap. Qed.

Lemma sbox_length (st : list Z) : length (PoseidonSpec.sbox st) = length st.
Proof. apply length_map. Qed.

Lemma sparse_mix_length (r : nat) (st : list Z) :
  length (PoseidonSpec.sparse_mix pp r st) = t.
Proof.
  unfold PoseidonSpec.sparse_mix. cbn [length].
  rewrite length_map, length_seq. change (PoseidonSpec.t pp) with t. lia.
Qed.

Lemma mixS_spec (st : list Z) (r : nat) :
  length st = t -> (r < rp)%nat ->
  crypto.mixS (tab_S tb) t st r = Ok (PoseidonSpec.sparse_mix pp r st).
Proof.
  intros Hs Hr. destruct wf_facts as (_ & _ & _ & HS & HSp).
  unfold crypto.mixS, PoseidonSpec.sparse_mix. cbv zeta.
  change (PoseidonSpec.t pp) with t.
  replace (t * 2 - 1)%nat with (2 * t - 1)%nat by lia.
  remember ((2 * t - 1) * r)%nat as o eqn:Eo.
  assert (Ho : (o + (2 * t - 1) <= length (tab_S tb))%nat) by (subst o; nia).
  clear Eo.
  rewrite (for_loop_sum _ (fun i => PoseidonSpec.at_ st i * PoseidonSpec.Ss pp (o + i))).
  2:{ intros i acc Hi.
      destruct (lookup_lt_is_Some_2 st i ltac:(lia)) as [xi Hxi].
      destruct (entry_lookup (tab_S tb) (o + i) ltac:(lia) HSp) as (e & He & Hg).
      rewrite (index_ok _ _ _ Hxi). cbn. rewrite (index_ok _ _ _ He). cbn.
      rewrite Hg. cbn. unfold fr.Add, fr.Mul, PoseidonSpec.at_.
      rewrite (nth_lookup_Some _ _ _ _ Hxi). reflexivity. }
  cbn [mbind result_bind].
  set (r0 := PoseidonSpec.sum t _ mod fr.Modulus).
  set (g := fun (i : nat) (_ : Z) =>
              (PoseidonSpec.at_ st i
               + PoseidonSpec.at_ st 0 * PoseidonSpec.Ss pp (o + t + i - 1))
              mod PoseidonSpec.p).
  rewrite (for_loop_update t 1 _ g).
  - f_equal. destruct t as [|t']; [lia|].
    cbn [replicate]. change (<[0%nat := r0]> (0 :: replicate t' 0)) with (r0 :: replicate t' 0).
    rewrite imap_cons. f_equal.
    replace (S t' - 1)%nat with t' by lia.
    apply list_eq. intros j. rewrite list_lookup_imap.
    change (map ?f (seq 1 t')) with (f <$> seq 1 t'). rewrite list_lookup_fmap.
    destruct (Nat.lt_ge_cases j t') as [Hj|Hj].
    + rewrite lookup_replicate_2, lookup_seq_lt by assumption.
      unfold fmap, option_fmap, option_map, compose. nat_tests.
    + rewrite (proj1 (lookup_replicate_None t' 0 j) Hj).
      rewrite (lookup_ge_None_2 (seq 1 t') j) by (rewrite length_seq; lia).
      reflexivity.
  - intros i s x Hi Hl Hx. pose proof (lookup_lt_Some _ _ _ Hx) as Hit.
    destruct (lookup_lt_is_Some_2 st i ltac:(lia)) as [xi Hxi].
    destruct (lookup_lt_is_Some_2 st 0 ltac:(lia)) as [x0 Hx0].
    destruct (entry_lookup (tab_S tb) (o + t + i - 1) ltac:(lia) HSp) as (e & He & Hg).
    rewrite (index_ok _ _ _ Hxi). cbn. rewrite (index_ok _ _ _ Hx0). cbn.
    rewrite (index_ok _ _ _ He). cbn. rewrite Hg. cbn.
    unfold g, fr.Add, fr.Mul, PoseidonSpec.at_.
    rewrite (nth_lookup_Some _ _ _ _ Hxi), (nth_lookup_Some _ _ _ _ Hx0).
    rewrite Z.add_mod_idemp_r by (vm_compute; discriminate). reflexivity.
  - lia.
  - lia.
  - rewrite length_insert, length_replicate. reflexivity.
Qed.

Lemma full_round_spec (st : list Z) (off : nat) (m : list (list string)) :
  length st = t -> (off + t <= 8 * t + rp)%nat ->
  (t <= length m)%nat -> forallb rowok m = true ->
  (state ← crypto.sBoxes t st; state ← crypto.ark (tab_C tb) t state off; crypto.mix t state m)
  = Ok (PoseidonSpec.mat_mul pp (table_entry2 m)
          (PoseidonSpec.add_constants pp off (PoseidonSpec.sbox st))).
Proof.
  intros Hs Hoff Hm Hrows.
  rewrite sBoxes_spec by assumption. cbn [mbind result_bind].
  rewrite ark_spec by (rewrite ?sbox_length; assumption). cbn [mbind result_bind].
  rewrite mix_spec by (rewrite ?add_constants_length, ?sbox_length; assumption).
  reflexivity.
Qed.

Lemma partial_round_spec (st : list Z) (r : nat) :
  length st = t -> (r < rp)%nat ->
  (x ← index st 0;
   let state := <[0%nat := crypto.sBox x]> st in
   x ← index state 0;
   e ← index (tab_C tb) ((8 / 2 + 1) * t + r);
   k ← crypto.getFr e;
   let state := <[0%nat := fr.Add x k]> state in
   crypto.mixS (tab_S tb) t state r)
  = Ok (PoseidonSpec.sparse_mix pp r
          (<[0%nat := (PoseidonSpec.at_ st 0 ^ 5 mod PoseidonSpec.p
                       + PoseidonSpec.Cc pp ((8 / 2 + 1) * t + r)) mod PoseidonSpec.p]> st)).
Proof.
  intros Hs Hr. destruct wf_facts as ((HC & HCp) & _).
  destruct (lookup_lt_is_Some_2 st 0 ltac:(lia)) as [x0 Hx0].
  change (8 / 2 + 1)%nat with 5%nat.
  destruct (entry_lookup (tab_C tb) (5 * t + r) ltac:(lia) HCp) as (e & He & Hg).
  rewrite (index_ok _ _ _ Hx0). cbn [mbind result_bind]. cbv zeta.
  rewrite (index_ok (<[0%nat := crypto.sBox x0]> st) 0 (crypto.sBox x0))
    by (apply list_lookup_insert_eq; lia).
  cbn [mbind result_bind]. rewrite (index_ok _ _ _ He). cbn [mbind result_bind].
  rewrite Hg. cbn [mbind result_bind].
  rewrite list_insert_insert_eq.
  rewrite mixS_spec by (rewrite ?length_insert; assumption).
  unfold fr.Add, PoseidonSpec.at_. rewrite sBox_pow5, (nth_lookup_Some _ _ _ _ Hx0).
  reflexivity.
Qed.

(** The scalar hash computes what the specification's algorithm
    computes. *)
Lemma PoseidonHash_rounds (k : Constants) (inputs : list Z) :
  (length inputs + 1)%nat = t ->
  select k t = Some tb ->
  crypto.nRoundsP !! (t - 2)%nat = Some rp ->
  crypto.PoseidonHash k inputs = Ok (PoseidonSpec.Hash pp inputs).
Proof.
  intros Hlen Hsel Hnr.
  destruct wf_facts as ((HC & HCp) & (HM & HMr) & (HP & HPr) & _).
  unfold crypto.PoseidonHash. cbv zeta.
  rewrite init_state_loop. rewrite Hlen, Hsel.
  rewrite (index_ok _ _ _ Hnr). cbn [mbind result_bind].
  change (8 / 2 - 1)%nat with 3%nat. change (8 / 2)%nat with 4%nat.
  assert (H0 : length (0 :: inputs) = t) by (cbn [length]; lia).
  change fr.SetZero with 0.
  rewrite ark_spec by (assumption || lia). cbn [mbind result_bind].
  (* first half *)
  match goal with
  | |- context [for_loop 3 0%nat ?b ?s0] =>
      destruct (for_loop_rounds (fun l => length l = t) b
                  (fun r st =>
                     PoseidonSpec.mat_mul pp (PoseidonSpec.Mm pp)
                       (PoseidonSpec.add_constants pp ((r + 1) * PoseidonSpec.t pp)
                          (PoseidonSpec.sbox st)))
                  3
                  ltac:(intros r s' Hr Hl; change (PoseidonSpec.t pp) with t; split;
                        [apply full_round_spec; (assumption || nia) | apply mat_mul_length])
                  s0 ltac:(cbv beta; rewrite add_constants_length; assumption))
        as [E1 L1]
  end.
  rewrite E1. cbn [mbind result_bind]. clear E1.
  (* middle round *)
  rewrite sBoxes_spec by assumption. cbn [mbind result_bind].
  rewrite ark_spec by (rewrite ?sbox_length; (assumption || lia)).
  cbn [mbind result_bind].
  rewrite mix_spec by (rewrite ?add_constants_length, ?sbox_length; assumption).
  cbn [mbind result_bind].
  (* partial rounds *)
  match goal with
  | |- context [for_loop rp 0%nat ?b ?s0] =>
      destruct (for_loop_rounds (fun l => length l = t) b
                  (fun r st =>
                     PoseidonSpec.sparse_mix pp r
                       (<[0%nat := (PoseidonSpec.at_ st 0 ^ 5 mod PoseidonSpec.p
                                    + PoseidonSpec.Cc pp ((4 + 1) * PoseidonSpec.t pp + r))
                                   mod PoseidonSpec.p]> st))
                  rp
                  ltac:(intros r s' Hr Hl; change (PoseidonSpec.t pp) with t; split;
                        [apply partial_round_spec; assumption | apply sparse_mix_length])
                  s0 ltac:(cbv beta; apply mat_mul_length))
        as [E2 L2]
  end.
  rewrite E2. cbn [mbind result_bind]. clear E2.
  (* second half *)
  match goal with
  | |- context [for_loop 3 0%nat ?b ?s0] =>
      destruct (for_loop_rounds (fun l => length l = t) b
                  (fun r st =>
                     PoseidonSpec.mat_mul pp (PoseidonSpec.Mm pp)
                       (PoseidonSpec.add_constants pp
                          ((4 + 1) * PoseidonSpec.t pp + PoseidonSpec.R_P pp
                           + r * PoseidonSpec.t pp)
                          (PoseidonSpec.sbox st)))
                  3
                  ltac:(intros r s' Hr Hl; change (PoseidonSpec.t pp) with t;
                        change (PoseidonSpec.R_P pp) with (nth (t - 2) crypto.nRoundsP 0%nat);
                        rewrite Hrp; split;
                        [apply full_round_spec; (assumption || nia) | apply mat_mul_length])
                  s0 L2)
        as [E3 L3]
  end.
  rewrite E3. cbn [mbind result_bind]. clear E3.
  (* final round *)
  rewrite sBoxes_spec by assumption. cbn [mbind result_bind].
  rewrite mix_spec by (rewrite ?sbox_length; assumption).
  cbn [mbind result_bind].
  rewrite index_first by (rewrite mat_mul_length; lia).
  unfold PoseidonSpec.Hash.
  change (PoseidonSpec.R_P pp) with (nth (t - 2) crypto.nRoundsP 0%nat). rewrite Hrp.
  reflexivity.
Qed.

End scalar_against_spec.

Lemma select_cases (k : Constants) (t : nat) (tb : Tables) :
  select k t = Some tb ->
  (t = 2%nat /\ tb = width2 k) \/ (t = 4%nat /\ tb = width4 k)
  \/ (t = 5%nat /\ tb = width5 k).
Proof.
  unfold select.
  destruct t as [|[|[|[|[|[|t]]]]]]; intros H; try discriminate;
    inversion H; subst; auto.
Qed.

Lemma select_supported (k : Constants) (t : nat) :
  (t = 2 \/ t = 4 \/ t = 5)%nat -> exists tb, select k t = Some tb.
Proof. intros [-> | [-> | ->]]; eexists; reflexivity. Qed.

Lemma select_unsupported (k : Constants) (t : nat) :
  ~ (t = 2 \/ t = 4 \/ t = 5)%nat -> select k t = None.
Proof.
  intros H. destruct (select k t) as [tb|] eqn:E; [|reflexivity].
  apply select_cases in E. exfalso. apply H. tauto.
Qed.

Lemma wf_selected (k : Constants) (t : nat) (tb : Tables) :
  wf_constants k = true -> select k t = Some tb -> wf_tables t tb = true.
Proof.
  unfold wf_constants. intros H Hsel.
  apply andb_prop in H as [H H5]. apply andb_prop in H as [H2 H4].
  destruct (select_cases k t tb Hsel) as [[-> ->] | [[-> ->] | [-> ->]]]; assumption.
Qed.

(** With well-formed tables, on a supported width the scalar hash
    returns the value of the specification's algorithm. *)
Lemma PoseidonHash_spec (k : Constants) (inputs : list Z) (tb : Tables) :
  wf_constants k = true ->
  select k (length inputs + 1) = Some tb ->
  crypto.PoseidonHash k inputs
  = Ok (PoseidonSpec.Hash (code_params (length inputs + 1) tb) inputs).
Proof.
  intros Hwf Hsel. pose proof (wf_selected k _ tb Hwf Hsel) as Htb.
  destruct (select_cases k _ tb Hsel) as [[Ht _] | [[Ht _] | [Ht _]]];
    rewrite Ht in Hsel, Htb |- *;
    eapply PoseidonHash_rounds; eauto; try lia; reflexivity.
Qed.

Lemma Hash_range (pp : PoseidonSpec.Params) (inputs : list Z) :
  (1 <= PoseidonSpec.t pp)%nat ->
  0 <= PoseidonSpec.Hash pp inputs < fr.Modulus.
Proof.
  intros Ht.
  assert (H : forall A st,
            0 <= PoseidonSpec.at_ (PoseidonSpec.mat_mul pp A st) 0 < fr.Modulus).
  { intros A st. unfold PoseidonSpec.at_, PoseidonSpec.mat_mul.
    destruct (PoseidonSpec.t pp) as [|t']; [lia|].
    cbn [seq map nth]. change PoseidonSpec.p with fr.Modulus.
    apply Z.mod_pos_bound. vm_compute. reflexivity. }
  apply H.
Qed.

(** ** The parameters of the specification against what the code reads *)

Lemma R_P_of_code (width : nat) :
  nth (width - 2) crypto.nRoundsP 0%nat = PoseidonSpec.R_P_of width.
Proof. reflexivity. Qed.

Lemma hex_digit_digit (c : ascii) (d : Z) :
  PoseidonSpec.hex_digit c = Some d ->
  bigint.digit (Z.of_nat (nat_of_ascii c)) = d
  /\ 0 <= d < 16
  /\ Z.of_nat (nat_of_ascii c) <> 45
  /\ Z.of_nat (nat_of_ascii c) <> 43.
Proof.
  destruct c as [[] [] [] [] [] [] [] []]; intros E; vm_compute in E;
    try discriminate E; inversion E; subst d; vm_compute;
    repeat split; try reflexivity; intros H; discriminate H.
Qed.

Lemma scan_hex_digits (s : string) (acc : Z) (count : nat) (v : Z) :
  PoseidonSpec.hex_digits s acc = Some v ->
  bigint.scan 16 (gobytes.of_string s) acc count
  = (v, (count + String.length s)%nat, []).
Proof.
  revert acc count. induction s as [|c r IH]; intros acc count E.
  - cbn in E. inversion E; subst. cbn. rewrite Nat.add_0_r. reflexivity.
  - cbn [PoseidonSpec.hex_digits] in E.
    destruct (PoseidonSpec.hex_digit c) as [d|] eqn:Hd; [|discriminate].
    destruct (hex_digit_digit c d Hd) as (Hdig & Hr & _ & _).
    cbn [gobytes.of_string bigint.scan String.length]. rewrite Hdig.
    destruct (Z.ltb_spec d 16); [|lia].
    rewrite (IH _ _ E). f_equal. f_equal. lia.
Qed.

(** A hex string denotes what [getFr] makes of it. *)
Lemma getFr_constant (e : string) (v : Z) :
  PoseidonSpec.constant e = Some v -> crypto.getFr e = Ok v.
Proof.
  unfold PoseidonSpec.constant.
  destruct e as [|a [|b [|c r]]]; try discriminate.
  destruct (Ascii.eqb a "0" && Ascii.eqb b "x"); [|discriminate].
  destruct (PoseidonSpec.hex_digits (String c r) 0) as [v'|] eqn:Hv; [|discriminate].
  intros E. inversion E; subst v. clear E.
  unfold crypto.getFr, skip_prefix. cbn [mbind result_bind].
  pose proof (scan_hex_digits _ _ 0 _ Hv) as Hscan.
  pose proof Hv as Hv0. cbn [PoseidonSpec.hex_digits] in Hv0.
  destruct (PoseidonSpec.hex_digit c) as [d|] eqn:Hd; [|discriminate].
  destruct (hex_digit_digit c d Hd) as (_ & _ & H45 & H43).
  unfold bigint.SetString. cbn [gobytes.of_string] in Hscan |- *.
  destruct (Z.eqb_spec (Z.of_nat (nat_of_ascii c)) 45); [contradiction|].
  destruct (Z.eqb_spec (Z.of_nat (nat_of_ascii c)) 43); [contradiction|].
  cbn [orb]. rewrite Hscan. reflexivity.
Qed.

Lemma constant_prefixed (e : string) :
  PoseidonSpec.is_constant e = true -> prefixed e = true.
Proof.
  unfold PoseidonSpec.is_constant, PoseidonSpec.constant.
  destruct e as [|a [|b [|c r]]]; try discriminate. reflexivity.
Qed.

Lemma forallb_weaken {A} (f g : A -> bool) (l : list A) :
  (forall x, f x = true -> g x = true) -> forallb f l = true -> forallb g l = true.
Proof.
  intros H. rewrite !forallb_forall. intros Hf x Hx. apply H, Hf, Hx.
Qed.

Lemma table_entry_vector (l : list string) (i : nat) :
  forallb PoseidonSpec.is_constant l = true ->
  table_entry l i = PoseidonSpec.vector l i.
Proof.
  intros Hl. unfold table_entry, PoseidonSpec.vector.
  destruct (l !! i) as [e|] eqn:He; [|reflexivity].
  rewrite forallb_forall in Hl.
  specialize (Hl e ltac:(apply list_elem_of_In; eapply list_elem_of_lookup_2; exact He)).
  unfold PoseidonSpec.is_constant in Hl.
  destruct (PoseidonSpec.constant e) as [v|] eqn:Hc; [|discriminate].
  rewrite (getFr_constant e v Hc). reflexivity.
Qed.

Lemma table_entry2_matrix (width : nat) (m : list (list string)) (j i : nat) :
  PoseidonSpec.square width m = true ->
  table_entry2 m j i = PoseidonSpec.matrix m j i.
Proof.
  unfold PoseidonSpec.square. intros Hm. apply andb_true_iff in Hm as [_ Hm].
  unfold table_entry2, PoseidonSpec.matrix.
  destruct (m !! j) as [row|] eqn:Hr; [|reflexivity].
  rewrite forallb_forall in Hm.
  specialize (Hm row ltac:(apply list_elem_of_In; eapply list_elem_of_lookup_2; exact Hr)).
  apply andb_true_iff in Hm as [_ Hm]. apply table_entry_vector, Hm.
Qed.

Lemma square_wf (width : nat) (m : list (list string)) :
  PoseidonSpec.square width m = true ->
  (width <=? length m)%nat
  && forallb (fun row => (width <=? length row)%nat && forallb prefixed row) m = true.
Proof.
  unfold PoseidonSpec.square. intros H. apply andb_true_iff in H as [Hl Hr].
  apply Nat.eqb_eq in Hl. apply andb_true_iff. split; [apply Nat.leb_le; lia|].
  revert Hr. apply forallb_weaken. intros row Hrow.
  apply andb_true_iff in Hrow as [Hn Hc]. apply Nat.eqb_eq in Hn.
  apply andb_true_iff. split; [apply Nat.leb_le; lia|].
  revert Hc. apply forallb_weaken, constant_prefixed.
Qed.

Lemma well_formed_wf (width : nat) (tb : Tables) :
  PoseidonSpec.well_formed width tb = true -> wf_tables width tb = true.
Proof.
  unfold PoseidonSpec.well_formed, wf_tables. cbv zeta. rewrite R_P_of_code.
  unfold PoseidonSpec.full_rounds.
  rewrite !andb_true_iff. intros (((((HC & HCc) & HM) & HP) & HS) & HSc).
  apply Nat.eqb_eq in HC, HS.
  apply square_wf in HM, HP. apply andb_true_iff in HM as [HM1 HM2], HP as [HP1 HP2].
  repeat split; try assumption.
  - apply Nat.leb_le. lia.
  - revert HCc. apply forallb_weaken, constant_prefixed.
  - apply Nat.leb_le. lia.
  - revert HSc. apply forallb_weaken, constant_prefixed.
Qed.

Lemma tables_ok_wf (k : Constants) :
  PoseidonSpec.tables_ok k = true -> wf_constants k = true.
Proof.
  unfold PoseidonSpec.tables_ok, wf_constants. rewrite !andb_true_iff.
  intros [[H2 H4] H5]. repeat split; apply well_formed_wf; assumption.
Qed.

Lemma tables_ok_selected (k : Constants) (width : nat) (tb : Tables) :
  PoseidonSpec.tables_ok k = true -> select k width = Some tb ->
  PoseidonSpec.well_formed width tb = true.
Proof.
  unfold PoseidonSpec.tables_ok. rewrite !andb_true_iff. intros [[H2 H4] H5] Hsel.
  destruct (select_cases k width tb Hsel) as [[-> ->] | [[-> ->] | [-> ->]]];
    assumption.
Qed.

(** The round sequence reads its parameters only through their entries. *)
Lemma sum_ext (n : nat) (f g : nat -> Z) :
  (forall i, f i = g i) -> PoseidonSpec.sum n f = PoseidonSpec.sum n g.
Proof.
  intros H. unfold PoseidonSpec.sum. f_equal. apply map_ext. exact H.
Qed.

Lemma rounds_ext (n : nat) (f g : nat -> list Z -> list Z) (state : list Z) :
  (forall r st, f r st = g r st) ->
  PoseidonSpec.rounds n f state = PoseidonSpec.rounds n g state.
Proof.
  intros H. unfold PoseidonSpec.rounds. revert state.
  induction (seq 0 n) as [|r l IH]; intros state; [reflexivity|].
  cbn [fold_left]. rewrite H. apply IH.
Qed.

Lemma Hash_ext (pp pp' : PoseidonSpec.Params) (inputs : list Z) :
  PoseidonSpec.t pp = PoseidonSpec.t pp' ->
  PoseidonSpec.R_F pp = PoseidonSpec.R_F pp' ->
  PoseidonSpec.R_P pp = PoseidonSpec.R_P pp' ->
  (forall i, PoseidonSpec.Cc pp i = PoseidonSpec.Cc pp' i) ->
  (forall j i, PoseidonSpec.Mm pp j i = PoseidonSpec.Mm pp' j i) ->
  (forall j i, PoseidonSpec.Pm pp j i = PoseidonSpec.Pm pp' j i) ->
  (forall i, PoseidonSpec.Ss pp i = PoseidonSpec.Ss pp' i) ->
  PoseidonSpec.Hash pp inputs = PoseidonSpec.Hash pp' inputs.
Proof.
  intros Ht HF HR HC HM HP HS.
  assert (Ea : forall off st,
             PoseidonSpec.add_constants pp off st = PoseidonSpec.add_constants pp' off st).
  { intros off st. unfold PoseidonSpec.add_constants.
    apply imap_ext. intros i x _. rewrite HC. reflexivity. }
  assert (Em : forall A A' st st', (forall j i, A j i = A' j i) -> st = st' ->
             PoseidonSpec.mat_mul pp A st = PoseidonSpec.mat_mul pp' A' st').
  { intros A A' st st' HA <-. unfold PoseidonSpec.mat_mul. rewrite <- Ht.
    apply map_ext. intros i. f_equal. apply sum_ext. intros j. rewrite HA. reflexivity. }
  assert (Es : forall r st,
             PoseidonSpec.sparse_mix pp r st = PoseidonSpec.sparse_mix pp' r st).
  { intros r st. unfold PoseidonSpec.sparse_mix. cbv zeta. rewrite <- Ht. f_equal.
    - f_equal. apply sum_ext. intros i. rewrite HS. reflexivity.
    - apply map_ext. intros i. rewrite HS. reflexivity. }
  assert (Er : forall n f g st st',
             (forall r s, f r s = g r s) -> st = st' ->
             PoseidonSpec.rounds n f st = PoseidonSpec.rounds n g st').
  { intros n f g st st' H <-. apply rounds_ext, H. }
  unfold PoseidonSpec.Hash. cbv zeta. rewrite <- Ht, <- HF, <- HR.
  f_equal. apply Em; [exact HM|]. f_equal.
  apply Er; [intros r st; apply Em; [exact HM|]; apply Ea|].
  apply Er; [intros r st; rewrite HC; apply Es|].
  apply Em; [exact HP|]. rewrite Ea. f_equal. f_equal.
  apply Er; [intros r st; apply Em; [exact HM|]; apply Ea|].
  apply Ea.
Qed.

(** C4.  When the constant tables are those of PoseidonParams(t) (R_F = 8,
    R_P from the table of partial-round counts, hex strings of the given
    sizes), the scalar hash returns on every supported width exactly the
    value of the round sequence of the specification ([PoseidonSpec.Hash]
    on state [0, in_0, ...]: initial ark, R_F/2 − 1 full rounds with M,
    the middle round with P, R_P partial rounds with the sparse mix,
    R_F/2 − 1 more full rounds, the final S-box layer and mix, state[0];
    dense products column-major), with the round counts and the constants
    as the specification gives them. *)
Theorem C4_scalar_hash_follows_the_round_sequence (k : Constants)
    (inputs : list Z) (tb : Tables) :
  PoseidonSpec.tables_ok k = true ->
  select k (length inputs + 1) = Some tb ->
  crypto.PoseidonHash k inputs
  = Ok (PoseidonSpec.Hash (PoseidonSpec.PoseidonParams (length inputs + 1) tb) inputs).
Proof.
  intros Hok Hsel.
  pose proof (tables_ok_selected _ _ _ Hok Hsel) as Hwf.
  rewrite (PoseidonHash_spec k inputs tb (tables_ok_wf k Hok) Hsel).
  f_equal.
  unfold PoseidonSpec.well_formed in Hwf. rewrite !andb_true_iff in Hwf.
  destruct Hwf as (((((_ & HCc) & HM) & HP) & _) & HSc).
  apply Hash_ext; try reflexivity.
  - intros i. apply table_entry_vector, HCc.
  - intros j i. apply (table_entry2_matrix _ _ _ _ HM).
  - intros j i. apply (table_entry2_matrix _ _ _ _ HP).
  - intros i. apply table_entry_vector, HSc.
Qed.

(** C6 (as the code has it).  With well-formed constant tables the scalar
    hash returns a field element for every list of 1, 3 or 4 inputs, and
    for every other length (2 included) it fails with the
    unsupported-width error; it has no other outcome. *)
Theorem C6_hash_succeeds_exactly_on_widths_2_4_5 (k : Constants) (inputs : list Z) :
  wf_constants k = true ->
  let n := length inputs in
  ((n = 1 \/ n = 3 \/ n = 4)%nat ->
     exists v, crypto.PoseidonHash k inputs = Ok v /\ 0 <= v < fr.Modulus)
  /\ (~ (n = 1 \/ n = 3 \/ n = 4)%nat ->
      crypto.PoseidonHash k inputs
      = Err ("unsupported number of inputs: " +:+ bigint.itoa (Z.of_nat n)
             +:+ " (t=" +:+ bigint.itoa (Z.of_nat (n + 1)) +:+ ")")).
Proof.
  intros Hwf n. split.
  - intros Hn.
    destruct (select_supported k (n + 1)) as [tb Hsel]; [lia|].
    eexists. split; [apply (PoseidonHash_spec k inputs tb Hwf Hsel)|].
    apply Hash_range. cbn. lia.
  - intros Hn. unfold crypto.PoseidonHash. cbv zeta. fold n.
    rewrite select_unsupported by lia. reflexivity.
Qed.

Lemma C4_scalar_hash_follows_the_round_sequence_witness :
  PoseidonSpec.tables_ok sample.constants = true
  /\ select sample.constants (length [1] + 1) = Some (sample.tables 2)
  /\ crypto.PoseidonHash sample.constants [1]
     = Ok (PoseidonSpec.Hash
             (PoseidonSpec.PoseidonParams (length [1] + 1) (sample.tables 2)) [1]).
Proof.
  split; [vm_compute; reflexivity|]. split; [reflexivity|].
  apply (C4_scalar_hash_follows_the_round_sequence sample.constants [1] (sample.tables 2));
    [vm_compute; reflexivity | reflexivity].
Defined.

Lemma C6_hash_succeeds_exactly_on_widths_2_4_5_witness :
  wf_constants sample.constants = true
  /\ ((length [1; 2; 3] = 1 \/ length [1; 2; 3] = 3 \/ length [1; 2; 3] = 4)%nat ->
      exists v, crypto.PoseidonHash sample.constants [1; 2; 3] = Ok v
                /\ 0 <= v < fr.Modulus)
  /\ (~ (length [1; 2; 3] = 1 \/ length [1; 2; 3] = 3 \/ length [1; 2; 3] = 4)%nat ->
      crypto.PoseidonHash sample.constants [1; 2; 3]
      = Err ("unsupported number of inputs: " +:+ bigint.itoa (Z.of_nat (length [1; 2; 3]))
             +:+ " (t=" +:+ bigint.itoa (Z.of_nat (length [1; 2; 3] + 1)) +:+ ")")).
Proof.
  split; [vm_compute; reflexivity|].
  apply (C6_hash_succeeds_exactly_on_widths_2_4_5 sample.constants [1; 2; 3]).
  vm_compute. reflexivity.
Defined.

(** C6 (counterexample).  Two inputs are an arity the contract lists
    (n ∈ {1,2,3,4}), the tables are well formed, and the hash fails: the
    width t = 3 has no parameters. *)
Lemma C6_two_inputs_are_rejected :
  wf_constants sample.constants = true
  /\ length [1; 2] = 2%nat
  /\ crypto.PoseidonHash sample.constants [1; 2]
     = Err "unsupported number of inputs: 2 (t=3)".
Proof. vm_compute. repeat split. Qed.

(** ** The in-circuit hash against the scalar hash *)

Lemma bind_congr {A B} (m1 m2 : result A) (k1 k2 : A -> result B) :
  m1 = m2 -> (forall a, k1 a = k2 a) -> (m1 ≫= k1) = (m2 ≫= k2).
Proof. intros -> H. destruct m2; cbn; auto. Qed.

Ltac same_lookups :=
  unfold index, poseidon.hexInt, crypto.getFr, skip_prefix, mbind, result_bind;
  repeat case_match; simplify_eq; try reflexivity.

Section circuit_against_scalar.

Variables (t rf rp : nat) (c : list string) (m p : list (list string)) (s : list string).

Let h : poseidon.Hasher := poseidon.MkHasher (poseidon.MkParameters t rf rp c m p s).

Lemma circuit_sBoxes (st : list Z) : poseidon.sBoxes h st = crypto.sBoxes t st.
Proof. reflexivity. Qed.

Lemma circuit_ark (st : list Z) (off : nat) :
  poseidon.arkAtOffset h st off = crypto.ark c t st off.
Proof.
  unfold poseidon.arkAtOffset, crypto.ark. cbn [poseidon.T poseidon.C poseidon.params h].
  apply for_loop_ext. intros i st'. rewrite (Nat.add_comm off i). same_lookups.
Qed.

Lemma circuit_mix (st : list Z) (matrix : list (list string)) :
  poseidon.mix h st matrix = crypto.mix t st matrix.
Proof.
  unfold poseidon.mix, crypto.mix. cbn [poseidon.T poseidon.params h].
  change (@poseidon.api_Const Z poseidon.field_gates 0) with 0.
  apply for_loop_ext. intros i res.
  apply bind_congr; [|reflexivity].
  apply for_loop_ext. intros j acc. same_lookups.
Qed.

Lemma circuit_mixS (st : list Z) (r : nat) :
  poseidon.mixS h st r = crypto.mixS s t st r.
Proof.
  unfold poseidon.mixS, crypto.mixS.
  cbn [poseidon.T poseidon.S poseidon.params h]. cbv zeta.
  change (@poseidon.api_Const Z poseidon.field_gates 0) with 0.
  apply bind_congr.
  - apply for_loop_ext. intros i acc. same_lookups.
  - intros r0. apply for_loop_ext. intros i res. same_lookups.
Qed.

End circuit_against_scalar.

Ltac full_round_step :=
  apply bind_congr; [apply circuit_sBoxes | intros ?];
  apply bind_congr; [apply circuit_ark | intros ?];
  apply circuit_mix.

(** On a supported width the in-circuit hash, its gates evaluated in the
    field, and the scalar hash are the same function of the tables and of
    the inputs. *)
Lemma circuit_hash_eq_scalar (k : Constants) (inputs : list Z) :
  (length inputs = 1 \/ length inputs = 3 \/ length inputs = 4)%nat ->
  (h ← poseidon.NewHasher k (length inputs); poseidon.Hash h inputs)
  = crypto.PoseidonHash k inputs.
Proof.
  intros Hn.
  destruct (select_supported k (length inputs + 1)) as [tb Hsel]; [lia|].
  unfold poseidon.NewHasher, poseidon.GetParams, crypto.PoseidonHash. cbv zeta.
  rewrite Hsel. fold crypto.nRoundsP.
  assert (Hrp : exists rp, index crypto.nRoundsP (length inputs + 1 - 2) = Ok rp).
  { destruct Hn as [-> | [-> | ->]]; eexists; reflexivity. }
  destruct Hrp as [rp ->]. cbn [mbind result_bind].
  unfold poseidon.Hash.
  cbn [poseidon.T poseidon.NRoundsF poseidon.NRoundsP poseidon.C poseidon.M poseidon.P
       poseidon.S poseidon.params].
  replace (length inputs + 1 - 1)%nat with (length inputs) by lia.
  rewrite Nat.eqb_refl. cbn [negb]. cbv zeta.
  apply bind_congr; [reflexivity | intros st0].
  apply bind_congr; [apply circuit_ark | intros st1].
  apply bind_congr;
    [apply for_loop_ext; intros r st; full_round_step | intros st2].
  apply bind_congr; [apply circuit_sBoxes | intros st3].
  apply bind_congr; [apply circuit_ark | intros st4].
  apply bind_congr; [apply circuit_mix | intros st5].
  apply bind_congr;
    [ apply for_loop_ext; intros r st;
      change (@poseidon.sBox Z poseidon.field_gates) with crypto.sBox;
      same_lookups; apply circuit_mixS
    | intros st6 ].
  apply bind_congr;
    [apply for_loop_ext; intros r st; full_round_step | intros st7].
  apply bind_congr; [apply circuit_sBoxes | intros st8].
  apply bind_congr; [apply circuit_mix | intros st9].
  reflexivity.
Qed.

Example poseidon_sample_values :
  crypto.PoseidonHash sample.constants [1]
  = Ok 14697992158834686168592358563321617875998150488588835332906356247975528952390
  /\ (h ← poseidon.NewHasher sample.constants 1;
      @poseidon.Hash Z poseidon.field_gates h [1])
     = Ok 14697992158834686168592358563321617875998150488588835332906356247975528952390
  /\ PoseidonSpec.Hash (code_params 2 (sample.tables 2)) [1]
     = 14697992158834686168592358563321617875998150488588835332906356247975528952390.
Proof. vm_compute. repeat split. Qed.

(** ** The fuel of the digit loops is enough *)

Lemma fuel_covers (n : Z) :
  0 < n -> n < 2 ^ Z.of_nat (Z.to_nat (Z.log2 n) + 1).
Proof.
  intros Hn. pose proof (Z.log2_spec n Hn) as [_ H].
  pose proof (Z.log2_nonneg n).
  rewrite Nat2Z.inj_add, Z2Nat.id by assumption.
  change (Z.of_nat 1) with 1. rewrite <- Z.add_1_r in H. exact H.
Qed.

(** More fuel does not change what the base-27 loop returns: with the
    fuel [Base27] gives it, the loop runs until the number is used up. *)
Lemma base27_digits_stable (fuel extra : nat) (n : Z) (acc : list ascii) :
  n < 2 ^ Z.of_nat fuel ->
  utils.base27_digits (fuel + extra) n acc = utils.base27_digits fuel n acc.
Proof.
  revert n acc. induction fuel as [|fuel IH]; intros n acc Hn.
  - change (2 ^ Z.of_nat 0) with 1 in Hn.
    destruct extra as [|extra]; [reflexivity|].
    cbn [Nat.add utils.base27_digits].
    destruct (Z.ltb_spec 0 n); [lia | reflexivity].
  - cbn [Nat.add utils.base27_digits].
    destruct (Z.ltb_spec 0 n); [|reflexivity].
    apply IH. rewrite Nat2Z.inj_succ, Z.pow_succ_r in Hn by lia.
    apply Z.div_lt_upper_bound; lia.
Qed.

Lemma Base27_fuel_enough (n : Z) (extra : nat) :
  0 < n ->
  utils.base27_digits (Z.to_nat (Z.log2 n) + 1 + extra) n []
  = utils.base27_digits (Z.to_nat (Z.log2 n) + 1) n [].
Proof. intros Hn. apply base27_digits_stable, fuel_covers, Hn. Qed.

(** The same for the decimal rendering. *)
Lemma digits_stable (fuel extra : nat) (n : Z) (acc : string) :
  (1 <= fuel)%nat -> 0 <= n < 2 ^ Z.of_nat fuel ->
  bigint.digits (fuel + extra) n acc = bigint.digits fuel n acc.
Proof.
  revert n acc. induction fuel as [|fuel IH]; intros n acc Hf Hn; [lia|].
  cbn [Nat.add bigint.digits].
  destruct (Z.ltb_spec n 10); [reflexivity|].
  rewrite Nat2Z.inj_succ, Z.pow_succ_r in Hn by lia.
  assert (Hfuel : (1 <= fuel)%nat).
  { destruct fuel; [|lia]. change (2 ^ Z.of_nat 0) with 1 in Hn. lia. }
  apply IH; [assumption|].
  split; [apply Z.div_pos; lia | apply Z.div_lt_upper_bound; lia].
Qed.

(** ** The compiled circuit evaluated on a witness *)

Lemma bind_natural {A A' B B'} (f : A -> A') (g : B -> B')
    (m : result A) (m' : result A') (k : A -> result B) (k' : A' -> result B') :
  result_map f m = m' ->
  (forall a, result_map g (k a) = k' (f a)) ->
  result_map g (m ≫= k) = (m' ≫= k').
Proof. intros <- H. destruct m; cbn; auto. Qed.

Lemma bind_natural_same {A B B'} (g : B -> B')
    (m : result A) (k : A -> result B) (k' : A -> result B') :
  (forall a, result_map g (k a) = k' a) ->
  result_map g (m ≫= k) = (m ≫= k').
Proof. intros H. destruct m; cbn; auto. Qed.

Lemma for_loop_natural {St St'} (F : St -> St') (body : nat -> St -> result St)
    (body' : nat -> St' -> result St') (n a : nat) (s : St) (s' : St') :
  F s = s' ->
  (forall i s, result_map F (body i s) = body' i (F s)) ->
  result_map F (for_loop n a body s) = for_loop n a body' s'.
Proof.
  intros <- H. revert a s. induction n as [|n IH]; intros a s; [reflexivity|].
  cbn [for_loop]. apply (bind_natural F F); [apply H | intros s1; apply IH].
Qed.

Lemma index_natural {A B} (f : A -> B) (l : list A) (i : nat) :
  result_map f (index l i) = index (f <$> l) i.
Proof. unfold index. rewrite list_lookup_fmap. destruct (l !! i); reflexivity. Qed.

Section circuit_evaluation.

Variables (assignment : list Z) (h : poseidon.Hasher).

Let ev : poseidon.wire -> Z := poseidon.eval assignment.

Lemma ev_zero : ev (poseidon.api_Const 0) = @poseidon.api_Const Z poseidon.field_gates 0.
Proof. reflexivity. Qed.

Lemma sBoxes_natural (ws : list poseidon.wire) :
  result_map (fmap ev) (poseidon.sBoxes h ws) = poseidon.sBoxes h (ev <$> ws).
Proof.
  unfold poseidon.sBoxes. apply for_loop_natural; [reflexivity|].
  intros i s. apply (bind_natural ev (fmap ev)); [apply index_natural|].
  intros x. cbn [result_map]. rewrite list_fmap_insert. reflexivity.
Qed.

Lemma arkAtOffset_natural (ws : list poseidon.wire) (off : nat) :
  result_map (fmap ev) (poseidon.arkAtOffset h ws off)
  = poseidon.arkAtOffset h (ev <$> ws) off.
Proof.
  unfold poseidon.arkAtOffset. apply for_loop_natural; [reflexivity|].
  intros i s. apply bind_natural_same. intros e.
  apply bind_natural_same. intros c.
  apply (bind_natural ev (fmap ev)); [apply index_natural|].
  intros x. cbn [result_map]. rewrite list_fmap_insert. reflexivity.
Qed.

Lemma mix_natural (ws : list poseidon.wire) (matrix : list (list string)) :
  result_map (fmap ev) (poseidon.mix h ws matrix) = poseidon.mix h (ev <$> ws) matrix.
Proof.
  unfold poseidon.mix. apply for_loop_natural; [rewrite fmap_replicate, ev_zero; reflexivity|].
  intros i res. apply (bind_natural ev (fmap ev)).
  - apply for_loop_natural; [apply ev_zero|].
    intros j acc. apply bind_natural_same. intros row.
    apply bind_natural_same. intros e. apply bind_natural_same. intros m.
    apply (bind_natural ev ev); [apply index_natural|].
    intros x. reflexivity.
  - intros acc. cbn [result_map]. rewrite list_fmap_insert. reflexivity.
Qed.

Lemma mixS_natural (ws : list poseidon.wire) (r : nat) :
  result_map (fmap ev) (poseidon.mixS h ws r) = poseidon.mixS h (ev <$> ws) r.
Proof.
  unfold poseidon.mixS. cbv zeta. apply (bind_natural ev (fmap ev)).
  - apply for_loop_natural; [apply ev_zero|].
    intros i acc. apply bind_natural_same. intros e.
    apply bind_natural_same. intros s.
    apply (bind_natural ev ev); [apply index_natural|].
    intros x. reflexivity.
  - intros acc. apply for_loop_natural.
    + rewrite list_fmap_insert, fmap_replicate, ev_zero. reflexivity.
    + intros i res. apply bind_natural_same. intros e.
      apply bind_natural_same. intros s.
      apply (bind_natural ev (fmap ev)); [apply index_natural|]. intros x0.
      apply (bind_natural ev (fmap ev)); [apply index_natural|]. intros x.
      cbn [result_map]. rewrite list_fmap_insert. reflexivity.
Qed.

Ltac natural_full_round :=
  apply (bind_natural (fmap ev) (fmap ev)); [apply sBoxes_natural | intros ?];
  apply (bind_natural (fmap ev) (fmap ev)); [apply arkAtOffset_natural | intros ?];
  apply mix_natural.

(** Building the circuit and evaluating it is evaluating the gates. *)
Lemma Hash_natural (ws : list poseidon.wire) :
  result_map ev (poseidon.Hash h ws) = poseidon.Hash h (ev <$> ws).
Proof.
  unfold poseidon.Hash. rewrite length_fmap.
  destruct (negb _); [reflexivity|]. cbv zeta.
  apply (bind_natural (fmap ev) ev).
  { apply for_loop_natural.
    - rewrite list_fmap_insert, fmap_replicate, ev_zero. reflexivity.
    - intros i st. apply (bind_natural ev (fmap ev)); [apply index_natural|].
      intros x. cbn [result_map]. rewrite list_fmap_insert. reflexivity. }
  intros st0.
  apply (bind_natural (fmap ev) ev); [apply arkAtOffset_natural | intros st1].
  apply (bind_natural (fmap ev) ev);
    [apply for_loop_natural; [reflexivity | intros r st; natural_full_round] | intros st2].
  apply (bind_natural (fmap ev) ev); [apply sBoxes_natural | intros st3].
  apply (bind_natural (fmap ev) ev); [apply arkAtOffset_natural | intros st4].
  apply (bind_natural (fmap ev) ev); [apply mix_natural | intros st5].
  apply (bind_natural (fmap ev) ev).
  { apply for_loop_natural; [reflexivity|]. intros r st.
    apply (bind_natural ev (fmap ev)); [apply index_natural | intros x].
    apply bind_natural_same. intros e. apply bind_natural_same. intros c.
    change (poseidon.sBox (ev x)) with (ev (poseidon.sBox x)).
    rewrite <- list_fmap_insert.
    apply (bind_natural ev (fmap ev)); [apply index_natural | intros x'].
    change (poseidon.api_Add (ev x') (poseidon.api_Const c))
      with (ev (poseidon.api_Add x' (poseidon.api_Const c))).
    rewrite <- list_fmap_insert. apply mixS_natural. }
  intros st6.
  apply (bind_natural (fmap ev) ev);
    [apply for_loop_natural; [reflexivity | intros r st; natural_full_round] | intros st7].
  apply (bind_natural (fmap ev) ev); [apply sBoxes_natural | intros st8].
  apply (bind_natural (fmap ev) ev); [apply mix_natural | intros st9].
  apply index_natural.
Qed.

End circuit_evaluation.

Lemma eval_inputs_of (values : list Z) :
  poseidon.eval values <$> poseidon.inputs_of (length values) = values.
Proof.
  unfold poseidon.inputs_of. apply list_eq. intros i.
  change (map ?f ?l) with (f <$> l). rewrite !list_lookup_fmap.
  destruct (Nat.lt_ge_cases i (length values)) as [Hi|Hi].
  - rewrite lookup_seq_lt by assumption. cbn.
    destruct (lookup_lt_is_Some_2 values i Hi) as [x Hx].
    rewrite Hx, (nth_lookup_Some _ _ _ _ Hx). reflexivity.
  - rewrite (lookup_ge_None_2 (seq 0 (length values))) by (rewrite length_seq; lia).
    rewrite (lookup_ge_None_2 values) by lia. reflexivity.
Qed.

Lemma inputs_of_length (n : nat) : length (poseidon.inputs_of n) = n.
Proof. unfold poseidon.inputs_of. rewrite length_map, length_seq. reflexivity. Qed.

(** C3.  When both packages are given the same, well-formed constant
    tables, then for every input list of a supported arity the scalar
    hash and the in-circuit hash return the same field element: the
    circuit the hasher emits over its input wires, evaluated on the
    inputs, and the hasher run on the gates' evaluation in the field both
    give the value of the scalar hash. *)
Theorem C3_scalar_and_circuit_hash_agree (crypto_tables poseidon_tables : Constants)
    (inputs : list Z) :
  crypto_tables = poseidon_tables ->
  wf_constants crypto_tables = true ->
  (length inputs = 1 \/ length inputs = 3 \/ length inputs = 4)%nat ->
  exists (v : Z) (circ : poseidon.wire),
    0 <= v < fr.Modulus
    /\ crypto.PoseidonHash crypto_tables inputs = Ok v
    /\ (h ← poseidon.NewHasher poseidon_tables (length inputs);
        @poseidon.Hash poseidon.wire poseidon.circuit_gates h
          (poseidon.inputs_of (length inputs))) = Ok circ
    /\ poseidon.eval inputs circ = v
    /\ (h ← poseidon.NewHasher poseidon_tables (length inputs);
        @poseidon.Hash Z poseidon.field_gates h inputs) = Ok v.
Proof.
  intros <- Hwf Hn.
  destruct (select_supported crypto_tables (length inputs + 1)) as [tb Hsel]; [lia|].
  pose proof (PoseidonHash_spec crypto_tables inputs tb Hwf Hsel) as Hs.
  pose proof (circuit_hash_eq_scalar crypto_tables inputs Hn) as Hc.
  rewrite Hs in Hc.
  set (v := PoseidonSpec.Hash _ inputs) in *.
  destruct (poseidon.NewHasher crypto_tables (length inputs)) as [h| |];
    cbn [mbind result_bind] in Hc |- *; try discriminate.
  pose proof (Hash_natural inputs h (poseidon.inputs_of (length inputs))) as Hnat.
  rewrite eval_inputs_of, Hc in Hnat.
  destruct (poseidon.Hash h (poseidon.inputs_of (length inputs))) as [circ| |];
    cbn [result_map] in Hnat; try discriminate.
  exists v, circ. injection Hnat as Hev.
  repeat split; try assumption; try reflexivity;
    apply (Hash_range _ inputs); cbn; lia.
Qed.

Lemma C3_scalar_and_circuit_hash_agree_witness :
  wf_constants sample.constants = true
  /\ (length [5; 6; 7; 8] = 1 \/ length [5; 6; 7; 8] = 3 \/ length [5; 6; 7; 8] = 4)%nat
  /\ exists (v : Z) (circ : poseidon.wire),
       0 <= v < fr.Modulus
       /\ crypto.PoseidonHash sample.constants [5; 6; 7; 8] = Ok v
       /\ (h ← poseidon.NewHasher sample.constants (length [5; 6; 7; 8]);
           @poseidon.Hash poseidon.wire poseidon.circuit_gates h
             (poseidon.inputs_of (length [5; 6; 7; 8]))) = Ok circ
       /\ poseidon.eval [5; 6; 7; 8] circ = v
       /\ (h ← poseidon.NewHasher sample.constants (length [5; 6; 7; 8]);
           @poseidon.Hash Z poseidon.field_gates h [5; 6; 7; 8]) = Ok v.
Proof.
  split; [vm_compute; reflexivity|]. split; [right; right; reflexivity|].
  apply (C3_scalar_and_circuit_hash_agree sample.constants sample.constants [5; 6; 7; 8]);
    [reflexivity | vm_compute; reflexivity | right; right; reflexivity].
Defined.

(** * Further properties of the code *)

(** ** Decimal strings: what [String()] and [%d] write, [SetString] reads back *)

Lemma decimal_digit (d : Z) :
  0 <= d < 10 ->
  bigint.digit (Z.of_nat (nat_of_ascii (ascii_of_nat (Z.to_nat (48 + d))))) = d.
Proof.
  intros H.
  assert (C : d = 0 \/ d = 1 \/ d = 2 \/ d = 3 \/ d = 4 \/ d = 5 \/ d = 6 \/ d = 7
              \/ d = 8 \/ d = 9) by lia.
  repeat (destruct C as [-> | C]; [reflexivity|]). subst d. reflexivity.
Qed.

Lemma scan_digits (fuel : nat) (n : Z) (acc : string) (v : Z) (c : nat) :
  (1 <= fuel)%nat -> 0 <= n < 2 ^ Z.of_nat fuel ->
  exists k : nat,
    bigint.scan 10 (gobytes.of_string (bigint.digits fuel n acc)) v c
    = bigint.scan 10 (gobytes.of_string acc) (v * 10 ^ Z.of_nat (S k) + n) (c + S k).
Proof.
  revert n acc v c. induction fuel as [|fuel IH]; intros n acc v c Hf Hn; [lia|].
  cbn [bigint.digits].
  assert (Hd : 0 <= n mod 10 < 10) by (apply Z.mod_pos_bound; lia).
  destruct (Z.ltb_spec n 10) as [Hlt | Hge].
  - exists 0%nat. cbn [gobytes.of_string bigint.scan].
    rewrite (decimal_digit _ Hd).
    destruct (Z.ltb_spec (n mod 10) 10); [|lia].
    rewrite Z.mod_small by lia.
    change (10 ^ Z.of_nat 1) with 10.
    replace (c + 1)%nat with (S c) by lia. reflexivity.
  - rewrite Nat2Z.inj_succ, Z.pow_succ_r in Hn by lia.
    destruct (IH (n / 10) (String (ascii_of_nat (Z.to_nat (48 + n mod 10))) acc) v c)
      as [k Hk].
    { destruct fuel; [|lia]. change (2 ^ Z.of_nat 0) with 1 in Hn. lia. }
    { split; [apply Z.div_pos; lia | apply Z.div_lt_upper_bound; lia]. }
    exists (S k). rewrite Hk. cbn [gobytes.of_string bigint.scan].
    rewrite (decimal_digit _ Hd).
    destruct (Z.ltb_spec (n mod 10) 10); [|lia].
    f_equal; [|lia].
    rewrite (Nat2Z.inj_succ (S k)), (Z.pow_succ_r 10 (Z.of_nat (S k))) by lia.
    pose proof (Z.div_mod n 10 ltac:(lia)). lia.
Qed.

Lemma digit_char (d : Z) :
  0 <= d < 10 -> is_digit_char (ascii_of_nat (Z.to_nat (48 + d))).
Proof.
  intros H. unfold is_digit_char.
  rewrite nat_ascii_embedding by lia. lia.
Qed.

Lemma digits_head (fuel : nat) (n : Z) (c : ascii) (acc : string) :
  is_digit_char c ->
  exists c' r, bigint.digits fuel n (String c acc) = String c' r /\ is_digit_char c'.
Proof.
  revert n c acc. induction fuel as [|fuel IH]; intros n c acc Hc.
  - exists c, acc. split; [reflexivity | assumption].
  - cbn [bigint.digits].
    assert (Hd : 0 <= n mod 10 < 10) by (apply Z.mod_pos_bound; lia).
    destruct (n <? 10).
    + eexists _, _. split; [reflexivity | apply digit_char, Hd].
    + apply IH, digit_char, Hd.
Qed.

Lemma abs_fuel (a : Z) : 0 <= a -> a < 2 ^ Z.of_nat (S (Z.to_nat (Z.log2 a))).
Proof.
  intros Ha. rewrite Nat2Z.inj_succ, Z2Nat.id by apply Z.log2_nonneg.
  destruct (Z.eq_dec a 0) as [-> | Hne]; [reflexivity|].
  apply Z.log2_spec. lia.
Qed.

Lemma itoa_natural_head (a : Z) :
  0 <= a ->
  exists c r,
    bigint.digits (S (Z.to_nat (Z.log2 a))) a EmptyString = String c r
    /\ is_digit_char c.
Proof.
  intros Ha. cbn [bigint.digits].
  assert (Hd : 0 <= a mod 10 < 10) by (apply Z.mod_pos_bound; lia).
  destruct (a <? 10).
  - eexists _, _. split; [reflexivity | apply digit_char, Hd].
  - apply digits_head, digit_char, Hd.
Qed.

Lemma scan_itoa_natural (a : Z) :
  0 <= a ->
  exists k : nat,
    bigint.scan 10
      (gobytes.of_string (bigint.digits (S (Z.to_nat (Z.log2 a))) a EmptyString)) 0 0
    = (a, S k, []).
Proof.
  intros Ha.
  destruct (scan_digits (S (Z.to_nat (Z.log2 a))) a EmptyString 0 0) as [k Hk].
  { lia. }
  { split; [assumption | apply abs_fuel, Ha]. }
  exists k. rewrite Hk. cbn [gobytes.of_string bigint.scan]. f_equal.
Qed.

Lemma itoa_parses (n : Z) :
  bigint.SetString (bigint.itoa n) 10 = (n, true).
Proof.
  unfold bigint.itoa.
  assert (Ha : 0 <= Z.abs n) by lia.
  destruct (scan_itoa_natural _ Ha) as [k Hk].
  destruct (itoa_natural_head _ Ha) as (c & r & Hs & Hc).
  destruct (Z.ltb_spec n 0) as [Hneg | Hpos]; unfold bigint.SetString.
  - cbn [gobytes.of_string]. change (Z.of_nat (nat_of_ascii "-") =? 45) with true.
    cbn [orb]. rewrite Hk. cbn. f_equal. lia.
  - pose proof Hk as Hk'. rewrite Hs in Hk' |- *. cbn [gobytes.of_string] in Hk' |- *.
    unfold is_digit_char in Hc.
    destruct (Z.eqb_spec (Z.of_nat (nat_of_ascii c)) 45); [lia|].
    destruct (Z.eqb_spec (Z.of_nat (nat_of_ascii c)) 43); [lia|].
    cbn [orb]. rewrite Hk'. cbn. f_equal. lia.
Qed.

(** X1.  Decimal round trip.  Whatever integer [fmt.Sprintf("%d", n)] or
    [String()] renders, [SetString(_, 10)] reads back exactly, sign
    included, and reports success. *)
Theorem SetString_itoa (n : Z) :
  bigint.SetString (bigint.itoa n) 10 = (n, true).
Proof. exact (itoa_parses n). Qed.

(** ** Hexadecimal strings: what [%x] writes, [hex.DecodeString] reads back *)

Lemma fromHexChar_hexdigit (d : Z) :
  0 <= d < 16 -> hexenc.fromHexChar (hexenc.hexdigit d) = Some d.
Proof.
  intros H.
  assert (C : d = 0 \/ d = 1 \/ d = 2 \/ d = 3 \/ d = 4 \/ d = 5 \/ d = 6 \/ d = 7
              \/ d = 8 \/ d = 9 \/ d = 10 \/ d = 11 \/ d = 12 \/ d = 13 \/ d = 14
              \/ d = 15) by lia.
  repeat (destruct C as [-> | C]; [reflexivity|]). subst d. reflexivity.
Qed.

Lemma hex_decodes (bs : list Z) :
  Forall gobytes.is_byte bs ->
  hexenc.DecodeString (hexenc.EncodeToString bs) = Some bs.
Proof.
  induction 1 as [|b bs Hb _ IH]; [reflexivity|].
  cbn [hexenc.EncodeToString hexenc.DecodeString].
  unfold gobytes.is_byte in Hb.
  rewrite !fromHexChar_hexdigit, IH.
  - f_equal. f_equal. pose proof (Z.div_mod b 16 ltac:(lia)). lia.
  - apply Z.mod_pos_bound. lia.
  - split; [apply Z.div_pos; lia | apply Z.div_lt_upper_bound; lia].
Qed.

(** X2.  Hex round trip.  Decoding the hex rendering of a byte string gives
    the byte string back. *)
Theorem DecodeString_EncodeToString (bs : list Z) :
  Forall gobytes.is_byte bs ->
  hexenc.DecodeString (hexenc.EncodeToString bs) = Some bs.
Proof. exact (hex_decodes bs). Qed.

Lemma DecodeString_EncodeToString_witness :
  hexenc.DecodeString (hexenc.EncodeToString [0; 171; 255]) = Some [0; 171; 255].
Proof.
  apply (DecodeString_EncodeToString [0; 171; 255]).
  repeat constructor; unfold gobytes.is_byte; lia.
Defined.

(** ** The SDV circuit and the inputs the prover computes for it *)

Lemma result_map_Ok {A B} (f : A -> B) (m : result A) (y : B) :
  result_map f m = Ok y -> exists x, m = Ok x /\ f x = y.
Proof. destruct m as [x| |]; cbn; intros E; inversion E; eauto. Qed.

Lemma hash_wires_natural (w : list Z) (k : Constants) (n : nat)
    (ws : list poseidon.wire) :
  result_map (poseidon.eval w) (h ← poseidon.NewHasher k n; poseidon.Hash h ws)
  = (h ← poseidon.NewHasher k n; poseidon.Hash h (poseidon.eval w <$> ws)).
Proof. apply bind_natural_same. intros h. apply Hash_natural. Qed.

(** Evaluating the compiled constraints on a witness is running
    [Define] on the field elements of the witness. *)
Lemma Define_natural (k : Constants) (w : list Z) :
  result_map (map (sdv.eval_pair w)) (sdv.Define k sdv.variables)
  = @sdv.Define Z poseidon.field_gates k
      (sdv.MkDoHCircuit (nth 0 w 0) (nth 1 w 0) (nth 2 w 0) (nth 3 w 0) (nth 4 w 0)
         (nth 5 w 0) (nth 6 w 0) (nth 7 w 0)).
Proof.
  unfold sdv.Define, poseidon.Hash4, poseidon.Hash1, poseidon.Hash3.
  apply (bind_natural (poseidon.eval w) (map (sdv.eval_pair w)));
    [apply hash_wires_natural|].
  intros ctx.
  apply (bind_natural (poseidon.eval w) (map (sdv.eval_pair w)));
    [apply hash_wires_natural|].
  intros nh.
  apply (bind_natural (poseidon.eval w) (map (sdv.eval_pair w)));
    [apply hash_wires_natural|].
  intros com. reflexivity.
Qed.

Lemma Define_scalar (k : Constants) (w : list Z) :
  result_map (map (sdv.eval_pair w)) (sdv.Define k sdv.variables)
  = (contextHash ← crypto.PoseidonHash k [nth 2 w 0; nth 3 w 0; nth 4 w 0; nth 5 w 0];
     nullifierHash ← crypto.PoseidonHash k [nth 6 w 0];
     commitment ← crypto.PoseidonHash k [nth 6 w 0; nth 7 w 0; contextHash];
     Ok [(nth 0 w 0, nullifierHash); (nth 1 w 0, commitment)]).
Proof.
  rewrite Define_natural. unfold sdv.Define, poseidon.Hash4, poseidon.Hash1, poseidon.Hash3.
  cbn [sdv.Fqdn sdv.MetadataHashP1 sdv.MetadataHashP2 sdv.TrustMethod sdv.Nullifier
       sdv.Secret sdv.NullifierHash sdv.Commitment].
  rewrite <- (circuit_hash_eq_scalar k [nth 2 w 0; nth 3 w 0; nth 4 w 0; nth 5 w 0])
    by (cbn; lia).
  apply bind_congr; [reflexivity|]. intros ctx.
  rewrite <- (circuit_hash_eq_scalar k [nth 6 w 0]) by (cbn; lia).
  apply bind_congr; [reflexivity|]. intros nh.
  rewrite <- (circuit_hash_eq_scalar k [nth 6 w 0; nth 7 w 0; ctx]) by (cbn; lia).
  reflexivity.
Qed.

(** X3.  What the SDV circuit asserts.  On any witness, the compiled
    constraints compare the first public input with the scalar Poseidon
    hash of the nullifier, and the second with the scalar hash of
    (nullifier, secret, hash of the four context inputs); they fail to
    compile exactly when the scalar hash fails. *)
Theorem Define_constraints (k : Constants) (w : list Z) :
  result_map (map (sdv.eval_pair w)) (sdv.Define k sdv.variables)
  = (contextHash ← crypto.PoseidonHash k [nth 2 w 0; nth 3 w 0; nth 4 w 0; nth 5 w 0];
     nullifierHash ← crypto.PoseidonHash k [nth 6 w 0];
     commitment ← crypto.PoseidonHash k [nth 6 w 0; nth 7 w 0; contextHash];
     Ok [(nth 0 w 0, nullifierHash); (nth 1 w 0, commitment)]).
Proof. exact (Define_scalar k w). Qed.

Lemma fromString_itoa (n : Z) : prover.fromString (bigint.itoa n) = n.
Proof. unfold prover.fromString. rewrite itoa_parses. reflexivity. Qed.

Lemma itoa_opp (n : Z) : 0 < n -> bigint.itoa (- n) = String "-" (bigint.itoa n).
Proof.
  intros Hn. unfold bigint.itoa. rewrite Z.abs_opp.
  destruct (Z.ltb_spec (- n) 0); [|lia]. destruct (Z.ltb_spec n 0); [lia|].
  reflexivity.
Qed.

(** [String()] writes an integer congruent to the element: the element
    itself, unless it is one of the 65535 largest. *)
Lemma String_itoa (a : Z) :
  exists z,
    fr.String a = bigint.itoa z
    /\ z mod fr.Modulus = a mod fr.Modulus
    /\ (0 <= a < fr.Modulus - 65535 -> z = a).
Proof.
  unfold fr.String. cbv zeta.
  assert (Hp : 0 < fr.Modulus) by reflexivity.
  pose proof (Z.mod_pos_bound (- a) fr.Modulus Hp) as Hneg.
  destruct ((0 <? (- a) mod fr.Modulus) && ((- a) mod fr.Modulus <=? 65535)) eqn:Hc.
  - apply andb_true_iff in Hc as [H1 H2]. apply Z.ltb_lt in H1. apply Z.leb_le in H2.
    exists (- ((- a) mod fr.Modulus)). split; [symmetry; apply itoa_opp, H1|]. split.
    + rewrite <- (Z.sub_0_l ((- a) mod fr.Modulus)), Zminus_mod, Z.mod_mod by lia.
      rewrite <- Zminus_mod. f_equal. lia.
    + intros Ha. exfalso.
      destruct (Z.eq_dec a 0) as [-> | Hne]; [rewrite Z.opp_0, Zmod_0_l in H1; lia|].
      assert (E : (- a) mod fr.Modulus = fr.Modulus - a).
      { replace (- a) with (fr.Modulus - a + (-1) * fr.Modulus) by lia.
        rewrite Z.mod_add by lia. apply Z.mod_small. lia. }
      lia.
  - exists a. repeat split; reflexivity.
Qed.

(** On a reduced element: the decimal digits of the element, except that
    the 65535 largest are written as the negative numbers -65535 .. -1. *)
Lemma String_canonical (a : Z) :
  0 <= a < fr.Modulus ->
  fr.String a
  = bigint.itoa (if a <? fr.Modulus - 65535 then a else a - fr.Modulus).
Proof.
  intros Ha. unfold fr.String. cbv zeta.
  destruct (Z.eq_dec a 0) as [-> | Hne]; [reflexivity|].
  assert (E : (- a) mod fr.Modulus = fr.Modulus - a).
  { replace (- a) with (fr.Modulus - a + (-1) * fr.Modulus) by lia.
    rewrite Z.mod_add by lia. apply Z.mod_small. lia. }
  rewrite E.
  destruct (Z.ltb_spec 0 (fr.Modulus - a)); [|lia]. cbn [andb].
  destruct (Z.leb_spec (fr.Modulus - a) 65535), (Z.ltb_spec a (fr.Modulus - 65535));
    try lia; [|reflexivity].
  rewrite <- itoa_opp by lia. f_equal. lia.
Qed.

Lemma fromString_String (a : Z) :
  0 <= a < fr.Modulus -> fr.SetBigInt (prover.fromString (fr.String a)) = a.
Proof.
  intros Ha. destruct (String_itoa a) as (z & -> & Hz & _).
  rewrite fromString_itoa. unfold fr.SetBigInt. rewrite Hz. apply Z.mod_small, Ha.
Qed.

Lemma fromString_String_small (a : Z) :
  0 <= a < 2 ^ 128 -> prover.fromString (fr.String a) = a.
Proof.
  intros Ha. destruct (String_itoa a) as (z & -> & _ & Hz).
  rewrite fromString_itoa. apply Hz.
  assert (2 ^ 128 < fr.Modulus - 65535) by reflexivity. lia.
Qed.

Lemma digest_halves (metaRaw : string) :
  0 <= digest metaRaw mod 2 ^ 128 < 2 ^ 128 /\ 0 <= digest metaRaw / 2 ^ 128 < 2 ^ 128.
Proof.
  pose proof (digest_bound metaRaw) as B. split.
  - apply Z.mod_pos_bound. lia.
  - split; [apply Z.div_pos; lia|]. apply Z.div_lt_upper_bound; [lia|].
    change (2 ^ 128 * 2 ^ 128) with (2 ^ 256). lia.
Qed.

Lemma PoseidonHash_range (k : Constants) (inputs : list Z) (v : Z) :
  wf_constants k = true ->
  crypto.PoseidonHash k inputs = Ok v -> 0 <= v < fr.Modulus.
Proof.
  intros Hwf Hv.
  destruct (select k (length inputs + 1)) as [tb|] eqn:Hsel.
  - rewrite (PoseidonHash_spec k inputs tb Hwf Hsel) in Hv. inversion Hv; subst.
    apply Hash_range. cbn. lia.
  - exfalso. unfold crypto.PoseidonHash in Hv. rewrite Hsel in Hv. discriminate.
Qed.

(** What a successful run of [GenerateCircuitInputs] computed. *)
Lemma GenerateCircuitInputs_Ok (k : Constants)
    (json_Marshal : gmap string JSON -> outcome string)
    (fr_SetString : string -> option Z)
    (domain : string) (metadata : gmap string JSON) (nullifier secret : string)
    (trustMethod : Z) (inputs : prover.CircuitInputs) :
  prover_rest.GenerateCircuitInputs k json_Marshal fr_SetString domain metadata
    nullifier secret trustMethod = Ok inputs ->
  exists metaRaw contextHash nullifierFr secretFr commitment nullifierHash,
    json_Marshal metadata = Done metaRaw
    /\ fr_SetString nullifier = Some nullifierFr
    /\ fr_SetString secret = Some secretFr
    /\ crypto.PoseidonHash k
         [digest domain mod fr.Modulus; digest metaRaw mod 2 ^ 128;
          digest metaRaw / 2 ^ 128; trustMethod mod fr.Modulus] = Ok contextHash
    /\ crypto.PoseidonHash k [nullifierFr; secretFr; contextHash] = Ok commitment
    /\ crypto.PoseidonHash k [nullifierFr] = Ok nullifierHash
    /\ inputs
       = prover.MkCircuitInputs (fr.String nullifierHash) (fr.String commitment)
           (fr.String (digest domain mod fr.Modulus))
           (fr.String (digest metaRaw mod 2 ^ 128))
           (fr.String (digest metaRaw / 2 ^ 128))
           (bigint.itoa trustMethod) nullifier secret.
Proof.
  unfold prover_rest.GenerateCircuitInputs.
  destruct (json_Marshal metadata) as [metaRaw|e]; [|discriminate].
  change (crypto.SplitHashToFieldElements
            (crypto.Sha256Hex (gobytes.of_string metaRaw)))
    with (crypto.SplitMetadataHash metaRaw).
  rewrite SplitMetadataHash_low_high.
  change (fr.SetBigInt (gobytes.SetBytes (crypto.Sha256 (gobytes.of_string domain))))
    with (digest domain mod fr.Modulus).
  unfold crypto.CircuitHash, fr.SetInt64.
  destruct (crypto.PoseidonHash k _) as [ctx| |] eqn:Hctx; [|discriminate..].
  destruct (fr_SetString nullifier) as [nFr|]; [|discriminate].
  destruct (fr_SetString secret) as [sFr|]; [|discriminate].
  destruct (crypto.PoseidonHash k [nFr; sFr; ctx]) as [com| |] eqn:Hcom; [|discriminate..].
  destruct (crypto.PoseidonHash k [nFr]) as [nh| |] eqn:Hnh; [|discriminate..].
  intros E. inversion E; subst.
  exists metaRaw, ctx, nFr, sFr, com, nh. repeat split; assumption || reflexivity.
Qed.

Lemma semantic_check_passes (k : Constants)
    (json_Marshal : gmap string JSON -> outcome string)
    (fr_SetString : string -> option Z)
    (domain : string) (metadata : gmap string JSON) (nullifier secret : string)
    (trustMethod : Z) (inputs : prover.CircuitInputs) (metaRaw : string) :
  prover_rest.GenerateCircuitInputs k json_Marshal fr_SetString domain metadata
    nullifier secret trustMethod = Ok inputs ->
  json_Marshal metadata = Done metaRaw ->
  signals.AllValid
    (signals.VerifyAgainstProof (signals.NewPTXSignals domain metaRaw trustMethod)
       (prover_rest.public_signals inputs)) = true.
Proof.
  intros Hgen Hmeta.
  apply GenerateCircuitInputs_Ok in Hgen
    as (metaRaw' & ctx & nFr & sFr & com & nh & Hm & _ & _ & _ & _ & _ & ->).
  rewrite Hmeta in Hm. inversion Hm; subst metaRaw'.
  unfold signals.VerifyAgainstProof, prover_rest.public_signals.
  cbn [signals.sig_MetadataRaw signals.sig_Domain signals.sig_TrustMethod
       prover.NullifierHash prover.Commitment prover.Fqdn prover.MetadataHashP1
       prover.MetadataHashP2 prover.TrustMethod map].
  destruct (digest_halves metaRaw) as [Hlo Hhi].
  change (fst (bigint.SetString (fr.String (digest metaRaw mod 2 ^ 128)) 10))
    with (prover.fromString (fr.String (digest metaRaw mod 2 ^ 128))).
  change (fst (bigint.SetString (fr.String (digest metaRaw / 2 ^ 128)) 10))
    with (prover.fromString (fr.String (digest metaRaw / 2 ^ 128))).
  rewrite !fromString_String_small by assumption.
  rewrite itoa_parses. cbn [fst].
  rewrite hashToBigInts_high_low, scan_signals_flags.
  cbn [signals.TrustMethod signals.MetadataPart1 signals.MetadataPart2
       signals.FqdnHash signals.AllValid orb].
  rewrite !andb_true_iff, !existsb_eqb_In. cbn [In]. tauto.
Qed.

(** With well-formed tables the three hashes cannot fail. *)
Lemma GenerateCircuitInputs_succeeds (k : Constants)
    (json_Marshal : gmap string JSON -> outcome string)
    (fr_SetString : string -> option Z)
    (domain : string) (metadata : gmap string JSON) (nullifier secret : string)
    (trustMethod : Z) (metaRaw : string) (nullifierFr secretFr : Z) :
  wf_constants k = true ->
  json_Marshal metadata = Done metaRaw ->
  fr_SetString nullifier = Some nullifierFr ->
  fr_SetString secret = Some secretFr ->
  exists inputs,
    prover_rest.GenerateCircuitInputs k json_Marshal fr_SetString domain metadata
      nullifier secret trustMethod = Ok inputs.
Proof.
  intros Hwf Hm Hn Hs. unfold prover_rest.GenerateCircuitInputs.
  rewrite Hm, Hn, Hs.
  destruct (crypto.SplitHashToFieldElements _) as [p1 p2].
  destruct (select_supported k 5 ltac:(lia)) as [tb5 H5].
  destruct (select_supported k 2 ltac:(lia)) as [tb2 H2].
  destruct (select_supported k 4 ltac:(lia)) as [tb4 H4].
  unfold crypto.CircuitHash.
  rewrite (PoseidonHash_spec k [_; _; _; _] tb5 Hwf H5).
  rewrite (PoseidonHash_spec k [_; _; _] tb4 Hwf H4).
  rewrite (PoseidonHash_spec k [_] tb2 Hwf H2).
  eexists. reflexivity.
Qed.

Lemma sample_inputs_generated :
  prover_rest.GenerateCircuitInputs sample.constants sample_rest.json_Marshal
    sample_rest.fr_SetString "example.com" ∅ "1" "2" 1
  = Ok sample_rest.inputs.
Proof.
  destruct (GenerateCircuitInputs_succeeds sample.constants sample_rest.json_Marshal
              sample_rest.fr_SetString "example.com" ∅ "1" "2" 1 "{}"
              (fr.SetBigInt (prover.fromString "1"))
              (fr.SetBigInt (prover.fromString "2")))
    as [generated E].
  - vm_compute. reflexivity.
  - reflexivity.
  - reflexivity.
  - reflexivity.
  - unfold sample_rest.inputs. rewrite E. reflexivity.
Qed.



(** X5.  The prover's inputs satisfy the circuit.  With well-formed
    tables, and a nullifier and a secret that [fr.Element.SetString] reads as
    [fromString] does, the witness [GenerateProofNative] builds from the
    output of [GenerateCircuitInputs] satisfies both constraints of the
    SDV circuit. *)
Theorem generated_witness_satisfies_circuit (k : Constants)
    (json_Marshal : gmap string JSON -> outcome string)
    (fr_SetString : string -> option Z)
    (domain : string) (metadata : gmap string JSON) (nullifier secret : string)
    (trustMethod : Z) (inputs : prover.CircuitInputs) :
  wf_constants k = true ->
  fr_SetString nullifier = Some (fr.SetBigInt (prover.fromString nullifier)) ->
  fr_SetString secret = Some (fr.SetBigInt (prover.fromString secret)) ->
  prover_rest.GenerateCircuitInputs k json_Marshal fr_SetString domain metadata
    nullifier secret trustMethod = Ok inputs ->
  sdv.satisfied k (circuit.NewWitness (prover_rest.assignment_of inputs)).
Proof.
  intros Hwf Hn Hs Hgen.
  apply GenerateCircuitInputs_Ok in Hgen
    as (metaRaw & ctx & nFr & sFr & com & nh & _ & Hn' & Hs' & Hctx & Hcom & Hnh & ->).
  rewrite Hn in Hn'. rewrite Hs in Hs'. inversion Hn'; inversion Hs'; subst nFr sFr.
  pose proof (PoseidonHash_range _ _ _ Hwf Hcom) as Rcom.
  pose proof (PoseidonHash_range _ _ _ Hwf Hnh) as Rnh.
  destruct (digest_lt_modulus_half metaRaw) as [Hlo Hhi].
  set (w := circuit.NewWitness _).
  assert (Ew : w = [nh; com; digest domain mod fr.Modulus; digest metaRaw mod 2 ^ 128;
                    digest metaRaw / 2 ^ 128; trustMethod mod fr.Modulus;
                    fr.SetBigInt (prover.fromString nullifier);
                    fr.SetBigInt (prover.fromString secret)]).
  { subst w. unfold circuit.NewWitness, prover_rest.assignment_of.
    cbn [circuit.NullifierHash circuit.Commitment circuit.Fqdn circuit.MetadataHashP1
         circuit.MetadataHashP2 circuit.TrustMethod circuit.Nullifier circuit.Secret
         prover.NullifierHash prover.Commitment prover.Fqdn prover.MetadataHashP1
         prover.MetadataHashP2 prover.TrustMethod prover.Nullifier prover.Secret map].
    assert (Rf : 0 <= digest domain mod fr.Modulus < fr.Modulus)
      by (apply Z.mod_pos_bound; reflexivity).
    rewrite !fromString_String by assumption.
    rewrite fromString_itoa. reflexivity. }
  clearbody w. subst w.
  pose proof (Define_scalar k
                [nh; com; digest domain mod fr.Modulus; digest metaRaw mod 2 ^ 128;
                 digest metaRaw / 2 ^ 128; trustMethod mod fr.Modulus;
                 fr.SetBigInt (prover.fromString nullifier);
                 fr.SetBigInt (prover.fromString secret)]) as HD.
  cbn [nth] in HD. rewrite Hctx in HD. cbn [mbind result_bind] in HD.
  rewrite Hnh in HD. cbn [mbind result_bind] in HD.
  rewrite Hcom in HD. cbn [mbind result_bind] in HD.
  apply result_map_Ok in HD as (pairs & HP & Hmap).
  exists pairs. split; [exact HP|].
  destruct pairs as [|[a1 b1] [|[a2 b2] [|? ?]]]; try discriminate.
  unfold sdv.eval_pair in Hmap. cbn [map fst snd] in Hmap.
  inversion Hmap as [[E1 E2 E3 E4]].
  repeat constructor; cbn [fst snd]; congruence.
Qed.

Lemma generated_witness_satisfies_circuit_witness :
  sdv.satisfied sample.constants
    (circuit.NewWitness (prover_rest.assignment_of sample_rest.inputs)).
Proof.
  apply (generated_witness_satisfies_circuit sample.constants
           sample_rest.json_Marshal sample_rest.fr_SetString "example.com" ∅ "1" "2" 1).
  - vm_compute. reflexivity.
  - reflexivity.
  - reflexivity.
  - exact sample_inputs_generated.
Defined.

(** The verifier's witness for an envelope made from these inputs is the
    public part of the prover's witness. *)
Lemma native_public_witness (domain metaRaw : string) (trustMethod : Z)
    (nullifierHash commitment nullifier secret : string) :
  let inputs :=
    prover.MkCircuitInputs nullifierHash commitment
      (fr.String (digest domain mod fr.Modulus))
      (fr.String (digest metaRaw mod 2 ^ 128))
      (fr.String (digest metaRaw / 2 ^ 128))
      (bigint.itoa trustMethod) nullifier secret in
  circuit.Public
    (circuit.NewWitness
       (circuit.MkDoHCircuit (verifier.fromStringV nullifierHash)
          (verifier.fromStringV commitment)
          (crypto.PoseidonHashString domain)
          (fst (crypto.SplitMetadataHash metaRaw))
          (snd (crypto.SplitMetadataHash metaRaw)) trustMethod 0 0))
  = circuit.Public (circuit.NewWitness (prover_rest.assignment_of inputs)).
Proof.
  intros inputs. subst inputs.
  unfold circuit.NewWitness, circuit.Public, prover_rest.assignment_of,
    crypto.PoseidonHashString.
  cbn [circuit.NullifierHash circuit.Commitment circuit.Fqdn circuit.MetadataHashP1
       circuit.MetadataHashP2 circuit.TrustMethod circuit.Nullifier circuit.Secret
       prover.NullifierHash prover.Commitment prover.Fqdn prover.MetadataHashP1
       prover.MetadataHashP2 prover.TrustMethod prover.Nullifier prover.Secret
       map take].
  destruct (digest_lt_modulus_half metaRaw) as [Hlo Hhi].
  assert (Rf : 0 <= digest domain mod fr.Modulus < fr.Modulus)
    by (apply Z.mod_pos_bound; reflexivity).
  rewrite !fromString_String by assumption.
  rewrite fromString_itoa, SplitMetadataHash_low_high. cbn [fst snd].
  fold (digest domain). unfold fr.SetBigInt.
  rewrite Z.mod_mod, (Z.mod_small _ fr.Modulus Hlo), (Z.mod_small _ fr.Modulus Hhi)
    by discriminate.
  reflexivity.
Qed.

Lemma native_verdict (g : Groth16) (k : Constants)
    (json_Marshal : gmap string JSON -> outcome string)
    (fr_SetString : string -> option Z)
    (domain : string) (metadata : gmap string JSON) (nullifier secret : string)
    (trustMethod : Z) (inputs : prover.CircuitInputs) (metaRaw : string)
    (ccs : g_ccs g) (pk : g_pk g) (vk : g_vk g)
    (envelope : prover.Envelope) (out : list string) :
  prover_rest.GenerateCircuitInputs k json_Marshal fr_SetString domain metadata
    nullifier secret trustMethod = Ok inputs ->
  json_Marshal metadata = Done metaRaw ->
  g_Compile g = Done ccs ->
  g_loadOrSetupKeys g ccs = Done (pk, vk) ->
  g_loadCachedVK g ccs = Done vk ->
  (forall w proof, g_Prove g ccs pk w = Done proof ->
     Forall gobytes.is_byte (g_WriteRawTo g proof)
     /\ g_ReadFrom g (g_WriteRawTo g proof) = Done proof) ->
  prover.GenerateProofNative g inputs = (Done envelope, out) ->
  verifier.zk_Valid
    (verifier.verifyNativeGnarkProof g (prover.ProofHex envelope)
       (prover.PublicSignals envelope) domain metaRaw trustMethod) = true
  <-> out = [].
Proof.
  intros Hgen Hmeta Hc Hkeys Hvk Hser Hprove.
  apply GenerateCircuitInputs_Ok in Hgen
    as (metaRaw' & ctx & nFr & sFr & com & nh & Hm & _ & _ & _ & _ & _ & ->).
  rewrite Hmeta in Hm. inversion Hm; subst metaRaw'.
  unfold prover.GenerateProofNative in Hprove. rewrite Hc, Hkeys in Hprove.
  destruct (g_Prove g ccs pk _) as [proof|e] eqn:Hp; [|discriminate].
  destruct (Hser _ _ Hp) as [Hbytes Hround].
  inversion Hprove; subst envelope out. clear Hprove.
  unfold verifier.verifyNativeGnarkProof.
  cbn [prover.ProofHex prover.PublicSignals].
  rewrite (hex_decodes _ Hbytes), Hc, Hvk, Hround.
  cbn [prover.NullifierHash prover.Commitment].
  rewrite (surjective_pairing (crypto.SplitMetadataHash metaRaw)).
  rewrite (native_public_witness domain metaRaw trustMethod (fr.String nh)
             (fr.String com) nullifier secret).
  fold (prover_rest.assignment_of
          (prover.MkCircuitInputs (fr.String nh) (fr.String com)
             (fr.String (digest domain mod fr.Modulus))
             (fr.String (digest metaRaw mod 2 ^ 128))
             (fr.String (digest metaRaw / 2 ^ 128))
             (bigint.itoa trustMethod) nullifier secret)).
  destruct (g_Verify g proof vk _); cbn; split; intros; discriminate || reflexivity.
Qed.



(** ** Base 27 *)

Lemma position_alphabet_at (d : Z) :
  0 <= d < 27 -> position (utils.alphabet_at d) utils.alphabet 0 = d.
Proof.
  intros H.
  assert (E : d = Z.of_nat (Z.to_nat d)) by lia.
  assert (L : (Z.to_nat d < 27)%nat) by lia.
  rewrite E. generalize dependent (Z.to_nat d). intros n _ L.
  do 27 (destruct n as [|n]; [reflexivity|]). lia.
Qed.

Lemma alphabet_at_in (d : Z) :
  In (utils.alphabet_at d) (list_ascii_of_string utils.alphabet).
Proof.
  unfold utils.alphabet_at.
  destruct (Z.to_nat d) as [|n]; [cbn; tauto|].
  do 26 (destruct n as [|n]; [cbn; tauto|]). cbn. tauto.
Qed.

Lemma decode27_acc (s : string) (acc : Z) :
  decode27 s acc = acc * 27 ^ Z.of_nat (String.length s) + decode27 s 0.
Proof.
  revert acc. induction s as [|c s IH]; intros acc.
  - cbn. lia.
  - cbn [decode27 String.length]. rewrite IH, (IH (0 * 27 + _)).
    rewrite Nat2Z.inj_succ, Z.pow_succ_r by lia. lia.
Qed.

Lemma decode27_app (l1 l2 : list ascii) (acc : Z) :
  decode27 (string_of_list_ascii (l1 ++ l2)) acc
  = decode27 (string_of_list_ascii l2) (decode27 (string_of_list_ascii l1) acc).
Proof.
  revert acc. induction l1 as [|c l1 IH]; intros acc; [reflexivity|].
  cbn [app string_of_list_ascii decode27]. apply IH.
Qed.

Lemma string_of_list_length (l : list ascii) :
  String.length (string_of_list_ascii l) = length l.
Proof. induction l as [|c l IH]; [reflexivity|]. cbn. rewrite IH. reflexivity. Qed.

(** The digits the loop has appended, read as a number. *)
Lemma decode27_snoc (l : list ascii) (c : ascii) :
  decode27 (string_of_list_ascii (rev (l ++ [c]))) 0
  = position c utils.alphabet 0 * 27 ^ Z.of_nat (length l)
    + decode27 (string_of_list_ascii (rev l)) 0.
Proof.
  rewrite rev_app_distr. cbn [rev app string_of_list_ascii decode27].
  rewrite decode27_acc, string_of_list_length, length_rev. lia.
Qed.

Lemma base27_digits_value (fuel : nat) (n : Z) (acc : list ascii) :
  0 <= n < 2 ^ Z.of_nat fuel ->
  decode27 (string_of_list_ascii (rev (utils.base27_digits fuel n acc))) 0
  = decode27 (string_of_list_ascii (rev acc)) 0 + 27 ^ Z.of_nat (length acc) * n.
Proof.
  revert n acc. induction fuel as [|fuel IH]; intros n acc Hn.
  - change (2 ^ Z.of_nat 0) with 1 in Hn. assert (n = 0) as -> by lia. cbn. lia.
  - cbn [utils.base27_digits].
    destruct (Z.ltb_spec 0 n) as [Hpos | Hz]; [|assert (n = 0) as -> by lia; lia].
    rewrite Nat2Z.inj_succ, Z.pow_succ_r in Hn by lia.
    rewrite IH by (split; [apply Z.div_pos; lia | apply Z.div_lt_upper_bound; lia]).
    rewrite decode27_snoc, length_app, position_alphabet_at
      by (apply Z.mod_pos_bound; lia).
    cbn [length]. rewrite Nat2Z.inj_add. change (Z.of_nat 1) with 1.
    rewrite Z.pow_add_r, Z.pow_1_r by lia.
    pose proof (Z.div_mod n 27 ltac:(lia)). nia.
Qed.

Lemma utils_Base27_of_value (hexStr : string) :
  utils.Base27 hexStr = crypto_rest.Base27 (fst (bigint.SetString hexStr 16)).
Proof. reflexivity. Qed.

(** X7.  Base 27 is a positional encoding.  Reading the output of
    either [Base27] back, most significant digit first over the alphabet
    [a..z-], gives the number that was encoded; so different numbers get
    different strings. *)
Theorem Base27_decodes (n : Z) :
  0 <= n ->
  decode27 (crypto_rest.Base27 n) 0 = n
  /\ forall hexStr,
       fst (bigint.SetString hexStr 16) = n -> decode27 (utils.Base27 hexStr) 0 = n.
Proof.
  intros Hn.
  assert (E : decode27 (crypto_rest.Base27 n) 0 = n).
  { unfold crypto_rest.Base27.
    destruct (Z.eqb_spec n 0) as [-> | Hne]; [reflexivity|].
    rewrite base27_digits_value.
    - cbn. lia.
    - split; [lia | apply fuel_covers; lia]. }
  split; [exact E|].
  intros hexStr <-. rewrite utils_Base27_of_value. exact E.
Qed.

Lemma Base27_decodes_witness :
  decode27 (crypto_rest.Base27 12345) 0 = 12345
  /\ forall hexStr,
       fst (bigint.SetString hexStr 16) = 12345 -> decode27 (utils.Base27 hexStr) 0 = 12345.
Proof. apply (Base27_decodes 12345). lia. Defined.

Lemma base27_digits_length (fuel : nat) (m : nat) (n : Z) (acc : list ascii) :
  n < 27 ^ Z.of_nat m ->
  (length (utils.base27_digits fuel n acc) <= length acc + m)%nat.
Proof.
  revert m n acc. induction fuel as [|fuel IH]; intros m n acc Hn; [cbn; lia|].
  cbn [utils.base27_digits].
  destruct (Z.ltb_spec 0 n) as [Hpos | Hz]; [|lia].
  destruct m as [|m]; [change (27 ^ Z.of_nat 0) with 1 in Hn; lia|].
  rewrite Nat2Z.inj_succ, Z.pow_succ_r in Hn by lia.
  pose proof (IH m (n / 27) (acc ++ [utils.alphabet_at (n mod 27)])
                ltac:(apply Z.div_lt_upper_bound; lia)) as B.
  rewrite length_app in B. cbn [length] in B. lia.
Qed.

Lemma base27_digits_chars (fuel : nat) (n : Z) (acc : list ascii) :
  Forall (fun c => In c (list_ascii_of_string utils.alphabet)) acc ->
  Forall (fun c => In c (list_ascii_of_string utils.alphabet))
    (utils.base27_digits fuel n acc).
Proof.
  revert n acc. induction fuel as [|fuel IH]; intros n acc Hacc; [exact Hacc|].
  cbn [utils.base27_digits]. destruct (0 <? n); [|exact Hacc].
  apply IH, Forall_app. split; [exact Hacc|].
  constructor; [apply alphabet_at_in | constructor].
Qed.

(** X8.  Size and alphabet of an encoded digest.  For a number below
    2^256, [Base27] returns between 1 and 54 characters, all of them
    lower-case letters or the hyphen. *)
Theorem Base27_of_digest_fits_a_label (n : Z) :
  0 <= n < 2 ^ 256 ->
  (1 <= String.length (crypto_rest.Base27 n) <= 54)%nat
  /\ Forall (fun c => In c (list_ascii_of_string utils.alphabet))
       (list_ascii_of_string (crypto_rest.Base27 n)).
Proof.
  intros Hn. unfold crypto_rest.Base27.
  destruct (Z.eqb_spec n 0) as [-> | Hne].
  { split; [cbn; lia|]. constructor; [apply alphabet_at_in | constructor]. }
  cbv zeta. rewrite list_ascii_of_string_of_list_ascii, string_of_list_length, length_rev.
  split; [split|].
  - assert (Hf : exists f, (Z.to_nat (Z.log2 n) + 1)%nat = S f) by (exists (Z.to_nat (Z.log2 n)); lia).
    destruct Hf as [f ->]. cbn [utils.base27_digits].
    destruct (Z.ltb_spec 0 n); [|lia].
    assert (G : forall fuel m l, (length l <= length (utils.base27_digits fuel m l))%nat).
    { clear. induction fuel as [|fuel IH]; intros m l; [cbn; lia|].
      cbn [utils.base27_digits]. destruct (0 <? m); [|lia].
      specialize (IH (m / 27) (l ++ [utils.alphabet_at (m mod 27)])).
      rewrite length_app in IH. cbn [length] in IH. lia. }
    specialize (G f (n / 27) ([] ++ [utils.alphabet_at (n mod 27)])).
    cbn [app length] in G. exact G.
  - pose proof (base27_digits_length (Z.to_nat (Z.log2 n) + 1) 54 n []) as B.
    cbn [length] in B. apply B.
    assert (2 ^ 256 < 27 ^ Z.of_nat 54) by (vm_compute; reflexivity). lia.
  - apply Forall_rev, base27_digits_chars. constructor.
Qed.

Lemma Base27_of_digest_fits_a_label_witness :
  (1 <= String.length (crypto_rest.Base27 12345) <= 54)%nat
  /\ Forall (fun c => In c (list_ascii_of_string utils.alphabet))
       (list_ascii_of_string (crypto_rest.Base27 12345)).
Proof.
  apply (Base27_of_digest_fits_a_label 12345). split; [lia | reflexivity].
Defined.

(** ** Hostnames *)

(** The copy loops: entry [j] of the buffer becomes [g j] where the loop
    reaches it and the test lets it through. *)
Lemma fill_length (test : nat -> bool) (g : nat -> Z) (js : list nat) (init : list Z) :
  length (fold_left (fun b j => if test j then <[j := g j]> b else b) js init)
  = length init.
Proof.
  revert init. induction js as [|j js IH]; intros init; [reflexivity|].
  cbn [fold_left]. rewrite IH. destruct (test j); [apply length_insert | reflexivity].
Qed.

Lemma fill_lookup (test : nat -> bool) (g : nat -> Z) (m : nat) (init : list Z)
    (i : nat) :
  fold_left (fun b j => if test j then <[j := g j]> b else b) (seq 0 m) init !! i
  = if (i <? m)%nat && test i && (i <? length init)%nat then Some (g i) else init !! i.
Proof.
  induction m as [|m IH]; [reflexivity|].
  rewrite seq_S, fold_left_app. cbn [fold_left Nat.add].
  destruct (test m) eqn:Tm.
  - rewrite list_lookup_insert, fill_length.
    destruct (decide (m = i /\ (m < length init)%nat)) as [[-> Hlt] | Hno].
    + rewrite Tm. destruct (Nat.ltb_spec i (S i)); [|lia].
      destruct (Nat.ltb_spec i (length init)); [reflexivity | lia].
    + rewrite IH.
      destruct (Nat.eq_dec m i) as [-> | Hne].
      * destruct (Nat.ltb_spec i i); [lia|].
        destruct (Nat.ltb_spec i (length init)); [tauto|].
        rewrite !andb_false_r. reflexivity.
      * destruct (Nat.ltb_spec i m), (Nat.ltb_spec i (S m)); try lia; reflexivity.
  - rewrite IH. destruct (Nat.eq_dec m i) as [-> | Hne].
    + rewrite Tm, !andb_false_r. cbn. destruct (i <? i)%nat; reflexivity.
    + destruct (Nat.ltb_spec i m), (Nat.ltb_spec i (S m)); try lia; reflexivity.
Qed.

Lemma le_bytes32_lookup (a : Z) (i : nat) :
  le_bytes32 a !! i
  = if (i <? 32)%nat then Some (Z.land (Z.shiftr a (8 * Z.of_nat i)) 0xFF) else None.
Proof.
  unfold le_bytes32. rewrite list_lookup_fmap.
  destruct (Nat.ltb_spec i 32) as [Hlt | Hge].
  - rewrite lookup_seq_lt by assumption. reflexivity.
  - rewrite lookup_seq_ge by assumption. reflexivity.
Qed.

Lemma be_bytes_nth (L : nat) (a : Z) (i : nat) :
  (i < L)%nat ->
  nth (L - 1 - i) (gobytes.be_bytes L a) 0 = Z.land (Z.shiftr a (8 * Z.of_nat i)) 0xFF.
Proof.
  intros Hi. unfold gobytes.be_bytes.
  set (f := fun j : nat => Z.land (Z.shiftr a (8 * Z.of_nat j)) 0xFF).
  rewrite (nth_indep _ 0 (f 0%nat)) by (rewrite length_map, length_rev, length_seq; lia).
  rewrite map_nth, rev_nth by (rewrite length_seq; lia).
  rewrite length_seq, seq_nth by lia.
  replace (0 + (L - S (L - 1 - i)))%nat with i by lia. reflexivity.
Qed.

Lemma high_byte_zero (a : Z) (i : nat) :
  0 < a -> Z.log2 a / 8 + 1 <= Z.of_nat i ->
  Z.land (Z.shiftr a (8 * Z.of_nat i)) 0xFF = 0.
Proof.
  intros Ha Hi.
  assert (Z.log2 a < 8 * Z.of_nat i).
  { pose proof (Z.div_mod (Z.log2 a) 8 ltac:(lia)).
    pose proof (Z.mod_pos_bound (Z.log2 a) 8 ltac:(lia)). lia. }
  rewrite (proj2 (Z.shiftr_eq_0_iff a (8 * Z.of_nat i))); [reflexivity|].
  right. split; [assumption | lia].
Qed.

(** The little-endian buffer of the string version. *)
Lemma utils_buffer (n : Z) :
  let beBytes := bigint.Bytes n in
  fold_left (fun bytes i =>
               if (i <? 32)%nat
               then <[i := nth (length beBytes - 1 - i) beBytes 0]> bytes
               else bytes)
            (seq 0 (length beBytes)) (replicate 32 0)
  = le_bytes32 (Z.abs n).
Proof.
  intros beBytes. apply list_eq. intros i.
  rewrite (fill_lookup (fun i => (i <? 32)%nat)
             (fun i => nth (length beBytes - 1 - i) beBytes 0)),
    le_bytes32_lookup, length_replicate.
  destruct (Nat.ltb_spec i 32) as [Hlt | Hge];
    [|rewrite andb_false_r; apply lookup_replicate_None; lia].
  rewrite andb_true_r. subst beBytes. unfold bigint.Bytes.
  destruct (Z.eqb_spec (Z.abs n) 0) as [E | Hne].
  - rewrite E. cbn [length]. destruct (i <? 0)%nat eqn:Hi; [cbn in Hi; discriminate|].
    rewrite lookup_replicate_2 by assumption.
    rewrite Z.shiftr_0_l. reflexivity.
  - rewrite !be_bytes_length.
    pose proof (Z.log2_nonneg (Z.abs n)).
    assert (0 <= Z.log2 (Z.abs n) / 8) by (apply Z.div_pos; lia).
    destruct (Nat.ltb_spec i (Z.to_nat (Z.log2 (Z.abs n) / 8 + 1))) as [Hin | Hout].
    + rewrite be_bytes_nth by assumption. reflexivity.
    + rewrite lookup_replicate_2 by assumption.
      rewrite high_byte_zero by lia. reflexivity.
Qed.

(** The little-endian buffer of the field-element version. *)
Lemma crypto_buffer (c : Z) :
  fold_left (fun le i => <[i := nth (31 - i) (crypto_rest.fr_Bytes c) 0]> le)
    (seq 0 32) (replicate 32 0)
  = le_bytes32 c.
Proof.
  apply list_eq. intros i.
  rewrite (fill_lookup (fun _ => true)
             (fun i => nth (31 - i) (crypto_rest.fr_Bytes c) 0) 32),
    le_bytes32_lookup, length_replicate, andb_true_r, andb_diag.
  destruct (Nat.ltb_spec i 32) as [Hlt | Hge]; [|apply lookup_replicate_None; lia].
  unfold crypto_rest.fr_Bytes.
  change (31 - i)%nat with (32 - 1 - i)%nat.
  rewrite be_bytes_nth by assumption. reflexivity.
Qed.

Lemma Base27_of_hex (bs : list Z) :
  bs <> [] -> Forall gobytes.is_byte bs ->
  utils.Base27 (hexenc.EncodeToString bs) = crypto_rest.Base27 (gobytes.SetBytes bs).
Proof.
  intros Hne Hb. rewrite utils_Base27_of_value, SetString_hex by assumption. reflexivity.
Qed.

Lemma Sum256_nonempty (data : list Z) : sha256.Sum256 data <> [].
Proof.
  intros E. pose proof (Sum256_length data) as L. rewrite E in L. discriminate.
Qed.

Lemma hostname_formula (commitmentStr domain : string) :
  let n := fst (bigint.SetString commitmentStr 10) in
  n <> 0 \/ commitmentStr = "0" ->
  utils.DeriveHostnameFromCommitment commitmentStr domain
  = Done ("x"
          +:+ crypto_rest.Base27
                (gobytes.SetBytes (sha256.Sum256 (le_bytes32 (Z.abs n))))
          +:+ "x." +:+ domain).
Proof.
  intros n Hok. unfold utils.DeriveHostnameFromCommitment. fold n.
  assert ((n =? 0) && negb (String.eqb commitmentStr "0") = false) as ->.
  { destruct Hok as [Hn | ->].
    - destruct (Z.eqb_spec n 0); [contradiction | reflexivity].
    - rewrite andb_false_r. reflexivity. }
  rewrite (utils_buffer n),
    (Base27_of_hex _ (Sum256_nonempty _) (Sum256_is_byte _)).
  reflexivity.
Qed.

(** X9.  The hostname of a commitment string.  Unless the string is
    rejected (it parses to zero and is not the string 0), the hostname is
    the letter x, the base-27 rendering of the SHA-256 digest of the 32
    low bytes of the absolute value of the parsed number in little-endian
    order, the letter x, a dot, and the domain. *)
Theorem DeriveHostnameFromCommitment_formula (commitmentStr domain : string) :
  let n := fst (bigint.SetString commitmentStr 10) in
  n <> 0 \/ commitmentStr = "0" ->
  utils.DeriveHostnameFromCommitment commitmentStr domain
  = Done ("x"
          +:+ crypto_rest.Base27
                (gobytes.SetBytes (sha256.Sum256 (le_bytes32 (Z.abs n))))
          +:+ "x." +:+ domain).
Proof. exact (hostname_formula commitmentStr domain). Qed.

Lemma DeriveHostnameFromCommitment_formula_witness :
  utils.DeriveHostnameFromCommitment "-12345" "ex.io"
  = Done ("x"
          +:+ crypto_rest.Base27
                (gobytes.SetBytes
                   (sha256.Sum256
                      (le_bytes32 (Z.abs (fst (bigint.SetString "-12345" 10))))))
          +:+ "x." +:+ "ex.io").
Proof.
  apply (DeriveHostnameFromCommitment_formula "-12345" "ex.io").
  left. vm_compute. discriminate.
Defined.

Lemma append_assoc (a b c : string) : (a +:+ b) +:+ c = a +:+ (b +:+ c).
Proof.
  induction a as [|x a IH]; [reflexivity|].
  change (String x ((a +:+ b) +:+ c) = String x (a +:+ (b +:+ c))).
  rewrite IH. reflexivity.
Qed.

Lemma label_dot (b domain : string) :
  "x" +:+ b +:+ "x." +:+ domain = ("x" +:+ b +:+ "x") +:+ "." +:+ domain.
Proof.
  change (String "x" (b +:+ ("x" +:+ ("." +:+ domain)))
          = String "x" ((b +:+ "x") +:+ ("." +:+ domain))).
  rewrite (append_assoc b "x" ("." +:+ domain)). reflexivity.
Qed.

(** X10.  The two hostname functions, compared on a reduced field
    element.  [String()] writes the element in decimal, except that it
    writes the 65535 largest elements p - k as the negative number -k.
    So below p - 65535 the string version (package utils) applied to the
    rendering returns what the field-element version (package crypto)
    returns, followed by a dot and the domain, which the latter leaves
    out; from p - 65535 upwards it returns instead the hostname that the
    field-element version gives for k = p - commitment, because it hashes
    the absolute value of the number it parsed. *)
Theorem hostname_versions_agree (commitment : Z) (domain : string) :
  0 <= commitment < fr.Modulus ->
  (commitment < fr.Modulus - 65535 ->
   exists label,
     crypto_rest.DeriveHostnameFromCommitment commitment domain = Done label
     /\ utils.DeriveHostnameFromCommitment (fr.String commitment) domain
        = Done (label +:+ "." +:+ domain))
  /\ (fr.Modulus - 65535 <= commitment ->
      exists label,
        crypto_rest.DeriveHostnameFromCommitment (fr.Modulus - commitment) domain
        = Done label
        /\ utils.DeriveHostnameFromCommitment (fr.String commitment) domain
           = Done (label +:+ "." +:+ domain)).
Proof.
  intros Hc. rewrite (String_canonical commitment Hc). split; intros Hr.
  - destruct (Z.ltb_spec commitment (fr.Modulus - 65535)); [|lia].
    eexists. split.
    + unfold crypto_rest.DeriveHostnameFromCommitment. rewrite crypto_buffer. reflexivity.
    + rewrite hostname_formula.
      * rewrite itoa_parses. cbn [fst]. rewrite Z.abs_eq by lia.
        rewrite label_dot. reflexivity.
      * rewrite itoa_parses. cbn [fst].
        destruct (Z.eq_dec commitment 0) as [-> | Hne];
          [right; reflexivity | left; assumption].
  - destruct (Z.ltb_spec commitment (fr.Modulus - 65535)); [lia|].
    eexists. split.
    + unfold crypto_rest.DeriveHostnameFromCommitment. rewrite crypto_buffer. reflexivity.
    + rewrite hostname_formula.
      * rewrite itoa_parses. cbn [fst].
        replace (Z.abs (commitment - fr.Modulus)) with (fr.Modulus - commitment) by lia.
        rewrite label_dot. reflexivity.
      * rewrite itoa_parses. cbn [fst]. left. lia.
Qed.

Lemma hostname_versions_agree_witness :
  (fr.Modulus - 1 < fr.Modulus - 65535 ->
   exists label,
     crypto_rest.DeriveHostnameFromCommitment (fr.Modulus - 1) "ex.io" = Done label
     /\ utils.DeriveHostnameFromCommitment (fr.String (fr.Modulus - 1)) "ex.io"
        = Done (label +:+ "." +:+ "ex.io"))
  /\ (fr.Modulus - 65535 <= fr.Modulus - 1 ->
      exists label,
        crypto_rest.DeriveHostnameFromCommitment (fr.Modulus - (fr.Modulus - 1)) "ex.io"
        = Done label
        /\ utils.DeriveHostnameFromCommitment (fr.String (fr.Modulus - 1)) "ex.io"
           = Done (label +:+ "." +:+ "ex.io")).
Proof.
  apply (hostname_versions_agree (fr.Modulus - 1) "ex.io").
  split; [discriminate | reflexivity].
Defined.

Lemma le_bytes32_low_bits (a : Z) : le_bytes32 (a mod 2 ^ 256) = le_bytes32 a.
Proof.
  unfold le_bytes32. apply map_ext_in. intros i Hi. apply in_seq in Hi.
  apply Z.bits_inj'. intros k Hk.
  rewrite !Z.land_spec, !Z.shiftr_spec by assumption.
  change 255 with (Z.ones 8). rewrite Z.testbit_ones_nonneg by lia.
  destruct (Z.ltb_spec k 8); [|rewrite !andb_false_r; reflexivity].
  rewrite Z.mod_pow2_bits_low by lia. reflexivity.
Qed.

(** X11.  What the hostname does not depend on.  Two commitment strings
    whose parsed values are non-zero and have absolute values that agree
    modulo 2^256 derive the same hostname: the sign of the number and its
    bits from 256 upwards are dropped. *)
Theorem hostname_ignores_sign_and_high_bits (s1 s2 domain : string) :
  let n1 := fst (bigint.SetString s1 10) in
  let n2 := fst (bigint.SetString s2 10) in
  n1 <> 0 -> n2 <> 0 ->
  Z.abs n1 mod 2 ^ 256 = Z.abs n2 mod 2 ^ 256 ->
  utils.DeriveHostnameFromCommitment s1 domain
  = utils.DeriveHostnameFromCommitment s2 domain.
Proof.
  intros n1 n2 H1 H2 E.
  rewrite !hostname_formula by (left; assumption).
  fold n1 n2.
  rewrite <- (le_bytes32_low_bits (Z.abs n1)), <- (le_bytes32_low_bits (Z.abs n2)), E.
  reflexivity.
Qed.

Lemma hostname_ignores_sign_and_high_bits_witness :
  utils.DeriveHostnameFromCommitment "-5" "ex.io"
  = utils.DeriveHostnameFromCommitment
      "115792089237316195423570985008687907853269984665640564039457584007913129639941"
      "ex.io".
Proof.
  apply (hostname_ignores_sign_and_high_bits "-5"
           "115792089237316195423570985008687907853269984665640564039457584007913129639941"
           "ex.io").
  - vm_compute. discriminate.
  - vm_compute. discriminate.
  - vm_compute. reflexivity.
Defined.

(** ** The PTX container *)

Lemma LoadPTX_written (json_Marshal : gmap string JSON -> outcome string)
    (proto_Marshal : ptx.PtxFile -> outcome (list Z))
    (proto_Unmarshal : list Z -> outcome ptx.PtxFile)
    (ReadFile : string -> outcome (list Z))
    (proofJSON : list Z) (metadata : gmap string JSON) (domain : string)
    (trustMethod : Z) (data : list Z) (filePath metaRaw : string) :
  - 2 ^ 31 <= trustMethod < 2 ^ 31 ->
  json_Marshal metadata = Done metaRaw ->
  (let written :=
     ptx.MkPtxFile (gobytes.wrap 32 trustMethod) metaRaw
       (Some (ptx.MkZkProof ptx.ProofSystem_GROTH16 "sdv_poseidon_v1" proofJSON))
       (Some domain) in
   forall bytes, proto_Marshal written = Done bytes ->
                 proto_Unmarshal bytes = Done written) ->
  prover_rest.CreatePtxFile json_Marshal proto_Marshal proofJSON metadata domain
    trustMethod = Done data ->
  ReadFile filePath = Done data ->
  ptxloader.LoadPTX ReadFile proto_Unmarshal filePath
  = Ok (ptx.MkPtxFile trustMethod metaRaw
          (Some (ptx.MkZkProof ptx.ProofSystem_GROTH16 "sdv_poseidon_v1" proofJSON))
          (Some domain)).
Proof.
  intros Htm Hmeta Hproto Hcreate Hread. cbv zeta in Hproto.
  unfold prover_rest.CreatePtxFile in Hcreate. rewrite Hmeta in Hcreate.
  destruct (proto_Marshal _) as [serialized|e] eqn:Hser; [|discriminate].
  inversion Hcreate; subst data. clear Hcreate.
  pose proof (Hproto _ eq_refl) as Hback.
  unfold ptxloader.LoadPTX. rewrite Hread.
  change (([80; 84; 88; 1; 0] ++ serialized)) with (80 :: 84 :: 88 :: 1 :: 0 :: serialized).
  change (drop 5 (80 :: 84 :: 88 :: 1 :: 0 :: serialized)) with serialized.
  change (take 4 (80 :: 84 :: 88 :: 1 :: 0 :: serialized)) with ptxloader.MagicHeader.
  rewrite bool_decide_eq_true_2 by reflexivity.
  cbn [length Nat.ltb Nat.leb orb negb].
  rewrite Hback. f_equal. f_equal.
  unfold gobytes.wrap. change (2 ^ (32 - 1)) with (2 ^ 31).
  rewrite Z.mod_small by (change (2 ^ 32) with (2 * 2 ^ 31); lia). lia.
Qed.

(** X12.  Container round trip.  A file written by [CreatePtxFile] is read
    back by [LoadPTX] as the record that was serialised: the metadata as
    marshalled, the proof bytes under the Groth16 tag and the key id
    [sdv_poseidon_v1], the domain as DoH anchor, and the trust method
    itself when it fits the int32 enum. *)
Theorem LoadPTX_CreatePtxFile (json_Marshal : gmap string JSON -> outcome string)
    (proto_Marshal : ptx.PtxFile -> outcome (list Z))
    (proto_Unmarshal : list Z -> outcome ptx.PtxFile)
    (ReadFile : string -> outcome (list Z))
    (proofJSON : list Z) (metadata : gmap string JSON) (domain : string)
    (trustMethod : Z) (data : list Z) (filePath metaRaw : string) :
  - 2 ^ 31 <= trustMethod < 2 ^ 31 ->
  json_Marshal metadata = Done metaRaw ->
  (let written :=
     ptx.MkPtxFile (gobytes.wrap 32 trustMethod) metaRaw
       (Some (ptx.MkZkProof ptx.ProofSystem_GROTH16 "sdv_poseidon_v1" proofJSON))
       (Some domain) in
   forall bytes, proto_Marshal written = Done bytes ->
                 proto_Unmarshal bytes = Done written) ->
  prover_rest.CreatePtxFile json_Marshal proto_Marshal proofJSON metadata domain
    trustMethod = Done data ->
  ReadFile filePath = Done data ->
  ptxloader.LoadPTX ReadFile proto_Unmarshal filePath
  = Ok (ptx.MkPtxFile trustMethod metaRaw
          (Some (ptx.MkZkProof ptx.ProofSystem_GROTH16 "sdv_poseidon_v1" proofJSON))
          (Some domain)).
Proof. eapply LoadPTX_written; eassumption. Qed.

Lemma LoadPTX_CreatePtxFile_witness :
  ptxloader.LoadPTX (fun _ => Done [0x50; 0x54; 0x58; 0x01; 0x00; 123; 125])
    (fun bytes =>
       Done (ptx.MkPtxFile 1 "{}"
               (Some (ptx.MkZkProof ptx.ProofSystem_GROTH16 "sdv_poseidon_v1" [1; 2]))
               (Some "example.com")))
    "token.ptx"
  = Ok (ptx.MkPtxFile 1 "{}"
          (Some (ptx.MkZkProof ptx.ProofSystem_GROTH16 "sdv_poseidon_v1" [1; 2]))
          (Some "example.com")).
Proof.
  apply (LoadPTX_CreatePtxFile sample_rest.json_Marshal
           (fun _ => Done [123; 125])
           _ _ [1; 2] ∅ "example.com" 1 [0x50; 0x54; 0x58; 0x01; 0x00; 123; 125]
           "token.ptx" "{}").
  - lia.
  - reflexivity.
  - intros written bytes _. reflexivity.
  - reflexivity.
  - reflexivity.
Defined.

(** X13.  The byte after the magic header is not read.  [LoadPTX] skips
    five bytes but checks four: changing the fifth byte of a file changes
    nothing in what is loaded. *)
Theorem LoadPTX_ignores_fifth_byte (Unmarshal : list Z -> outcome ptx.PtxFile)
    (data : list Z) (b : Z) (filePath : string) :
  ptxloader.LoadPTX (fun _ => Done (<[4%nat := b]> data)) Unmarshal filePath
  = ptxloader.LoadPTX (fun _ => Done data) Unmarshal filePath.
Proof.
  unfold ptxloader.LoadPTX.
  rewrite length_insert, take_insert_ge, drop_insert_lt by lia. reflexivity.
Qed.

(** X14.  The file that crashes the loader.  Once the file is read,
    [LoadPTX] panics (slice bounds out of range) exactly when the file is
    the four bytes of the magic header and nothing else. *)
Theorem LoadPTX_panics_on_bare_header (ReadFile : string -> outcome (list Z))
    (Unmarshal : list Z -> outcome ptx.PtxFile) (filePath : string) (data : list Z) :
  ReadFile filePath = Done data ->
  ptxloader.LoadPTX ReadFile Unmarshal filePath = Panic
  <-> data = ptxloader.MagicHeader.
Proof.
  intros Hread. unfold ptxloader.LoadPTX. rewrite Hread. split.
  - destruct (Nat.ltb_spec (length data) 4) as [|H4]; [discriminate|]. cbn [orb].
    case_bool_decide as Hm; [|discriminate]. cbn [negb].
    destruct (Nat.ltb_spec (length data) 5) as [H5|]; [|destruct (Unmarshal _); discriminate].
    intros _. rewrite <- Hm. symmetry. apply take_ge. lia.
  - intros ->. reflexivity.
Qed.

Lemma LoadPTX_panics_on_bare_header_witness :
  ptxloader.LoadPTX (fun _ => Done [0x50; 0x54; 0x58; 0x01])
    (fun _ => Failed "proto: cannot parse") "token.ptx" = Panic
  <-> [0x50; 0x54; 0x58; 0x01] = ptxloader.MagicHeader.
Proof.
  apply (LoadPTX_panics_on_bare_header (fun _ => Done [0x50; 0x54; 0x58; 0x01])).
  reflexivity.
Defined.

(** ** The replay store *)




(** ** The verification engine *)

Lemma check_expiration_keeps (now : Z) (meta : gmap string JSON)
    (res : bool * list string) :
  (fst res = true <-> snd res = []) ->
  (fst (verifier.check_expiration now meta res) = true
   <-> snd (verifier.check_expiration now meta res) = []).
Proof.
  intros H. unfold verifier.check_expiration, verifier.fail.
  repeat case_match; try exact H; cbn; split; try discriminate;
    intros E; apply app_eq_nil in E as [_ E]; discriminate.
Qed.

Lemma check_scope_keeps (opts : verifier.VerificationOptions) (meta : gmap string JSON)
    (res res' : bool * list string) :
  verifier.check_scope opts meta res = Ok res' ->
  (fst res = true <-> snd res = []) ->
  (fst res' = true <-> snd res' = []).
Proof.
  unfold verifier.check_scope, verifier.fail. intros E H.
  repeat case_match; simplify_eq; try exact H; cbn; split; try discriminate;
    intros E; apply app_eq_nil in E as [_ E]; discriminate.
Qed.

Lemma check_audience_keeps (opts : verifier.VerificationOptions)
    (meta : gmap string JSON) (res : bool * list string) :
  (fst res = true <-> snd res = []) ->
  (fst (verifier.check_audience opts meta res) = true
   <-> snd (verifier.check_audience opts meta res) = []).
Proof.
  intros H. unfold verifier.check_audience, verifier.fail.
  repeat case_match; try exact H; cbn; split; try discriminate;
    intros E; apply app_eq_nil in E as [_ E]; discriminate.
Qed.

Lemma check_nonce_keeps (env : verifier.Env) (opts : verifier.VerificationOptions)
    (meta : gmap string JSON) (w w' : nonce.World) (res : bool * list string)
    (x : (bool * list string) + (bool * list string)) :
  verifier.check_nonce env opts meta w res = (w', x) ->
  (fst res = true <-> snd res = []) ->
  match x with
  | inl r => fst r = false /\ snd r <> []
  | inr r => fst r = true <-> snd r = []
  end.
Proof.
  unfold verifier.check_nonce, verifier.fail. intros E H.
  repeat case_match; simplify_eq; try exact H; cbn;
    split; try discriminate; try reflexivity;
    intros E; apply app_eq_nil in E as [_ E]; discriminate.
Qed.

Lemma verdict_invariant (env : verifier.Env) (opts : verifier.VerificationOptions)
    (w w' : nonce.World) (r : verifier.VerificationResult) :
  verifier.Verify env opts w = (w', Ok r) ->
  (verifier.Success r = true
   <-> verifier.Errors r = [] /\ verifier.dns_Valid (verifier.Dns r) = true)
  /\ (verifier.Success r = true ->
      verifier.zk_Valid (verifier.Zk r) = true
      \/ verifier.zk_Skipped (verifier.Zk r) = true).
Proof.
  unfold verifier.Verify. intros E.
  destruct (ptxloader.LoadPTX _ _ _) as [f| |]; [|discriminate..].
  destruct (verifier.json_object env _) as [meta|].
  2:{ inversion E; subst. cbn. split; [split; [discriminate | intros [? _]; discriminate]
                                       | discriminate]. }
  pose proof (check_expiration_keeps (nonce.clock w) meta (true, [])
                ltac:(cbn; tauto)) as H0.
  destruct (verifier.check_scope opts meta _) as [res1| |] eqn:Hs; [|discriminate..].
  pose proof (check_scope_keeps _ _ _ _ Hs H0) as H1.
  pose proof (check_audience_keeps opts meta res1 H1) as H2.
  destruct (verifier.check_nonce env opts meta w _) as [w1 [res|res]] eqn:Hn;
    pose proof (check_nonce_keeps _ _ _ _ _ _ _ Hn H2) as H3; cbn beta iota in H3.
  { inversion E; subst. cbn. destruct H3 as [H3 H4]. rewrite H3.
    split; [split; [discriminate | intros [? _]; contradiction] | discriminate]. }
  inversion E; subst. clear E. cbn [verifier.Success verifier.Errors verifier.Dns verifier.Zk].
  destruct res as [ok errs]. cbn [fst snd] in H3.
  destruct (verifier.dns_Valid (verifier.verifyDNS env f)),
    (verifier.zk_Valid (verifier.verifyProof env f _)),
    (verifier.zk_Skipped (verifier.verifyProof env f _));
    cbn; unfold verifier.fail; cbn;
    (split; [split; [try discriminate; intros; tauto
                    | intros [Ee ?]; try discriminate;
                      try (apply app_eq_nil in Ee as [_ Ee]; discriminate); tauto]
            | try discriminate; tauto]).
Qed.

(** X16.  The verdict and the error list.  Whenever [Verify] returns a
    result, it reports success exactly when it lists no error and the DNS
    check was valid; and a successful result has a ZK check that was
    valid or skipped. *)
Theorem Verify_verdict (env : verifier.Env) (opts : verifier.VerificationOptions)
    (w w' : nonce.World) (r : verifier.VerificationResult) :
  verifier.Verify env opts w = (w', Ok r) ->
  (verifier.Success r = true
   <-> verifier.Errors r = [] /\ verifier.dns_Valid (verifier.Dns r) = true)
  /\ (verifier.Success r = true ->
      verifier.zk_Valid (verifier.Zk r) = true
      \/ verifier.zk_Skipped (verifier.Zk r) = true).
Proof. eapply verdict_invariant; eassumption. Qed.

Lemma Verify_verdict_witness :
  let r :=
    match snd (verifier.Verify sample.env sample.options sample.world) with
    | Ok r => r
    | _ => verifier.MkVerificationResult false [] verifier.no_dns verifier.no_zk
             verifier.no_details
    end in
  (verifier.Success r = true
   <-> verifier.Errors r = [] /\ verifier.dns_Valid (verifier.Dns r) = true)
  /\ (verifier.Success r = true ->
      verifier.zk_Valid (verifier.Zk r) = true
      \/ verifier.zk_Skipped (verifier.Zk r) = true).
Proof.
  intros r.
  apply (Verify_verdict sample.env sample.options sample.world
           (fst (verifier.Verify sample.env sample.options sample.world)) r).
  vm_compute. reflexivity.
Defined.

Lemma url_set (url : string) : url <> "" -> negb (String.eqb url "") = true.
Proof. intros H. destruct (String.eqb_spec url ""); [contradiction | reflexivity]. Qed.

(** A nonce check that lets the token through has recorded the nonce. *)
Lemma check_nonce_accepts (env : verifier.Env) (opts : verifier.VerificationOptions)
    (meta : gmap string JSON) (w w' : nonce.World) (res res' : bool * list string)
    (n : string) :
  verifier.RedisURL opts <> "" ->
  meta !! "nonce" = Some (JString n) ->
  verifier.check_nonce env opts meta w res = (w', inr res') ->
  fst res' = true ->
  is_Some (nonce.store w' !! n).
Proof.
  intros Hurl Hn. unfold verifier.check_nonce. rewrite (url_set _ Hurl), Hn.
  destruct (verifier.redis_ParseURL env _); [discriminate|].
  unfold nonce.CheckAndSetNonce, nonce.SetNX.
  destruct (_ <? nonce.clock w); [cbn; intros E; inversion E; subst; discriminate|].
  destruct (nonce.reachable w); [|cbn; intros E; inversion E; subst; discriminate].
  destruct (_ && _); [cbn; intros E; inversion E; subst; discriminate|].
  destruct (nonce.store w !! n) eqn:Hl; cbn; intros E; inversion E; subst;
    [discriminate|].
  intros _. cbn [nonce.store]. rewrite lookup_insert_eq. eauto.
Qed.

(** A nonce the store already holds fails the check. *)
Lemma check_nonce_replayed (env : verifier.Env) (opts : verifier.VerificationOptions)
    (meta : gmap string JSON) (w w' : nonce.World) (res : bool * list string)
    (x : (bool * list string) + (bool * list string)) (n : string) :
  verifier.RedisURL opts <> "" ->
  meta !! "nonce" = Some (JString n) ->
  is_Some (nonce.store w !! n) ->
  verifier.check_nonce env opts meta w res = (w', x) ->
  match x with inl r | inr r => fst r = false end.
Proof.
  intros Hurl Hn [e He]. unfold verifier.check_nonce. rewrite (url_set _ Hurl), Hn.
  destruct (verifier.redis_ParseURL env _); [intros E; inversion E; reflexivity|].
  unfold nonce.CheckAndSetNonce, nonce.SetNX.
  destruct (_ <? nonce.clock w); [cbn; intros E; inversion E; reflexivity|].
  rewrite He.
  destruct (nonce.reachable w); [|cbn; intros E; inversion E; reflexivity].
  destruct (_ && _); cbn; intros E; inversion E; reflexivity.
Qed.

(** How a result of [Verify] came about. *)
Lemma Verify_stages (env : verifier.Env) (opts : verifier.VerificationOptions)
    (w w' : nonce.World) (r : verifier.VerificationResult) (f : ptx.PtxFile)
    (meta : gmap string JSON) :
  ptxloader.LoadPTX (verifier.ReadFile env) (verifier.proto_Unmarshal env)
    (verifier.FilePath opts) = Ok f ->
  verifier.json_object env (ptx.SignedMetadata f) = Some meta ->
  verifier.Verify env opts w = (w', Ok r) ->
  exists res0 x,
    verifier.check_nonce env opts meta w res0 = (w', x)
    /\ match x with
       | inl res => verifier.Success r = fst res /\ verifier.Errors r = snd res
       | inr res =>
           (verifier.Success r = true -> fst res = true)
           /\ (fst res = false -> verifier.Success r = false)
           /\ (forall e, In e (snd res) -> In e (verifier.Errors r))
           /\ verifier.Zk r = verifier.verifyProof env f (ptx.SignedMetadata f)
           /\ verifier.Dns r = verifier.verifyDNS env f
       end.
Proof.
  intros Hload Hjson. unfold verifier.Verify. rewrite Hload, Hjson.
  destruct (verifier.check_scope opts meta _) as [res1| |]; [|discriminate..].
  destruct (verifier.check_nonce env opts meta w _) as [w1 [res|res]] eqn:Hn;
    intros E; inversion E; subst; clear E; eexists _, _; (split; [exact Hn|]).
  { split; reflexivity. }
  cbn [verifier.Success verifier.Errors verifier.Zk verifier.Dns].
  destruct res as [ok errs].
  destruct (verifier.dns_Valid _), (negb _ && negb _); cbn;
    repeat split; auto; try discriminate; intros e He; apply in_or_app; auto.
Qed.

(** X17.  A token with a nonce verifies once.  With a replay store
    configured, if a verification of a token that carries a nonce
    succeeded, then a later verification of the same token, in any world
    whose store still holds what the first one left, does not succeed. *)
Theorem Verify_rejects_replay (env : verifier.Env) (opts : verifier.VerificationOptions)
    (f : ptx.PtxFile) (meta : gmap string JSON) (n : string)
    (w w1 w2 w3 : nonce.World) (r1 r2 : verifier.VerificationResult) :
  ptxloader.LoadPTX (verifier.ReadFile env) (verifier.proto_Unmarshal env)
    (verifier.FilePath opts) = Ok f ->
  verifier.json_object env (ptx.SignedMetadata f) = Some meta ->
  meta !! "nonce" = Some (JString n) ->
  verifier.RedisURL opts <> "" ->
  verifier.Verify env opts w = (w1, Ok r1) ->
  verifier.Success r1 = true ->
  nonce.store w2 = nonce.store w1 ->
  verifier.Verify env opts w2 = (w3, Ok r2) ->
  verifier.Success r2 = false.
Proof.
  intros Hload Hjson Hn Hurl V1 S1 Hstore V2.
  destruct (Verify_stages _ _ _ _ _ _ _ Hload Hjson V1) as (res0 & x & Hc & Hx).
  destruct x as [res|res].
  { destruct Hx as [Hs _].
    pose proof (check_nonce_keeps _ _ _ _ _ _ _ Hc) as K.
    unfold verifier.check_nonce in Hc. rewrite (url_set _ Hurl), Hn in Hc.
    destruct (verifier.redis_ParseURL env _); [|repeat case_match; discriminate].
    inversion Hc; subst. cbn in Hs. congruence. }
  destruct Hx as (Hs & _).
  pose proof (check_nonce_accepts _ _ _ _ _ _ _ _ Hurl Hn Hc (Hs S1)) as Hheld.
  rewrite <- Hstore in Hheld.
  destruct (Verify_stages _ _ _ _ _ _ _ Hload Hjson V2) as (res0' & x' & Hc' & Hx').
  pose proof (check_nonce_replayed _ _ _ _ _ _ _ _ Hurl Hn Hheld Hc') as Hfalse.
  destruct x' as [res'|res'].
  - destruct Hx' as [-> _]. exact Hfalse.
  - destruct Hx' as (_ & Hf & _). exact (Hf Hfalse).
Qed.

Lemma Verify_rejects_replay_witness :
  let env :=
    sample_rest.env_for sample_rest.metaRaw_nonce sample_rest.meta_nonce
      ptx.ProofSystem_GROTH16 in
  let first := verifier.Verify env sample.options sample.world in
  let second := verifier.Verify env sample.options (fst first) in
  match snd first, snd second with
  | Ok r1, Ok r2 => verifier.Success r1 = true /\ verifier.Success r2 = false
  | _, _ => False
  end.
Proof.
  intros env first second.
  assert (E1 : exists r1, snd first = Ok r1 /\ verifier.Success r1 = true).
  { eexists. split; vm_compute; reflexivity. }
  assert (E2 : exists r2, snd second = Ok r2).
  { eexists. vm_compute. reflexivity. }
  destruct E1 as (r1 & E1 & S1), E2 as (r2 & E2). rewrite E1, E2. split; [exact S1|].
  apply (Verify_rejects_replay env sample.options
           (sample_rest.token_for sample_rest.metaRaw_nonce ptx.ProofSystem_GROTH16)
           sample_rest.meta_nonce "n1" sample.world (fst first) (fst first) (fst second)
           r1 r2).
  - reflexivity.
  - vm_compute. reflexivity.
  - vm_compute. reflexivity.
  - discriminate.
  - rewrite <- E1. apply surjective_pairing.
  - exact S1.
  - reflexivity.
  - rewrite <- E2. apply surjective_pairing.
Defined.

Lemma scope_scan_panics (scopes : list JSON) (intended : list string) (found : bool) :
  Exists (fun j => forall s, j <> JString s) scopes ->
  verifier.scope_scan scopes intended found = Panic.
Proof.
  intros H. revert found. induction H as [j l Hj | j l _ IH]; intros found.
  - destruct j; try reflexivity. exfalso. eapply Hj. reflexivity.
  - destruct j; try reflexivity. cbn [verifier.scope_scan]. apply IH.
Qed.

(** X18.  A scope that is no string crashes the verifier.  When a scope is
    asked for and the token's [scopes] array holds an entry that is not a
    string, [Verify] panics (a failed type assertion), whatever else the
    array holds, and nothing has touched the replay store. *)
Theorem Verify_panics_on_non_string_scope (env : verifier.Env)
    (opts : verifier.VerificationOptions) (w : nonce.World) (f : ptx.PtxFile)
    (meta : gmap string JSON) (scopes : list JSON) :
  ptxloader.LoadPTX (verifier.ReadFile env) (verifier.proto_Unmarshal env)
    (verifier.FilePath opts) = Ok f ->
  verifier.json_object env (ptx.SignedMetadata f) = Some meta ->
  verifier.IntendedScope opts <> [] ->
  meta !! "scopes" = Some (JArray scopes) ->
  Exists (fun j => forall s, j <> JString s) scopes ->
  verifier.Verify env opts w = (w, Panic).
Proof.
  intros Hload Hjson Hscope Hm Hex. unfold verifier.Verify.
  rewrite Hload, Hjson. unfold verifier.check_scope.
  destruct (verifier.IntendedScope opts); [contradiction|].
  rewrite Hm, (scope_scan_panics _ _ _ Hex). reflexivity.
Qed.

Lemma Verify_panics_on_non_string_scope_witness :
  verifier.Verify
    (sample_rest.env_for sample_rest.metaRaw_scopes sample_rest.meta_scopes
       ptx.ProofSystem_GROTH16)
    sample_rest.options_scoped sample.world
  = (sample.world, Panic).
Proof.
  apply (Verify_panics_on_non_string_scope _ sample_rest.options_scoped sample.world
           (sample_rest.token_for sample_rest.metaRaw_scopes ptx.ProofSystem_GROTH16)
           sample_rest.meta_scopes [JNumber 1]).
  - reflexivity.
  - vm_compute. reflexivity.
  - discriminate.
  - vm_compute. reflexivity.
  - constructor. discriminate.
Defined.

(** X19.  Restrictions the token does not name are not enforced.  If the
    metadata has no [scopes] array and no [audience] string, asking for a
    scope and an audience changes nothing: [Verify] behaves as with
    neither asked for. *)
Theorem Verify_skips_missing_restrictions (env : verifier.Env)
    (opts : verifier.VerificationOptions) (w : nonce.World) (f : ptx.PtxFile)
    (meta : gmap string JSON) :
  ptxloader.LoadPTX (verifier.ReadFile env) (verifier.proto_Unmarshal env)
    (verifier.FilePath opts) = Ok f ->
  verifier.json_object env (ptx.SignedMetadata f) = Some meta ->
  (forall l, meta !! "scopes" <> Some (JArray l)) ->
  (forall a, meta !! "audience" <> Some (JString a)) ->
  verifier.Verify env opts w = verifier.Verify env (sample_rest.unrestricted opts) w.
Proof.
  intros Hload Hjson Hs Ha. unfold verifier.Verify.
  change (verifier.FilePath (sample_rest.unrestricted opts)) with (verifier.FilePath opts).
  rewrite Hload, Hjson.
  assert (E1 : forall res, verifier.check_scope opts meta res = Ok res).
  { intros res. unfold verifier.check_scope.
    destruct (verifier.IntendedScope opts); [reflexivity|].
    destruct (meta !! "scopes") as [[]|] eqn:E; try reflexivity.
    exfalso. eapply Hs. reflexivity. }
  assert (E2 : forall res, verifier.check_audience opts meta res = res).
  { intros res. unfold verifier.check_audience.
    destruct (verifier.IntendedAudience opts); [reflexivity|].
    destruct (meta !! "audience") as [[]|] eqn:E; try reflexivity.
    exfalso. eapply Ha. reflexivity. }
  rewrite E1, E2. reflexivity.
Qed.

Lemma Verify_skips_missing_restrictions_witness :
  verifier.Verify sample.env sample_rest.options_scoped sample.world
  = verifier.Verify sample.env (sample_rest.unrestricted sample_rest.options_scoped)
      sample.world.
Proof.
  apply (Verify_skips_missing_restrictions sample.env sample_rest.options_scoped
           sample.world sample.ptxFile ∅).
  - reflexivity.
  - reflexivity.
  - intros l. rewrite lookup_empty. discriminate.
  - intros a. rewrite lookup_empty. discriminate.
Defined.

(** X20.  A proof system the verifier does not know is not an error.  For
    a token whose proof is tagged with another system than Groth16, the
    ZK check is skipped: if the DNS check is valid and no policy check
    complained, [Verify] reports success although no proof was verified. *)
Theorem Verify_accepts_unverified_proof (env : verifier.Env)
    (opts : verifier.VerificationOptions) (w w' : nonce.World) (f : ptx.PtxFile)
    (meta : gmap string JSON) (proof : ptx.ZkProof) (n : Z)
    (r : verifier.VerificationResult) :
  ptxloader.LoadPTX (verifier.ReadFile env) (verifier.proto_Unmarshal env)
    (verifier.FilePath opts) = Ok f ->
  verifier.json_object env (ptx.SignedMetadata f) = Some meta ->
  ptx.Proof f = Some proof ->
  ptx.ProofSystem_of proof = ptx.ProofSystem_other n ->
  verifier.Verify env opts w = (w', Ok r) ->
  verifier.dns_Valid (verifier.Dns r) = true ->
  verifier.Errors r = [] ->
  verifier.Success r = true
  /\ verifier.zk_Valid (verifier.Zk r) = false
  /\ verifier.zk_Skipped (verifier.Zk r) = true.
Proof.
  intros Hload Hjson Hp Hsys V Hdns Herr.
  destruct (verdict_invariant _ _ _ _ _ V) as [Hv _].
  split; [apply Hv; split; assumption|].
  destruct (Verify_stages _ _ _ _ _ _ _ Hload Hjson V) as (res0 & x & Hc & Hx).
  destruct x as [res|res].
  - exfalso. destruct Hx as [_ He].
    pose proof (check_nonce_keeps _ _ _ _ _ _ _ Hc) as K. cbn beta iota in K.
    unfold verifier.check_nonce in Hc.
    repeat case_match; simplify_eq. unfold verifier.fail in He. cbn in He.
    rewrite Herr in He. symmetry in He. apply app_eq_nil in He as [_ He]. discriminate.
  - destruct Hx as (_ & _ & _ & -> & _). unfold verifier.verifyProof.
    rewrite Hp, Hsys. split; reflexivity.
Qed.

Lemma Verify_accepts_unverified_proof_witness :
  let env := sample_rest.env_for "{}" ∅ (ptx.ProofSystem_other 7) in
  match snd (verifier.Verify env sample.options sample.world) with
  | Ok r =>
      verifier.Success r = true
      /\ verifier.zk_Valid (verifier.Zk r) = false
      /\ verifier.zk_Skipped (verifier.Zk r) = true
  | _ => False
  end.
Proof.
  intros env.
  assert (E : exists r,
             snd (verifier.Verify env sample.options sample.world) = Ok r
             /\ verifier.dns_Valid (verifier.Dns r) = true
             /\ verifier.Errors r = []).
  { eexists. repeat split; vm_compute; reflexivity. }
  destruct E as (r & E & Hdns & Herr). rewrite E.
  apply (Verify_accepts_unverified_proof env sample.options sample.world
           (fst (verifier.Verify env sample.options sample.world))
           (sample_rest.token_for "{}" (ptx.ProofSystem_other 7)) ∅
           (ptx.MkZkProof (ptx.ProofSystem_other 7) "sdv_poseidon_v1" [123; 125]) 7 r).
  - reflexivity.
  - reflexivity.
  - reflexivity.
  - reflexivity.
  - rewrite <- E. apply surjective_pairing.
  - exact Hdns.
  - exact Herr.
Defined.

(** X21.  A nonce without an expiry is always refused.  With a replay
    store configured, a token that carries a nonce but no numeric
    [expiration_timestamp] is checked against the absolute time 300; at
    any clock past it [Verify] reports the nonce as invalid or replayed
    and never contacts the store. *)
Theorem Verify_refuses_nonce_without_expiry (env : verifier.Env)
    (opts : verifier.VerificationOptions) (w w' : nonce.World) (f : ptx.PtxFile)
    (meta : gmap string JSON) (n : string) (r : verifier.VerificationResult) :
  ptxloader.LoadPTX (verifier.ReadFile env) (verifier.proto_Unmarshal env)
    (verifier.FilePath opts) = Ok f ->
  verifier.json_object env (ptx.SignedMetadata f) = Some meta ->
  meta !! "nonce" = Some (JString n) ->
  (forall e, meta !! "expiration_timestamp" <> Some (JNumber e)) ->
  verifier.RedisURL opts <> "" ->
  verifier.redis_ParseURL env (verifier.RedisURL opts) = None ->
  300 < nonce.clock w ->
  verifier.Verify env opts w = (w', Ok r) ->
  w' = w
  /\ verifier.Success r = false
  /\ In "Nonce invalid or replayed" (verifier.Errors r).
Proof.
  intros Hload Hjson Hn Hexp Hurl Hparse Hclock V.
  destruct (Verify_stages _ _ _ _ _ _ _ Hload Hjson V) as (res0 & x & Hc & Hx).
  unfold verifier.check_nonce in Hc. rewrite (url_set _ Hurl), Hn, Hparse in Hc.
  assert (E : match meta !! "expiration_timestamp" with
              | Some (JNumber e) => e
              | _ => 300
              end = 300).
  { destruct (meta !! "expiration_timestamp") as [[]|] eqn:E; try reflexivity.
    exfalso. eapply Hexp. reflexivity. }
  rewrite E in Hc. unfold nonce.CheckAndSetNonce in Hc.
  destruct (Z.ltb_spec 300 (nonce.clock w)); [|lia].
  cbn in Hc. inversion Hc; subst. destruct Hx as (_ & Hf & Hin & _).
  split; [reflexivity|]. split; [apply Hf; reflexivity|].
  apply Hin. unfold verifier.fail. cbn. apply in_or_app. right. left. reflexivity.
Qed.

Lemma Verify_refuses_nonce_without_expiry_witness :
  let env :=
    sample_rest.env_for sample_rest.metaRaw_nonce_only sample_rest.meta_nonce_only
      ptx.ProofSystem_GROTH16 in
  match verifier.Verify env sample.options sample.world with
  | (w', Ok r) =>
      w' = sample.world
      /\ verifier.Success r = false
      /\ In "Nonce invalid or replayed" (verifier.Errors r)
  | _ => False
  end.
Proof.
  intros env.
  assert (E : exists w' r, verifier.Verify env sample.options sample.world = (w', Ok r)).
  { eexists _, _. vm_compute. reflexivity. }
  destruct E as (w' & r & E). rewrite E.
  apply (Verify_refuses_nonce_without_expiry env sample.options sample.world w'
           (sample_rest.token_for sample_rest.metaRaw_nonce_only ptx.ProofSystem_GROTH16)
           sample_rest.meta_nonce_only "n1" r).
  - reflexivity.
  - vm_compute. reflexivity.
  - vm_compute. reflexivity.
  - intros e. vm_compute. discriminate.
  - discriminate.
  - reflexivity.
  - cbn. lia.
  - exact E.
Defined.

(** ** The key cache *)

Lemma paths_differ : keys.nativePKPath <> keys.nativeVKPath.
Proof. discriminate. Qed.

Lemma Create_ok (d : keys.Disk) (path : string) :
  keys.uncreatable d = ∅ ->
  keys.Create d path
  = (keys.MkDisk (<[path := []]> (keys.files d)) (keys.unreadable d) ∅
       (keys.unwritable d), None).
Proof.
  intros H. unfold keys.Create. rewrite H.
  rewrite bool_decide_eq_false_2 by apply not_elem_of_empty. reflexivity.
Qed.

Lemma Write_ok (d : keys.Disk) (path : string) (content : list Z) :
  keys.unwritable d = ∅ ->
  keys.Write d path content
  = (keys.MkDisk (<[path := content]> (keys.files d)) (keys.unreadable d)
       (keys.uncreatable d) ∅, None).
Proof.
  intros H. unfold keys.Write. rewrite H.
  rewrite bool_decide_eq_false_2 by apply not_elem_of_empty. reflexivity.
Qed.

(** X22.  Keys are cached.  After [loadOrSetupKeys] has returned a key
    pair, and provided the two key files can be read back as what was
    written, a second call returns the same pair without running a setup
    or touching the disk, and the verifier's [loadCachedVK] returns the
    verifying key of that pair. *)
Theorem keys_are_cached (tc : keys.Toolchain) (ccs : keys.t_ccs tc)
    (w w1 : keys.World) (pk : keys.t_pk tc) (vk : keys.t_vk tc) :
  keys.loadOrSetupKeys tc ccs w = (w1, Done (pk, vk)) ->
  keys.pk_ReadFrom tc (keys.pk_WriteTo tc pk) = Done pk ->
  keys.vk_ReadFrom tc (keys.vk_WriteTo tc vk) = Done vk ->
  keys.nativePKPath ∉ keys.unreadable (keys.disk w) ->
  keys.nativeVKPath ∉ keys.unreadable (keys.disk w) ->
  keys.loadOrSetupKeys tc ccs w1 = (w1, Done (pk, vk))
  /\ keys.loadCachedVK tc ccs w1 = (w1, Done vk).
Proof.
  intros Hfirst Hpk Hvk Rpk Rvk. unfold keys.loadOrSetupKeys in Hfirst.
  destruct (keys.Stat (keys.disk w) keys.nativeVKPath
            && keys.Stat (keys.disk w) keys.nativePKPath) eqn:Hstat.
  - (* the pair came from the files *)
    apply andb_true_iff in Hstat as [Sv Sp].
    destruct (keys.Open _ keys.nativePKPath) as [pkFile|] eqn:Op; [|inversion Hfirst].
    destruct (keys.Open _ keys.nativeVKPath) as [vkFile|] eqn:Ov; [|inversion Hfirst].
    destruct (keys.pk_ReadFrom tc pkFile) as [pk'|] eqn:Rp; [|inversion Hfirst].
    destruct (keys.vk_ReadFrom tc vkFile) as [vk'|] eqn:Rv; [|inversion Hfirst].
    inversion Hfirst; subst w1 pk' vk'. split.
    + unfold keys.loadOrSetupKeys. rewrite Sv, Sp, Op, Ov, Rp, Rv. reflexivity.
    + unfold keys.loadCachedVK. rewrite Sv, Ov, Rv. reflexivity.
  - (* the pair came from a setup and was written *)
    destruct (keys.Setup tc ccs _) as [[pk' vk']|]; [|inversion Hfirst].
    unfold keys.Create, keys.Write in Hfirst.
    repeat case_bool_decide; try (inversion Hfirst; fail).
    inversion Hfirst; subst w1 pk' vk'. clear Hfirst.
    unfold keys.loadOrSetupKeys, keys.loadCachedVK, keys.Stat, keys.Open.
    cbn [keys.disk keys.files keys.unreadable].
    rewrite lookup_insert_eq.
    rewrite (lookup_insert_ne _ keys.nativeVKPath keys.nativePKPath)
      by (intros E; symmetry in E; exact (paths_differ E)).
    rewrite lookup_insert_eq. cbn [andb].
    rewrite !bool_decide_eq_false_2 by assumption.
    rewrite Hpk, Hvk. split; reflexivity.
Qed.

Lemma keys_are_cached_witness :
  let w1 := fst (keys.loadOrSetupKeys sample_rest.toolchain tt
                   (keys.MkWorld sample_rest.empty_disk 7)) in
  keys.loadOrSetupKeys sample_rest.toolchain tt w1 = (w1, Done (7, 7))
  /\ keys.loadCachedVK sample_rest.toolchain tt w1 = (w1, Done 7).
Proof.
  intros w1.
  apply (keys_are_cached sample_rest.toolchain tt
           (keys.MkWorld sample_rest.empty_disk 7) w1 7 7).
  - vm_compute. reflexivity.
  - reflexivity.
  - reflexivity.
  - cbn. apply not_elem_of_empty.
  - cbn. apply not_elem_of_empty.
Defined.

(** X23.  A verifier that runs first does not share its key.  On a disk
    without key files, [loadCachedVK] runs a setup of its own and stores
    only the verifying key; the prover's [loadOrSetupKeys] then finds no
    proving key, runs another setup and overwrites the verifying key the
    verifier had stored. *)
Theorem verifier_first_key_is_replaced (tc : keys.Toolchain) (ccs : keys.t_ccs tc)
    (w : keys.World) (pk0 pk1 : keys.t_pk tc) (vk0 vk1 : keys.t_vk tc) :
  keys.files (keys.disk w) !! keys.nativeVKPath = None ->
  keys.files (keys.disk w) !! keys.nativePKPath = None ->
  keys.uncreatable (keys.disk w) = ∅ ->
  keys.unwritable (keys.disk w) = ∅ ->
  keys.Setup tc ccs (keys.setups w) = Done (pk0, vk0) ->
  keys.Setup tc ccs (S (keys.setups w)) = Done (pk1, vk1) ->
  exists w1 w2,
    keys.loadCachedVK tc ccs w = (w1, Done vk0)
    /\ keys.files (keys.disk w1) !! keys.nativeVKPath = Some (keys.vk_WriteTo tc vk0)
    /\ keys.files (keys.disk w1) !! keys.nativePKPath = None
    /\ keys.loadOrSetupKeys tc ccs w1 = (w2, Done (pk1, vk1))
    /\ keys.files (keys.disk w2) !! keys.nativeVKPath = Some (keys.vk_WriteTo tc vk1)
    /\ keys.setups w2 = S (S (keys.setups w)).
Proof.
  intros Fv Fp Hc Hw S0 S1.
  eexists _, _. split.
  { unfold keys.loadCachedVK, keys.Stat. rewrite Fv, S0.
    rewrite Create_ok by (cbn; assumption || reflexivity). rewrite Write_ok by (cbn; assumption || reflexivity). reflexivity. }
  cbn [keys.disk keys.files].
  split; [apply lookup_insert_eq|].
  assert (Hnone : <[keys.nativeVKPath := keys.vk_WriteTo tc vk0]>
                    (<[keys.nativeVKPath := []]> (keys.files (keys.disk w)))
                  !! keys.nativePKPath = None).
  { rewrite !lookup_insert_ne by (intros E; symmetry in E; exact (paths_differ E)).
    exact Fp. }
  split; [exact Hnone|]. split.
  { unfold keys.loadOrSetupKeys, keys.Stat. cbn [keys.disk keys.files keys.setups].
    rewrite Hnone, andb_false_r, S1.
    rewrite Create_ok by (cbn; assumption || reflexivity). rewrite Create_ok by (cbn; assumption || reflexivity).
    rewrite Write_ok by (cbn; assumption || reflexivity). rewrite Write_ok by (cbn; assumption || reflexivity). reflexivity. }
  cbn [keys.disk keys.files keys.setups].
  split; [apply lookup_insert_eq | reflexivity].
Qed.

Lemma verifier_first_key_is_replaced_witness :
  exists w1 w2,
    keys.loadCachedVK sample_rest.toolchain tt (keys.MkWorld sample_rest.empty_disk 7)
    = (w1, Done 7)
    /\ keys.files (keys.disk w1) !! keys.nativeVKPath = Some [7]
    /\ keys.files (keys.disk w1) !! keys.nativePKPath = None
    /\ keys.loadOrSetupKeys sample_rest.toolchain tt w1 = (w2, Done (8, 8))
    /\ keys.files (keys.disk w2) !! keys.nativeVKPath = Some [8]
    /\ keys.setups w2 = 9%nat.
Proof.
  apply (verifier_first_key_is_replaced sample_rest.toolchain tt
           (keys.MkWorld sample_rest.empty_disk 7) 7 8 7 8); reflexivity.
Defined.

(** ** Random scalars *)

(** X24.  A fresh nullifier or secret is a field element.  From 31 random
    bytes [GenerateSecureRandomBigInt] returns a number below 2^248,
    hence below the field modulus; its decimal rendering, read back and
    reduced as the prover does, is the same number. *)
Theorem random_scalar_is_canonical (rand_Read : nat -> outcome (list Z)) (b : list Z) :
  rand_Read 31%nat = Done b ->
  length b = 31%nat ->
  Forall gobytes.is_byte b ->
  exists v,
    crypto_rest.GenerateSecureRandomBigInt rand_Read = Done v
    /\ 0 <= v < 2 ^ 248
    /\ v < fr.Modulus
    /\ fr.SetBigInt (prover.fromString (bigint.itoa v)) = v.
Proof.
  intros Hr Hl Hb. exists (gobytes.SetBytes b).
  unfold crypto_rest.GenerateSecureRandomBigInt. rewrite Hr.
  pose proof (SetBytes_bound b Hb) as B. rewrite Hl in B.
  change (256 ^ Z.of_nat 31) with (2 ^ 248) in B.
  assert (2 ^ 248 < fr.Modulus) by reflexivity.
  repeat split; try lia.
  rewrite fromString_itoa. unfold fr.SetBigInt. apply Z.mod_small. lia.
Qed.

Lemma random_scalar_is_canonical_witness :
  exists v,
    crypto_rest.GenerateSecureRandomBigInt (fun n => Done (replicate n 255)) = Done v
    /\ 0 <= v < 2 ^ 248
    /\ v < fr.Modulus
    /\ fr.SetBigInt (prover.fromString (bigint.itoa v)) = v.
Proof.
  apply (random_scalar_is_canonical (fun n => Done (replicate n 255)) (replicate 31 255)).
  - reflexivity.
  - reflexivity.
  - apply Forall_replicate. unfold gobytes.is_byte. lia.
Defined.

(** ** The split of the metadata digest *)

(** X25.  The split loses nothing.  The two field elements
    [SplitMetadataHash] returns are both below 2^128, and the first plus
    2^128 times the second is the SHA-256 digest of the metadata. *)
Theorem SplitMetadataHash_recombines (metaRaw : string) :
  let '(p1, p2) := crypto.SplitMetadataHash metaRaw in
  0 <= p1 < 2 ^ 128 /\ 0 <= p2 < 2 ^ 128 /\ p1 + 2 ^ 128 * p2 = digest metaRaw.
Proof.
  rewrite SplitMetadataHash_low_high.
  pose proof (digest_bound metaRaw) as B.
  pose proof (Z.mod_pos_bound (digest metaRaw) (2 ^ 128) ltac:(lia)).
  pose proof (Z.div_mod (digest metaRaw) (2 ^ 128) ltac:(lia)).
  assert (0 <= digest metaRaw / 2 ^ 128) by (apply Z.div_pos; lia).
  assert (digest metaRaw / 2 ^ 128 < 2 ^ 128).
  { apply Z.div_lt_upper_bound; [lia|].
    change (2 ^ 128 * 2 ^ 128) with (2 ^ 256). lia. }
  repeat split; lia.
Qed.

(** ** The circuit compiles *)

(** X26.  [Define] cannot fail on well-formed tables.  With tables of
    the sizes the three widths need, compiling the SDV circuit returns no
    error and asserts exactly two equalities. *)
Theorem Define_compiles (k : Constants) :
  wf_constants k = true ->
  exists c1 c2, sdv.Define k sdv.variables = Ok [c1; c2].
Proof.
  intros Hwf.
  pose proof (Define_scalar k []) as HD. cbn [nth] in HD.
  destruct (select_supported k 5 ltac:(lia)) as [tb5 H5].
  destruct (select_supported k 2 ltac:(lia)) as [tb2 H2].
  destruct (select_supported k 4 ltac:(lia)) as [tb4 H4].
  rewrite (PoseidonHash_spec k [0; 0; 0; 0] tb5 Hwf H5) in HD.
  cbn [mbind result_bind] in HD.
  rewrite (PoseidonHash_spec k [0] tb2 Hwf H2) in HD.
  cbn [mbind result_bind] in HD.
  rewrite (PoseidonHash_spec k [0; 0; _] tb4 Hwf H4) in HD.
  cbn [mbind result_bind] in HD.
  apply result_map_Ok in HD as (pairs & HP & Hmap).
  destruct pairs as [|c1 [|c2 [|? ?]]]; try discriminate.
  exists c1, c2. exact HP.
Qed.

Lemma Define_compiles_witness :
  exists c1 c2, sdv.Define sample.constants sdv.variables = Ok [c1; c2].
Proof. apply (Define_compiles sample.constants). vm_compute. reflexivity. Defined.

(** ** TXT records *)

Lemma last_cons_default {A} (l : list A) (x d : A) : List.last (x :: l) d = List.last l x.
Proof.
  revert x d. induction l as [|y l IH]; intros x d; [reflexivity|].
  change (List.last (x :: y :: l) d) with (List.last (y :: l) d).
  rewrite (IH y d), (IH y x). reflexivity.
Qed.

Lemma prefix_empty (s : string) : String.prefix EmptyString s = true.
Proof. destruct s; reflexivity. Qed.

Lemma prefix_snoc (r : string) (c q : ascii) (s : string) :
  List.last (list_ascii_of_string r) c <> q ->
  String.prefix (String c r) (s +:+ String q EmptyString)
  = String.prefix (String c r) s.
Proof.
  revert c s. induction r as [|c' r' IH]; intros c s H.
  - destruct s as [|a s'].
    + change (String.prefix (String c EmptyString) (String q EmptyString)
              = String.prefix (String c EmptyString) EmptyString).
      cbn [String.prefix].
      destruct (ascii_dec c q) as [E|]; [|reflexivity]. cbn in H. contradiction.
    + change (String.prefix (String c EmptyString)
                (String a (s' +:+ String q EmptyString))
              = String.prefix (String c EmptyString) (String a s')).
      cbn [String.prefix]. destruct (ascii_dec c a); [|reflexivity].
      rewrite !prefix_empty. reflexivity.
  - destruct s as [|a s'].
    + change (String.prefix (String c (String c' r')) (String q EmptyString)
              = String.prefix (String c (String c' r')) EmptyString).
      cbn [String.prefix]. destruct (ascii_dec c q); reflexivity.
    + change (String.prefix (String c (String c' r'))
                (String a (s' +:+ String q EmptyString))
              = String.prefix (String c (String c' r')) (String a s')).
      cbn [String.prefix]. destruct (ascii_dec c a); [|reflexivity].
      apply IH. cbn [list_ascii_of_string] in H. rewrite last_cons_default in H.
      exact H.
Qed.

Lemma Contains_snoc (s r : string) (c q : ascii) :
  List.last (list_ascii_of_string r) c <> q ->
  Contains (s +:+ String q EmptyString) (String c r) = Contains s (String c r).
Proof.
  intros H. induction s as [|a s IH].
  - change (Contains (String q EmptyString) (String c r) = Contains EmptyString (String c r)).
    cbn [Contains].
    rewrite (prefix_snoc r c q EmptyString H : String.prefix _ (String q EmptyString) = _).
    destruct (String.prefix (String c r) EmptyString); reflexivity.
  - change (Contains (String a (s +:+ String q EmptyString)) (String c r)
            = Contains (String a s) (String c r)).
    cbn [Contains].
    rewrite (prefix_snoc r c q (String a s) H
             : String.prefix _ (String a (s +:+ String q EmptyString)) = _).
    rewrite IH. reflexivity.
Qed.

Lemma Contains_skip_head (s r : string) (c q : ascii) :
  c <> q -> Contains (String q s) (String c r) = Contains s (String c r).
Proof.
  intros H. cbn [Contains String.prefix].
  destruct (ascii_dec c q); [contradiction | reflexivity].
Qed.

Lemma Contains_drop_leading (l : list ascii) (r : string) (c : ascii) :
  c <> dns.quote ->
  Contains (string_of_list_ascii (dns.drop_quotes l)) (String c r)
  = Contains (string_of_list_ascii l) (String c r).
Proof.
  intros H. induction l as [|a l IH]; [reflexivity|].
  cbn [dns.drop_quotes]. destruct (Ascii.eqb_spec a dns.quote) as [-> | Hne];
    [|reflexivity].
  rewrite IH. cbn [string_of_list_ascii]. symmetry. apply Contains_skip_head, H.
Qed.

Lemma string_of_list_app (l1 l2 : list ascii) :
  string_of_list_ascii (l1 ++ l2) = string_of_list_ascii l1 +:+ string_of_list_ascii l2.
Proof.
  induction l1 as [|a l1 IH]; [reflexivity|].
  change (String a (string_of_list_ascii (l1 ++ l2))
          = String a (string_of_list_ascii l1 +:+ string_of_list_ascii l2)).
  rewrite IH. reflexivity.
Qed.

Lemma Contains_drop_trailing (l : list ascii) (r : string) (c : ascii) :
  List.last (list_ascii_of_string r) c <> dns.quote ->
  Contains (string_of_list_ascii (rev (dns.drop_quotes (rev l)))) (String c r)
  = Contains (string_of_list_ascii l) (String c r).
Proof.
  intros H. induction l as [|a l IH] using rev_ind; [reflexivity|].
  rewrite rev_app_distr. cbn [rev app dns.drop_quotes].
  destruct (Ascii.eqb_spec a dns.quote) as [-> | Hne].
  - rewrite IH, string_of_list_app. symmetry. apply Contains_snoc, H.
  - cbn [rev]. rewrite rev_involutive. reflexivity.
Qed.

(** Trimming the quotes does not change whether an unquoted string occurs. *)
Lemma Contains_trim_quotes (data e : string) :
  dns_rest.unquoted e = true ->
  Contains (dns.trim_quotes data) e = Contains data e.
Proof.
  unfold dns_rest.unquoted. intros H.
  rewrite <- (string_of_list_ascii_of_string e) in *.
  destruct (list_ascii_of_string e) as [|c r]; [discriminate|].
  rewrite list_ascii_of_string_of_list_ascii in H.
  apply andb_true_iff in H as [H1 H2].
  destruct (Ascii.eqb_spec c dns.quote) as [|Hc]; [discriminate|].
  destruct (Ascii.eqb_spec (List.last r c) dns.quote) as [|Hl]; [discriminate|].
  cbn [string_of_list_ascii]. unfold dns.trim_quotes.
  rewrite Contains_drop_trailing
    by (rewrite list_ascii_of_string_of_list_ascii; exact Hl).
  rewrite Contains_drop_leading by exact Hc.
  rewrite string_of_list_ascii_of_string. reflexivity.
Qed.

(** X27.  The two TXT look-ups agree.  For expected content that is not
    empty and neither starts nor ends with a double quote (such as the hex
    digest the verifier looks for), [VerifyTXT] returns what searching the
    records returned by [GetTXT] returns, errors included: trimming the
    quotes of a record does not change the answer. *)
Theorem VerifyTXT_agrees_with_GetTXT (http_get : string -> outcome dns.HttpReply)
    (hostname expected : string) :
  dns_rest.unquoted expected = true ->
  dns_rest.VerifyTXT http_get hostname expected
  = (txt ← dns.GetTXT http_get hostname;
     Done (existsb (fun record => Contains record expected) txt)).
Proof.
  intros H. unfold dns_rest.VerifyTXT, dns.GetTXT.
  destruct (http_get hostname) as [resp|e]; [|reflexivity]. cbn [mbind outcome_bind].
  destruct (negb (dns.StatusCode resp =? 200)); [reflexivity|].
  destruct (dns.Body resp) as [dohResp|e]; [|reflexivity]. cbn [mbind outcome_bind].
  destruct (negb (dns.Status dohResp =? 0)); [reflexivity|]. cbn [mbind outcome_bind].
  f_equal. induction (dns.Answers dohResp) as [|ans l IH]; [reflexivity|].
  rewrite filter_cons. cbn [existsb]. rewrite IH.
  destruct (Z.eqb_spec (dns.Type_ ans) 16) as [E | Hne].
  - rewrite decide_True by exact E. cbn [map existsb andb].
    rewrite (Contains_trim_quotes _ _ H). reflexivity.
  - rewrite decide_False by exact Hne. reflexivity.
Qed.

Lemma VerifyTXT_agrees_with_GetTXT_witness :
  dns_rest.VerifyTXT (verifier.http_get sample.env) "x.example.com" (utils.Sha256 "{}")
  = (txt ← dns.GetTXT (verifier.http_get sample.env) "x.example.com";
     Done (existsb (fun record => Contains record (utils.Sha256 "{}")) txt)).
Proof.
  apply (VerifyTXT_agrees_with_GetTXT (verifier.http_get sample.env) "x.example.com"
           (utils.Sha256 "{}")).
  vm_compute. reflexivity.
Defined.

(** ** What the semantic check does not look at *)

Lemma semantic_flags (domain metaRaw : string) (trustMethod : Z)
    (publicSignals : list string) :
  let values := map (fun ps => fst (bigint.SetString ps 10)) publicSignals in
  signals.AllValid
    (signals.VerifyAgainstProof (signals.NewPTXSignals domain metaRaw trustMethod)
       publicSignals)
  = existsb (fun x => x =? trustMethod) values
    && existsb (fun x => x =? digest metaRaw / 2 ^ 128) values
    && existsb (fun x => x =? digest metaRaw mod 2 ^ 128) values.
Proof.
  unfold signals.VerifyAgainstProof.
  cbn [signals.sig_MetadataRaw signals.sig_Domain signals.sig_TrustMethod].
  rewrite hashToBigInts_high_low, scan_signals_flags. reflexivity.
Qed.

(** X28.  The legacy path does not bind the domain.  For a Groth16 proof
    whose envelope does not name the native prover as its source, the
    outcome of [verifyProof] is the same whatever domain the token names:
    neither the semantic check nor the legacy verification reads it. *)
Theorem legacy_verification_ignores_domain (env : verifier.Env) (f : ptx.PtxFile)
    (metaRaw : string) (proof : ptx.ZkProof) (wrapper : verifier.Wrapper)
    (anchor : option string) :
  ptx.Proof f = Some proof ->
  verifier.json_wrapper env (ptx.ProofData proof) = Some wrapper ->
  verifier.Source wrapper <> "gnark_native" ->
  verifier.verifyProof env
    (ptx.MkPtxFile (ptx.TrustMethod f) (ptx.SignedMetadata f) (ptx.Proof f) anchor)
    metaRaw
  = verifier.verifyProof env f metaRaw.
Proof.
  intros Hp Hw Hsrc. unfold verifier.verifyProof.
  cbn [ptx.Proof ptx.DohDetails ptx.TrustMethod]. rewrite Hp.
  destruct (ptx.ProofSystem_of proof); [|reflexivity].
  rewrite Hw, !semantic_flags.
  destruct (String.eqb_spec (verifier.Source wrapper) "gnark_native");
    [contradiction | reflexivity].
Qed.

Lemma legacy_verification_ignores_domain_witness :
  let env :=
    verifier.MkEnv (verifier.ReadFile sample.env) (verifier.proto_Unmarshal sample.env)
      (verifier.json_object sample.env) (verifier.json_signals sample.env)
      (fun _ => Some (verifier.MkWrapper "snarkjs" sample.publicSignals [123; 125] ""))
      (verifier.redis_ParseURL sample.env) (verifier.http_get sample.env)
      (verifier.groth16 sample.env) (verifier.circom sample.env) in
  verifier.verifyProof env
    (ptx.MkPtxFile (ptx.TrustMethod sample.ptxFile) (ptx.SignedMetadata sample.ptxFile)
       (ptx.Proof sample.ptxFile) (Some "evil.example"))
    "{}"
  = verifier.verifyProof env sample.ptxFile "{}".
Proof.
  intros env.
  apply (legacy_verification_ignores_domain env sample.ptxFile "{}"
           (ptx.MkZkProof ptx.ProofSystem_GROTH16 "sdv_poseidon_v1" [123; 125])
           (verifier.MkWrapper "snarkjs" sample.publicSignals [123; 125] "")
           (Some "evil.example")).
  - reflexivity.
  - reflexivity.
  - discriminate.
Defined.

(** ** From the prover to the verifier *)

Lemma String_hostname (com : Z) (domain : string) :
  0 <= com < fr.Modulus ->
  exists hostname,
    utils.DeriveHostnameFromCommitment (fr.String com) domain = Done hostname.
Proof.
  intros Hc. eexists. apply hostname_formula.
  rewrite (String_canonical com Hc), itoa_parses. cbn [fst].
  destruct (Z.ltb_spec com (fr.Modulus - 65535)); [|left; lia].
  destruct (Z.eq_dec com 0) as [-> | Hne]; [right; reflexivity | left; exact Hne].
Qed.

Lemma found_record (answers : list dns.Answer) (name data expected : string) :
  In (dns.MkAnswer name 16 data) answers ->
  Contains (dns.trim_quotes data) expected = true ->
  existsb (fun record => Contains record expected)
    (map (fun ans => dns.trim_quotes (dns.Data ans))
       (filter (fun ans => dns.Type_ ans = 16) answers)) = true.
Proof.
  intros Hin Hc. apply existsb_exists. exists (dns.trim_quotes data).
  split; [|exact Hc].
  apply (in_map (fun ans => dns.trim_quotes (dns.Data ans)) _ (dns.MkAnswer name 16 data)).
  apply list_elem_of_In, list_elem_of_filter. split; [reflexivity|].
  apply list_elem_of_In, Hin.
Qed.

(** X29.  A token made by the prover verifies.  Take the inputs of
    [GenerateCircuitInputs], a native proof whose self-verification
    raised no warning, and the file [CreatePtxFile] writes around its
    envelope.  If the verifier reads that file and the prover's verifying
    key, the TXT record of the derived hostname carries the digest of the
    metadata, the token has not expired and no scope, audience or replay
    store is asked for, then [Verify] succeeds with no error. *)
Theorem generated_token_verifies (env : verifier.Env)
    (opts : verifier.VerificationOptions) (w : nonce.World) (k : Constants)
    (json_Marshal : gmap string JSON -> outcome string)
    (fr_SetString : string -> option Z)
    (proto_Marshal : ptx.PtxFile -> outcome (list Z))
    (domain : string) (metadata : gmap string JSON) (nullifier secret : string)
    (trustMethod : Z) (inputs : prover.CircuitInputs) (metaRaw : string)
    (envelope : prover.Envelope) (proofJSON data raw : list Z)
    (meta : gmap string JSON)
    (ccs : g_ccs (verifier.groth16 env)) (pk : g_pk (verifier.groth16 env))
    (vk : g_vk (verifier.groth16 env))
    (answers : list dns.Answer) (name txt : string) :
  let g := verifier.groth16 env in
  (* the prover *)
  wf_constants k = true ->
  prover_rest.GenerateCircuitInputs k json_Marshal fr_SetString domain metadata
    nullifier secret trustMethod = Ok inputs ->
  json_Marshal metadata = Done metaRaw ->
  prover.GenerateProofNative g inputs = (Done envelope, []) ->
  - 2 ^ 31 <= trustMethod < 2 ^ 31 ->
  prover_rest.CreatePtxFile json_Marshal proto_Marshal proofJSON metadata domain
    trustMethod = Done data ->
  (* the keys and the serialisations *)
  g_Compile g = Done ccs ->
  g_loadOrSetupKeys g ccs = Done (pk, vk) ->
  g_loadCachedVK g ccs = Done vk ->
  (forall wit proof, g_Prove g ccs pk wit = Done proof ->
     Forall gobytes.is_byte (g_WriteRawTo g proof)
     /\ g_ReadFrom g (g_WriteRawTo g proof) = Done proof) ->
  (let written :=
     ptx.MkPtxFile (gobytes.wrap 32 trustMethod) metaRaw
       (Some (ptx.MkZkProof ptx.ProofSystem_GROTH16 "sdv_poseidon_v1" proofJSON))
       (Some domain) in
   forall bytes, proto_Marshal written = Done bytes ->
                 verifier.proto_Unmarshal env bytes = Done written) ->
  verifier.json_wrapper env proofJSON
  = Some (verifier.MkWrapper (prover.Source envelope) (prover.PublicSignals envelope)
            raw (prover.ProofHex envelope)) ->
  verifier.json_signals env proofJSON = Some (prover.PublicSignals envelope) ->
  verifier.json_object env metaRaw = Some meta ->
  (* the file, the policy and the DNS record *)
  verifier.ReadFile env (verifier.FilePath opts) = Done data ->
  verifier.IntendedScope opts = [] ->
  verifier.IntendedAudience opts = [] ->
  verifier.RedisURL opts = "" ->
  (forall e, meta !! "expiration_timestamp" = Some (JNumber e) -> nonce.clock w <= e) ->
  (forall hostname,
     utils.DeriveHostnameFromCommitment (prover.Commitment inputs) domain
     = Done hostname ->
     verifier.http_get env hostname
     = Done (dns.MkHttpReply 200 (Done (dns.MkDoHResponse 0 answers)))) ->
  In (dns.MkAnswer name 16 txt) answers ->
  Contains (dns.trim_quotes txt) (utils.Sha256 metaRaw) = true ->
  exists r,
    verifier.Verify env opts w = (w, Ok r)
    /\ verifier.Success r = true
    /\ verifier.Errors r = []
    /\ verifier.dns_Valid (verifier.Dns r) = true
    /\ verifier.zk_Valid (verifier.Zk r) = true.
Proof.
  intros g Hwf Hgen Hmeta Hprove Htm Hcreate Hc Hkeys Hvk Hser Hproto Hwrap Hsigs
    Hjson Hread Hscope Haud Hurl Hexp Hdns Hin Htxt.
  (* the file that is loaded *)
  pose proof (LoadPTX_written json_Marshal proto_Marshal (verifier.proto_Unmarshal env)
                (verifier.ReadFile env) proofJSON metadata domain trustMethod data
                (verifier.FilePath opts) metaRaw Htm Hmeta Hproto Hcreate Hread)
    as Hload.
  (* the ZK check *)
  pose proof (native_verdict g k json_Marshal fr_SetString domain metadata nullifier
                secret trustMethod inputs metaRaw ccs pk vk envelope [] Hgen Hmeta Hc
                Hkeys Hvk Hser Hprove) as [_ Hzk].
  specialize (Hzk eq_refl).
  pose proof (semantic_check_passes k json_Marshal fr_SetString domain metadata
                nullifier secret trustMethod inputs metaRaw Hgen Hmeta) as Hsem.
  (* the envelope *)
  pose proof Hprove as Henv. unfold prover.GenerateProofNative in Henv.
  fold g in Henv. rewrite Hc, Hkeys in Henv.
  destruct (g_Prove g ccs pk _) as [proof|]; [|discriminate].
  assert (Hsrc : prover.Source envelope = "gnark_native"
                 /\ prover.PublicSignals envelope = prover_rest.public_signals inputs).
  { injection Henv as Eenv _. rewrite <- Eenv. split; reflexivity. }
  destruct Hsrc as [Hsrc Hpub]. clear Henv.
  (* the DNS check *)
  pose proof (GenerateCircuitInputs_Ok _ _ _ _ _ _ _ _ _ Hgen)
    as (metaRaw' & ctx & nFr & sFr & com & nh & Hm & _ & _ & _ & Hcom & _ & Hin').
  assert (Hcs : prover.Commitment inputs = fr.String com) by (rewrite Hin'; reflexivity).
  destruct (String_hostname com domain (PoseidonHash_range _ _ _ Hwf Hcom))
    as [hostname Hhost].
  (* running the engine *)
  unfold verifier.Verify. rewrite Hload.
  cbn [ptx.SignedMetadata]. rewrite Hjson.
  assert (E0 : verifier.check_expiration (nonce.clock w) meta (true, []) = (true, [])).
  { unfold verifier.check_expiration.
    destruct (meta !! "expiration_timestamp") as [[]|] eqn:E; try reflexivity.
    specialize (Hexp _ eq_refl).
    destruct (Z.gtb_spec (nonce.clock w) truncated); [lia | reflexivity]. }
  rewrite E0. unfold verifier.check_scope, verifier.check_audience, verifier.check_nonce.
  rewrite Hscope, Haud, Hurl. cbn [String.eqb negb].
  (* DNS *)
  assert (Ed : verifier.dns_Valid
                 (verifier.verifyDNS env
                    (ptx.MkPtxFile trustMethod metaRaw
                       (Some (ptx.MkZkProof ptx.ProofSystem_GROTH16 "sdv_poseidon_v1"
                                proofJSON))
                       (Some domain))) = true).
  { unfold verifier.verifyDNS.
    cbn [ptx.DohDetails ptx.Proof ptx.ProofData ptx.SignedMetadata].
    rewrite Hsigs, Hpub. unfold prover_rest.public_signals.
    rewrite Hcs, Hhost. unfold dns.GetTXT.
    rewrite (Hdns hostname ltac:(rewrite Hcs; exact Hhost)).
    cbn [mbind outcome_bind dns.StatusCode dns.Body dns.Status dns.Answers Z.eqb
         Pos.eqb negb].
    rewrite (found_record _ _ _ _ Hin Htxt). reflexivity. }
  assert (Ez : verifier.verifyProof env
                 (ptx.MkPtxFile trustMethod metaRaw
                    (Some (ptx.MkZkProof ptx.ProofSystem_GROTH16 "sdv_poseidon_v1"
                             proofJSON))
                    (Some domain)) metaRaw
               = verifier.verifyNativeGnarkProof g (prover.ProofHex envelope)
                   (prover.PublicSignals envelope) domain metaRaw trustMethod).
  { unfold verifier.verifyProof.
    cbn [ptx.DohDetails ptx.Proof ptx.ProofData ptx.ProofSystem_of ptx.TrustMethod
         default].
    rewrite Hwrap.
    cbv zeta.
    cbn [verifier.PublicSignals verifier.Source verifier.ProofHex verifier.Proof
         default ptx.DohDetails ptx.TrustMethod].
    unfold id. rewrite Hpub, Hsem, Hsrc. reflexivity. }
  eexists. split; [reflexivity|].
  cbn [verifier.Success verifier.Errors verifier.Dns verifier.Zk].
  rewrite Ed, Ez, Hzk. cbn. repeat split; reflexivity.
Qed.

Lemma generated_token_verifies_witness :
  exists r,
    verifier.Verify sample_rest.env_generated sample_rest.options_plain sample.world
    = (sample.world, Ok r)
    /\ verifier.Success r = true
    /\ verifier.Errors r = []
    /\ verifier.dns_Valid (verifier.Dns r) = true
    /\ verifier.zk_Valid (verifier.Zk r) = true.
Proof.
  pose (hostname0 :=
          match utils.DeriveHostnameFromCommitment
                  (prover.Commitment sample_rest.inputs) "example.com" with
          | Done h => h
          | Failed _ => EmptyString
          end).
  apply (generated_token_verifies sample_rest.env_generated sample_rest.options_plain
           sample.world sample.constants sample_rest.json_Marshal
           sample_rest.fr_SetString (fun _ => Done [8; 1]) "example.com" ∅ "1" "2" 1
           sample_rest.inputs "{}"
           (prover.MkEnvelope "gnark_native"
              (prover_rest.public_signals sample_rest.inputs) "01")
           [123; 125] [80; 84; 88; 1; 0; 8; 1] [] ∅ tt 1 1
           [dns.MkAnswer hostname0 16 (sample_rest.quoted (utils.Sha256 "{}"))]
           hostname0 (sample_rest.quoted (utils.Sha256 "{}"))).
  - vm_compute. reflexivity.
  - exact sample_inputs_generated.
  - reflexivity.
  - reflexivity.
  - lia.
  - reflexivity.
  - reflexivity.
  - reflexivity.
  - reflexivity.
  - intros wit proof E. inversion E; subst proof. split; [|reflexivity].
    change (Forall gobytes.is_byte [1]).
    constructor; [unfold gobytes.is_byte; lia | constructor].
  - intros written bytes _. reflexivity.
  - reflexivity.
  - reflexivity.
  - reflexivity.
  - reflexivity.
  - reflexivity.
  - reflexivity.
  - reflexivity.
  - intros e. rewrite lookup_empty. discriminate.
  - intros hostname Hh. unfold hostname0. rewrite Hh. reflexivity.
  - left. reflexivity.
  - vm_compute. reflexivity.
Defined.
